(** * ProView background workers: search, duplicate scan, bulk copy/move

    A shallow embedding of the three [QRunnable] workers of ProView
    ([FileOperationWorker.run] and [SearchWorker.run] of [FileView.py],
    [DuplicateFinderWorker.run] of [duplicate_finder.py]) together with the
    properties of the event streams they emit, and of the functions around
    them: [list_drives], [DriveTree.delete_selected] and
    [FileViewer.handle_file_operation_result] of [FileView.py], and the
    slots of [DuplicateFilesDialog] that show a result and delete files.

    Conventions of the embedding.
    - A signal emission [self.signals.x.emit(...)] appends an event to the
      trace of the run; traces are lists in emission order.
    - The flag [_is_cancelled] is written by another thread.  A run only
      observes it when it reads it, so a schedule of the other thread is
      the number of reads that still see [False]; the run threads the number
      of reads it has made so far.
    - Python [int] is [Z]; Python [float] is the exact rational value of an
      IEEE-754 binary64 number, with every arithmetic result rounded to
      nearest, ties to even.
    - Calls into the operating system are answered by an explicit world.
    - The [print] statements of the workers are left out. *)

From Stdlib Require Import ZArith QArith Qround Qpower Lia Lqa Bool Ascii.
From Stdlib Require Import Sorted Permutation SpecFloat.
From stdpp Require Import base list strings gmap pretty sorting.

#[local] Set Warnings "-register-all".
Local Open Scope Z_scope.

(** ** Python numbers *)

Module PyNum.

(** [binade q] is the integer [k] with [2^k <= q < 2^(k+1)], for [0 < q]. *)
Definition binade (q : Q) : Z :=
  let k := Z.log2 (Qnum q) - Z.log2 (Zpos (Qden q)) in
  if Qle_bool (2 ^ k)%Q q then k else k - 1.

(** Rounding of a rational to an integer, ties to the even neighbour. *)
Definition round_half_even (q : Q) : Z :=
  let f := Qfloor q in
  match (q - inject_Z f ?= 1 # 2)%Q with
  | Lt => f
  | Gt => f + 1
  | Eq => if Z.even f then f else f + 1
  end.

(** Rounding of a positive rational to 53 significant bits (the exponent
    range of binary64 is never left by the quotients and products of the
    workers, which lie between [2^-63] and [100]). *)
Definition round53_pos (q : Q) : Q :=
  let e := binade q - 52 in
  (inject_Z (round_half_even (q * 2 ^ (- e))) * 2 ^ e)%Q.

Definition round53 (q : Q) : Q :=
  match (q ?= 0)%Q with
  | Eq => 0%Q
  | Gt => round53_pos q
  | Lt => (- round53_pos (- q))%Q
  end.

(** [a / b] on two [int]s: the correctly rounded quotient, or
    [ZeroDivisionError]. *)
Definition truediv (a b : Z) : option Q :=
  if b =? 0 then None else Some (round53 (inject_Z a / inject_Z b)).

(** [x * n] for a float [x] and an int [n] that is exactly representable. *)
Definition fmul (x : Q) (n : Z) : Q := round53 (x * inject_Z n).

(** [int(x)]: truncation towards zero. *)
Definition int_of_float (x : Q) : Z :=
  if Qle_bool 0 x then Qfloor x else Qceiling x.

(** [int((a / b) * 100)] *)
Definition percent (a b : Z) : option Z :=
  match truediv a b with
  | None => None
  | Some x => Some (int_of_float (fmul x 100))
  end.

(** The same expression evaluated with the binary64 operations of the
    standard library's specification of IEEE-754, used to cross-check
    [percent] on concrete inputs. *)
Definition b64_of_int (n : Z) : spec_float := binary_normalize 53 1024 n 0 false.

Definition b64_trunc (x : spec_float) : option Z :=
  match x with
  | S754_zero _ => Some 0
  | S754_finite s m e =>
      let v := if 0 <=? e then Z.pos m * 2 ^ e else Z.pos m / 2 ^ (- e) in
      Some (if s then - v else v)
  | _ => None
  end.

Definition percent_b64 (a b : Z) : option Z :=
  if b =? 0 then None
  else b64_trunc (SFmul 53 1024 (SFdiv 53 1024 (b64_of_int a) (b64_of_int b)) (b64_of_int 100)).

End PyNum.

(** ** Python strings *)

Module Str.

Definition to_list (s : string) : list ascii := String.list_ascii_of_string s.
Definition of_list (l : list ascii) : string := String.string_of_list_ascii l.

(** [s.startswith(p)] *)
Fixpoint startswith (s p : string) {struct p} : bool :=
  match p, s with
  | "", _ => true
  | String a p', String b s' => Ascii.eqb a b && startswith s' p'
  | String _ _, "" => false
  end.

(** [s.endswith(c)] for a one-character [c] *)
Fixpoint endswith_char (s : string) (c : ascii) : bool :=
  match s with
  | "" => false
  | String a "" => Ascii.eqb a c
  | String _ r => endswith_char r c
  end.

(** [p in s] *)
Fixpoint contains (s p : string) : bool :=
  startswith s p ||
  match s with
  | "" => false
  | String _ r => contains r p
  end.

Definition is_upper (c : ascii) : bool :=
  let n := nat_of_ascii c in (65 <=? n)%nat && (n <=? 90)%nat.
Definition is_lower (c : ascii) : bool :=
  let n := nat_of_ascii c in (97 <=? n)%nat && (n <=? 122)%nat.
Definition to_lower (c : ascii) : ascii :=
  if is_upper c then ascii_of_nat (nat_of_ascii c + 32) else c.
Definition to_upper (c : ascii) : ascii :=
  if is_lower c then ascii_of_nat (nat_of_ascii c - 32) else c.

(** [s.lower()], on ASCII letters *)
Fixpoint lower (s : string) : string :=
  match s with
  | "" => ""
  | String c r => String (to_lower c) (lower r)
  end.

(** [s.title()], on ASCII letters: a letter that follows a letter is
    lowered, any other letter is raised. *)
Fixpoint title_go (prev_cased : bool) (s : string) : string :=
  match s with
  | "" => ""
  | String c r =>
      let cased := is_upper c || is_lower c in
      String (if prev_cased then to_lower c else to_upper c) (title_go cased r)
  end.
Definition title (s : string) : string := title_go false s.

End Str.

(** ** [os.path] for POSIX path names *)

Module Path.

Definition sep : string := "/".

Definition is_sep (c : ascii) : bool := Ascii.eqb c "/".

(** [p.split('/')] *)
Fixpoint split (p : string) : list string :=
  match p with
  | "" => [""]
  | String c r =>
      if is_sep c then "" :: split r
      else match split r with
           | h :: t => String c h :: t
           | [] => [String c ""]
           end
  end.

(** ['/'.join(comps)] *)
Fixpoint sep_join (comps : list string) : string :=
  match comps with
  | [] => ""
  | [c] => c
  | c :: cs => c +:+ sep +:+ sep_join cs
  end.

(** [os.path.basename]: the text after the last separator. *)
Definition basename (p : string) : string := List.last (split p) "".

(** [os.path.join(a, b)] *)
Definition join (a b : string) : string :=
  if Str.startswith b sep then b
  else if String.eqb a "" || Str.endswith_char a "/" then a +:+ b
  else a +:+ sep +:+ b.

(** [os.path.splitext]: the extension starts at the last dot of the last
    component, unless only dots precede it there. *)
Fixpoint last_dot (l : list ascii) (i : nat) : option nat :=
  match l with
  | [] => None
  | c :: r =>
      match last_dot r (S i) with
      | Some j => Some j
      | None => if Ascii.eqb c "." then Some i else None
      end
  end.

Definition splitext (p : string) : string * string :=
  let l := Str.to_list p in
  let base := Str.to_list (basename p) in
  let start := (length l - length base)%nat in
  match last_dot base 0 with
  | Some d =>
      if forallb (fun c => Ascii.eqb c ".") (take d base) then (p, "")
      else (Str.of_list (take (start + d) l), Str.of_list (drop (start + d) l))
  | None => (p, "")
  end.

(** [os.path.normpath] *)
Definition initial_slashes (path : string) : nat :=
  if negb (Str.startswith path "/") then 0%nat
  else if Str.startswith path "//" && negb (Str.startswith path "///") then 2%nat
  else 1%nat.

Definition norm_step (initial : nat) (new_comps : list string) (comp : string) : list string :=
  if String.eqb comp "" || String.eqb comp "." then new_comps
  else if negb (String.eqb comp "..")
          || (Nat.eqb initial 0 && bool_decide (new_comps = []))
          || bool_decide (List.last new_comps "" = "..")
       then new_comps ++ [comp]
       else removelast new_comps.

Definition normpath (path : string) : string :=
  if String.eqb path "" then "."
  else
    let i := initial_slashes path in
    let comps := foldl (norm_step i) [] (split path) in
    let path' := Str.of_list (replicate i "/"%char) +:+ sep_join comps in
    if String.eqb path' "" then "." else path'.

End Path.

(** ** The file system seen by the file operation

    A finite map from normalised path names to nodes.  A path name is
    resolved by its normal form: there are no symbolic links, and [..] is
    resolved on the text of the path.  Only the worker changes the map
    during a run.  The calls of [shutil] act on the map as a whole:
    [copytree] copies the tree as it is when the call starts. *)

Module FS.

Inductive node := File (content : string) | Dir.

Abbreviation fs := (gmap string node).

Definition lookup (w : fs) (p : string) : option node := w !! Path.normpath p.

(** [os.path.exists], [os.path.isdir] *)
Definition exists_ (w : fs) (p : string) : bool :=
  match lookup w p with Some _ => true | None => false end.

Definition isdir (w : fs) (p : string) : bool :=
  match lookup w p with Some Dir => true | _ => false end.

(** [below root k]: the path of [k] relative to [root], when [k] is [root]
    or lies in the tree under it. *)
Definition below (root k : string) : option string :=
  if String.eqb k root then Some ""
  else
    let r := if Str.endswith_char root "/" then root else root +:+ "/" in
    if Str.startswith k r
    then Some (String.substring (String.length r) (String.length k - String.length r) k)
    else None.

Definition graft (dst rel : string) : string :=
  if String.eqb rel "" then dst else Path.join dst rel.

(** The tree under [src] as it is when the call starts, copied under [dst]. *)
Definition copy_subtree (w : fs) (src dst : string) : fs :=
  map_fold (fun k n acc =>
              match below src k with
              | Some rel => <[graft dst rel := n]> acc
              | None => acc
              end) w w.

Definition remove_subtree (w : fs) (src : string) : fs :=
  filter (fun kn => below src kn.1 = None) w.

(** A call either returns the new file system or raises, with the text of
    the exception. *)
Definition no_such (p : string) : string :=
  "[Errno 2] No such file or directory: '" +:+ p +:+ "'".

(** [shutil.copy2(src, dst)] *)
Definition copy2 (w : fs) (src dst : string) : string + fs :=
  let dst := if isdir w dst then Path.join dst (Path.basename src) else dst in
  match lookup w src with
  | None => inl (no_such src)
  | Some Dir => inl ("[Errno 21] Is a directory: '" +:+ src +:+ "'")
  | Some (File c) => inr (<[Path.normpath dst := File c]> w)
  end.

(** [shutil.copytree(src, dst, dirs_exist_ok=False)] *)
Definition copytree (w : fs) (src dst : string) : string + fs :=
  match lookup w src with
  | None => inl (no_such src)
  | Some (File _) => inl ("[Errno 20] Not a directory: '" +:+ src +:+ "'")
  | Some Dir =>
      if exists_ w dst then inl ("[Errno 17] File exists: '" +:+ dst +:+ "'")
      else inr (copy_subtree w (Path.normpath src) (Path.normpath dst))
  end.

(** [shutil.move(src, dst)] *)
Definition move (w : fs) (src dst : string) : string + fs :=
  let real_dst := if isdir w dst then Path.join dst (Path.basename src) else dst in
  if isdir w dst && exists_ w real_dst
  then inl ("Destination path '" +:+ real_dst +:+ "' already exists")
  else
    match lookup w src with
    | None => inl (no_such src)
    | Some n =>
        match n, below (Path.normpath src) (Path.normpath real_dst) with
        | Dir, Some _ =>
            inl ("Cannot move a directory '" +:+ src +:+ "' into itself '" +:+ real_dst +:+ "'.")
        | _, _ =>
            inr (remove_subtree (copy_subtree w (Path.normpath src) (Path.normpath real_dst))
                                (Path.normpath src))
        end
    end.

End FS.

(** ** The cancellation flag *)

Module Cancel.

(** [cancel_at = Some k]: the first [k] reads of [_is_cancelled] see
    [False], every later one sees [True]; [None]: [cancel()] is not called
    while the run lasts. *)
Definition is_cancelled (cancel_at : option nat) (reads : nat) : bool :=
  match cancel_at with
  | Some k => (k <=? reads)%nat
  | None => false
  end.

End Cancel.

(** ** [FileOperationWorker] *)

Module FileOperationWorker.

Inductive event :=
  | Progress (value : Z)
  | Result (success_count : Z) (errors : list string) (operation : string)
  | Error (title message : string)
  | Finished.

Record worker := {
  source_paths : list string;
  destination_dir : string;
  operation : string
}.

(** The local variables of [run] that outlive one item, with the file
    system and the number of reads of the flag. *)
Record vars := {
  files : FS.fs;
  reads : nat;
  errors : list string;
  success_count : Z
}.

Inductive flow :=
  | Next       (* the statement ends normally *)
  | Uncaught.  (* an exception leaves [run] *)

(** [norm_source == norm_dest or norm_dest.startswith(norm_source + os.sep)]
    ([os.path.normpath] raises neither [ValueError] nor [OSError] on a
    [str], so the handler around the test is never entered) *)
Definition to_itself_or_subdirectory (source_path destination_dir : string) : bool :=
  let norm_source := Path.normpath source_path in
  let norm_dest := Path.normpath destination_dir in
  String.eqb norm_source norm_dest || Str.startswith norm_dest (norm_source +:+ Path.sep).

Definition new_filename (filename : string) (counter : nat) : string :=
  let '(name, ext) := Path.splitext filename in
  if negb (String.eqb ext "")
  then name +:+ "_copy_" +:+ pretty counter +:+ ext
  else filename +:+ "_copy_" +:+ pretty counter.

(** [while os.path.exists(destination_path): ...], with the number of
    iterations still allowed; see [resolve_conflict_fresh]. *)
Fixpoint conflict_loop (fuel : nat) (w : FS.fs) (destination_dir filename : string)
    (counter : nat) (destination_path : string) : string :=
  if FS.exists_ w destination_path then
    match fuel with
    | O => destination_path
    | S fuel' =>
        conflict_loop fuel' w destination_dir filename (S counter)
          (Path.join destination_dir (new_filename filename counter))
    end
  else destination_path.

Definition resolve_conflict (w : FS.fs) (destination_dir filename : string) : string :=
  conflict_loop (S (size w)) w destination_dir filename 1 (Path.join destination_dir filename).

Definition perform (operation : string) (w : FS.fs) (source_path destination_path : string)
    : string + FS.fs :=
  if String.eqb operation "copy" then
    if FS.isdir w source_path then FS.copytree w source_path destination_path
    else FS.copy2 w source_path destination_path
  else if String.eqb operation "move" then FS.move w source_path destination_path
  else inr w.

(** [progress_value = int(((i + 1) / total_files) * 100)] followed by
    [self.signals.progress.emit(progress_value)].  A [ZeroDivisionError]
    leaves [run]: raised at the end of the loop body it is not caught, and
    raised before a [continue] it is caught, recorded, and raised again by
    the same expression at the end of the body. *)
Definition emit_progress (i total_files : Z) (v : vars) : list event * vars * flow :=
  match PyNum.percent (i + 1) total_files with
  | Some progress_value => ([Progress progress_value], v, Next)
  | None => ([], v, Uncaught)
  end.

Definition add_error (msg : string) (v : vars) : vars :=
  {| files := files v; reads := reads v; errors := errors v ++ [msg];
     success_count := success_count v |}.

(** The body of the [for] loop after the test of the flag. *)
Definition item (self : worker) (total_files i : Z) (source_path : string) (v : vars)
    : list event * vars * flow :=
  if negb (FS.exists_ (files v) source_path) then
    emit_progress i total_files
      (add_error (Path.basename source_path +:+ ": Source no longer exists") v)
  else if to_itself_or_subdirectory source_path (destination_dir self) then
    emit_progress i total_files
      (add_error (Path.basename source_path +:+ ": Cannot " +:+ operation self
                    +:+ " to itself or subdirectory") v)
  else
    let filename := Path.basename source_path in
    let destination_path := resolve_conflict (files v) (destination_dir self) filename in
    match perform (operation self) (files v) source_path destination_path with
    | inr w' =>
        emit_progress i total_files
          {| files := w'; reads := reads v; errors := errors v;
             success_count := success_count v + 1 |}
    | inl e =>
        emit_progress i total_files
          (add_error (Path.basename source_path +:+ ": " +:+ e) v)
    end.

(** [for i, source_path in enumerate(self.source_paths)] *)
Fixpoint items (self : worker) (cancel_at : option nat) (total_files i : Z)
    (rest : list string) (v : vars) : list event * vars * flow :=
  match rest with
  | [] => ([], v, Next)
  | source_path :: rest' =>
      let cancelled := Cancel.is_cancelled cancel_at (reads v) in
      let v := {| files := files v; reads := S (reads v); errors := errors v;
                  success_count := success_count v |} in
      if cancelled then ([], v, Next)
      else
        match item self total_files i source_path v with
        | (evs, v', Uncaught) => (evs, v', Uncaught)
        | (evs, v', Next) =>
            let '(evs', v'', fl) := items self cancel_at total_files (i + 1) rest' v' in
            (evs ++ evs', v'', fl)
        end
  end.

(** [run]: the events emitted, in order, and the file system left. *)
Definition run (self : worker) (w : FS.fs) (cancel_at : option nat) : list event * FS.fs :=
  if negb (FS.isdir w (destination_dir self)) then
    ([Error (Str.title (operation self) +:+ " Error") "Invalid destination directory."], w)
  else
    let total_files := Z.of_nat (length (source_paths self)) in
    let v0 := {| files := w; reads := 0; errors := []; success_count := 0 |} in
    match items self cancel_at total_files 0 (source_paths self) v0 with
    | (evs, v, Uncaught) => (evs, files v)
    | (evs, v, Next) =>
        (evs ++ [Result (success_count v) (errors v) (operation self); Finished], files v)
    end.

End FileOperationWorker.

(** ** [SearchWorker] *)

Module SearchWorker.

Inductive event :=
  | Result (matches : list string)
  | Progress (value : Z)
  | Finished.

(** One name of a directory listing, with what the operating system
    answers while the name is handled: whether the joined path still
    exists, and whether handling the name raises an [OSError] or a
    [UnicodeDecodeError]. *)
Record entry := {
  name : string;
  present : bool;
  raises : bool
}.

(** A directory as [os.walk] meets it: whether it still exists when its
    turn comes, its sub-directories (with their own tree when [os.walk]
    can descend into them: not a symbolic link, listing allowed) and its
    files. *)
Inductive tree :=
  | Node (still_exists : bool) (dirs : list (entry * option tree)) (files : list entry).

(** One triple [(root, dirs, files)] of [os.walk]. *)
Record triple := {
  root : string;
  root_exists : bool;
  dir_names : list entry;
  file_names : list entry
}.

(** [os.walk(top)], top down.  A sub-directory that the loop body removes
    from [dirs] (the directory was handled and the name raised) is not
    entered. *)
Fixpoint walk (top : string) (t : tree) : list triple :=
  match t with
  | Node ex ds fs =>
      {| root := top; root_exists := ex; dir_names := fst <$> ds; file_names := fs |}
      :: flat_map (fun d =>
                     match d with
                     | (e, Some sub) =>
                         if ex && raises e then [] else walk (Path.join top (name e)) sub
                     | (_, None) => []
                     end) ds
  end.

Record world := {
  cwd : string;
  root_is_dir : bool;      (* os.path.exists and os.path.isdir of the root *)
  root_listable : bool;    (* os.listdir of the root succeeds *)
  root_tree : tree;
  cancel_at : option nat
}.

Record worker := {
  root_path : string;
  query : string           (* already lowered by [__init__] *)
}.

Definition make (root_path query : string) : worker :=
  {| root_path := root_path; query := Str.lower query |}.

Record vars := {
  matches : list string;
  processed : Z;
  total_processed : Z;
  reads : nat
}.

Definition read_flag (v : vars) : vars :=
  {| matches := matches v; processed := processed v;
     total_processed := total_processed v; reads := S (reads v) |}.

(** The two inner loops, over [dirs[:]] and over [files]. *)
Fixpoint names (self : worker) (c : option nat) (root : string) (l : list entry) (v : vars)
    : vars :=
  match l with
  | [] => v
  | e :: l' =>
      if Cancel.is_cancelled c (reads v) then read_flag v
      else
        let v := {| matches := matches v; processed := processed v;
                    total_processed := total_processed v + 1; reads := S (reads v) |} in
        if raises e then names self c root l' v
        else if Str.contains (Str.lower (name e)) (query self) && present e then
          names self c root l'
            {| matches := matches v ++ [Path.join root (name e)]; processed := processed v;
               total_processed := total_processed v; reads := reads v |}
        else names self c root l' v
  end.

(** [for root, dirs, files in os.walk(normalized_root)] *)
Fixpoint walk_loop (self : worker) (c : option nat) (l : list triple) (v : vars)
    : list event * vars :=
  match l with
  | [] => ([], v)
  | t :: l' =>
      if Cancel.is_cancelled c (reads v) then ([], read_flag v)
      else
        let v := read_flag v in
        if negb (root_exists t) then walk_loop self c l' v
        else
          let v := names self c (root t) (dir_names t) v in
          let v := names self c (root t) (file_names t) v in
          let v := {| matches := matches v; processed := processed v + 1;
                      total_processed := total_processed v; reads := reads v |} in
          let evs := if processed v mod 5 =? 0
                     then [Progress (Z.min (processed v * 2) 95)] else [] in
          if (200 <? Z.of_nat (length (matches v))) || (2000 <? processed v) then (evs, v)
          else let '(evs', v') := walk_loop self c l' v in (evs ++ evs', v')
  end.

Definition abspath (cwd path : string) : string :=
  Path.normpath (if Str.startswith path "/" then path else Path.join cwd path).

Definition initial : vars :=
  {| matches := []; processed := 0; total_processed := 0; reads := 0 |}.

(** [run]: the events emitted, in order, with the variables at the end. *)
Definition run (self : worker) (w : world) : list event * vars :=
  let normalized_root := Path.normpath (abspath (cwd w) (root_path self)) in
  if negb (root_is_dir w) then ([Result []; Progress 100; Finished], initial)
  else if negb (root_listable w) then ([Result []; Progress 100; Finished], initial)
  else
    let '(evs, v) := walk_loop self (cancel_at w) (walk normalized_root (root_tree w)) initial in
    (evs ++ [Result (matches v); Progress 100; Finished], v).

End SearchWorker.

(** ** Python containers used by the duplicate finder *)

Module PyList.

(** [defaultdict(list)], in insertion order: [d[k].append(x)] *)
Fixpoint dict_append {K : Type} `{EqDecision K} (k : K) (x : string)
    (d : list (K * list string)) : list (K * list string) :=
  match d with
  | [] => [(k, [x])]
  | (k', xs) :: d' =>
      if decide (k = k') then (k', xs ++ [x]) :: d' else (k', xs) :: dict_append k x d'
  end.

Section Sort.
Context {A : Type} (key : A -> Q).

(** [list.sort(key=...)]: a stable sort.  An element is put before the
    first element of the sorted rest whose key is not smaller. *)
Fixpoint insert_sorted (x : A) (l : list A) : list A :=
  match l with
  | [] => [x]
  | y :: l' => if Qle_bool (key x) (key y) then x :: l else y :: insert_sorted x l'
  end.

Fixpoint sort (l : list A) : list A :=
  match l with
  | [] => []
  | x :: l' => insert_sorted x (sort l')
  end.

End Sort.
End PyList.

(** ** [DuplicateFinderWorker] *)

Module DuplicateFinderWorker.

Record group := {
  hash : string;
  files : list string;
  size : Z;
  wasted_space : Z;
  count : Z
}.

Inductive event :=
  | Result (duplicate_groups : list group) (total_wasted_space : Z)
  | Progress (value : Z)
  | Status (text : string)
  | Finished.

(** What reading a file gives: all its bytes, or an [OSError] after so many
    chunks. *)
Inductive read_result :=
  | ReadAll (data : string)
  | ReadError (chunks_before : nat).

(** The answers of the operating system (and of [hashlib]) during one run.
    [None] stands for a raised [OSError]. *)
Record world := {
  cancel_at : option nat;
  path_exists : string -> bool;
  path_isdir : string -> bool;
  path_islink : string -> bool;
  listdir_error : string -> option string;
  walk : string -> list (string * list string) * option string;
  stat_size : string -> option Z;
  read_file : string -> read_result;
  md5_hexdigest : string -> string;
  getmtime : string -> option Q;
  getsize : string -> option Z
}.

Record worker := {
  root_paths : list string;
  min_file_size : Z
}.

Definition chunk_size : Z := 8192.

(** The number of non-empty results of [f.read(chunk_size)]. *)
Definition chunk_count (data : string) : nat :=
  Z.to_nat ((Z.of_nat (String.length data) + (chunk_size - 1)) / chunk_size).

(** [n] iterations that each read the flag and stop when it is set:
    whether it was seen set, and the number of reads afterwards. *)
Fixpoint read_flag_times (c : option nat) (n reads : nat) : bool * nat :=
  match n with
  | O => (false, reads)
  | S n' =>
      if Cancel.is_cancelled c reads then (true, S reads)
      else read_flag_times c n' (S reads)
  end.

(** [get_file_hash] *)
Definition get_file_hash (w : world) (filepath : string) (reads : nat) : option string * nat :=
  match read_file w filepath with
  | ReadAll data =>
      match read_flag_times (cancel_at w) (chunk_count data) reads with
      | (true, reads') => (None, reads')
      | (false, reads') => (Some (md5_hexdigest w data), reads')
      end
  | ReadError n =>
      (None, snd (read_flag_times (cancel_at w) n reads))
  end.

(** *** Step 1: group files by size *)

Record scan_vars := {
  size_groups : list (Z * list string);
  total_files : Z;
  s_reads : nat
}.

Definition s_read_flag (v : scan_vars) : scan_vars :=
  {| size_groups := size_groups v; total_files := total_files v; s_reads := S (s_reads v) |}.

(** [for filename in files] *)
Fixpoint scan_files (self : worker) (w : world) (root : string) (l : list string)
    (v : scan_vars) : list event * scan_vars :=
  match l with
  | [] => ([], v)
  | filename :: l' =>
      if Cancel.is_cancelled (cancel_at w) (s_reads v) then ([], s_read_flag v)
      else
        let v := s_read_flag v in
        let filepath := Path.join root filename in
        if negb (path_exists w filepath) then scan_files self w root l' v
        else if path_islink w filepath then scan_files self w root l' v
        else
          match stat_size w filepath with
          | None => scan_files self w root l' v
          | Some file_size =>
              if file_size <? min_file_size self then scan_files self w root l' v
              else
                let v := {| size_groups := PyList.dict_append file_size filepath (size_groups v);
                            total_files := total_files v + 1; s_reads := s_reads v |} in
                let evs := if total_files v mod 50 =? 0
                           then [Status ("Scanned " +:+ pretty (total_files v) +:+ " files...")]
                           else [] in
                let '(evs', v') := scan_files self w root l' v in
                (evs ++ evs', v')
          end
  end.

(** [for root, dirs, files in os.walk(root_path)] *)
Fixpoint scan_walk (self : worker) (w : world) (l : list (string * list string))
    (v : scan_vars) : list event * scan_vars * bool :=
  match l with
  | [] => ([], v, false)
  | (root, files) :: l' =>
      if Cancel.is_cancelled (cancel_at w) (s_reads v) then ([], s_read_flag v, true)
      else
        let '(evs, v) := scan_files self w root files (s_read_flag v) in
        let '(evs', v', broke) := scan_walk self w l' v in
        (evs ++ evs', v', broke)
  end.

(** [for root_path in self.root_paths] *)
Fixpoint scan_roots (self : worker) (w : world) (l : list string) (v : scan_vars)
    : list event * scan_vars :=
  match l with
  | [] => ([], v)
  | root_path :: l' =>
      if Cancel.is_cancelled (cancel_at w) (s_reads v) then ([], s_read_flag v)
      else
        let v := s_read_flag v in
        if negb (path_exists w root_path) then scan_roots self w l' v
        else if negb (path_isdir w root_path) then scan_roots self w l' v
        else
          match listdir_error w root_path with
          | Some e =>
              let '(evs', v') := scan_roots self w l' v in
              (Status ("Cannot access " +:+ root_path +:+ ": " +:+ e) :: evs', v')
          | None =>
              let '(triples, failure) := walk w root_path in
              let '(evs, v, broke) := scan_walk self w triples v in
              let evs1 := match failure with
                          | Some e =>
                              if broke then []
                              else [Status ("Error scanning " +:+ root_path +:+ ": " +:+ e)]
                          | None => []
                          end in
              let '(evs', v') := scan_roots self w l' v in
              (evs ++ evs1 ++ evs', v')
          end
  end.

(** *** Step 2: hash the files that share their size *)

(** [potential_duplicates] *)
Fixpoint count_potential (d : list (Z * list string)) : Z :=
  match d with
  | [] => 0
  | (_, file_paths) :: d' =>
      if 1 <? Z.of_nat (length file_paths)
      then Z.of_nat (length file_paths) + count_potential d'
      else count_potential d'
  end.

Record hash_vars := {
  hash_groups : list (string * list string);
  processed_files : Z;
  h_reads : nat
}.

Inductive flow := Next | Uncaught.

(** [for filepath in file_paths] *)
Fixpoint hash_files (w : world) (potential_duplicates : Z) (l : list string) (v : hash_vars)
    : list event * hash_vars * flow :=
  match l with
  | [] => ([], v, Next)
  | filepath :: l' =>
      if Cancel.is_cancelled (cancel_at w) (h_reads v)
      then ([], {| hash_groups := hash_groups v; processed_files := processed_files v;
                   h_reads := S (h_reads v) |}, Next)
      else
        let '(file_hash, reads) := get_file_hash w filepath (S (h_reads v)) in
        let groups := match file_hash with
                      | Some h => if String.eqb h "" then hash_groups v
                                  else PyList.dict_append h filepath (hash_groups v)
                      | None => hash_groups v
                      end in
        let v := {| hash_groups := groups; processed_files := processed_files v + 1;
                    h_reads := reads |} in
        if processed_files v mod 10 =? 0 then
          match PyNum.percent (processed_files v) potential_duplicates with
          | None => ([], v, Uncaught)
          | Some progress =>
              let '(evs, v', fl) := hash_files w potential_duplicates l' v in
              (Progress progress :: evs, v', fl)
          end
        else hash_files w potential_duplicates l' v
  end.

(** [for file_size, file_paths in size_groups.items()] *)
Fixpoint hash_sizes (w : world) (potential_duplicates : Z) (d : list (Z * list string))
    (v : hash_vars) : list event * hash_vars * flow :=
  match d with
  | [] => ([], v, Next)
  | (_, file_paths) :: d' =>
      if Cancel.is_cancelled (cancel_at w) (h_reads v)
      then ([], {| hash_groups := hash_groups v; processed_files := processed_files v;
                   h_reads := S (h_reads v) |}, Next)
      else
        let v := {| hash_groups := hash_groups v; processed_files := processed_files v;
                    h_reads := S (h_reads v) |} in
        if 1 <? Z.of_nat (length file_paths) then
          match hash_files w potential_duplicates file_paths v with
          | (evs, v, Uncaught) => (evs, v, Uncaught)
          | (evs, v, Next) =>
              let '(evs', v', fl) := hash_sizes w potential_duplicates d' v in
              (evs ++ evs', v', fl)
          end
        else hash_sizes w potential_duplicates d' v
  end.

(** *** Step 3: keep the groups of two files and more *)

(** [file_paths.sort(key=lambda x: os.path.getmtime(x))] inside its [try]:
    the keys are taken first, and the list is left alone when one of them
    raises. *)
Definition sort_by_mtime (w : world) (file_paths : list string) : list string :=
  if forallb (fun x => bool_decide (is_Some (getmtime w x))) file_paths
  then PyList.sort (fun x => default 0%Q (getmtime w x)) file_paths
  else file_paths.

(** [for file_hash, file_paths in hash_groups.items()] *)
Fixpoint assemble (w : world) (d : list (string * list string)) : list group * Z :=
  match d with
  | [] => ([], 0)
  | (file_hash, file_paths) :: d' =>
      let '(duplicate_groups, total_wasted_space) := assemble w d' in
      if 1 <? Z.of_nat (length file_paths) then
        let file_paths := sort_by_mtime w file_paths in
        match getsize w (default "" (head file_paths)) with
        | Some file_size =>
            let wasted_space := file_size * (Z.of_nat (length file_paths) - 1) in
            ({| hash := file_hash; files := file_paths; size := file_size;
                wasted_space := wasted_space; count := Z.of_nat (length file_paths) |}
               :: duplicate_groups,
             wasted_space + total_wasted_space)
        | None => (duplicate_groups, total_wasted_space)
        end
      else (duplicate_groups, total_wasted_space)
  end.

Definition scan_stage (self : worker) (w : world) : list event * scan_vars :=
  scan_roots self w (root_paths self) {| size_groups := []; total_files := 0; s_reads := 0 |}.

Definition hash_stage (self : worker) (w : world) : list event * hash_vars * flow :=
  let sv := snd (scan_stage self w) in
  hash_sizes w (count_potential (size_groups sv)) (size_groups sv)
    {| hash_groups := []; processed_files := 0; h_reads := S (s_reads sv) |}.

(** [run]: the events emitted, in order, and the number of reads of the
    flag. *)
Definition run (self : worker) (w : world) : list event * nat :=
  let '(evs1, sv) := scan_stage self w in
  let evs1 := Status "Scanning files..." :: evs1 in
  if Cancel.is_cancelled (cancel_at w) (s_reads sv) then (evs1 ++ [Finished], S (s_reads sv))
  else
    let evs2 := [Status ("Found " +:+ pretty (total_files sv)
                           +:+ " files, checking for duplicates...")] in
    let potential_duplicates := count_potential (size_groups sv) in
    if potential_duplicates =? 0
    then (evs1 ++ evs2 ++ [Result [] 0; Progress 100; Finished], S (s_reads sv))
    else
      let evs3 := [Status ("Checking " +:+ pretty potential_duplicates
                             +:+ " potential duplicates...")] in
      match hash_stage self w with
      | (evs4, hv, Uncaught) => (evs1 ++ evs2 ++ evs3 ++ evs4, h_reads hv)
      | (evs4, hv, Next) =>
          if Cancel.is_cancelled (cancel_at w) (h_reads hv)
          then (evs1 ++ evs2 ++ evs3 ++ evs4 ++ [Finished], S (h_reads hv))
          else
            let '(duplicate_groups, total_wasted_space) := assemble w (hash_groups hv) in
            (evs1 ++ evs2 ++ evs3 ++ evs4
               ++ [Result duplicate_groups total_wasted_space; Progress 100; Finished],
             S (h_reads hv))
      end.

End DuplicateFinderWorker.

(** ** Deleting: [os.remove] and [shutil.rmtree]

    The operating system may refuse a call (the file is in use, a
    permission is missing, the name cannot be resolved): the call then
    raises.  What it refuses at each call is an answer of the world, like
    the other answers of the operating system. *)

Module Os.

Record refusals := {
  (* [os.remove(filepath)] at call [i] raises this error and removes nothing *)
  remove_refused : nat -> string -> option string;
  (* [shutil.rmtree(path)] at call [i] raises this error; the entries of
     the tree for which the function is true are left behind *)
  rmtree_refused : nat -> string -> option ((string -> bool) * string)
}.

(** The operating system that refuses nothing. *)
Definition willing : refusals :=
  {| remove_refused := fun _ _ => None; rmtree_refused := fun _ _ => None |}.

(** [os.remove(filepath)], the [i]-th call *)
Definition remove (r : refusals) (i : nat) (w : FS.fs) (filepath : string) : string + FS.fs :=
  match remove_refused r i filepath with
  | Some e => inl e
  | None =>
      match FS.lookup w filepath with
      | None => inl (FS.no_such filepath)
      | Some FS.Dir => inl ("[Errno 21] Is a directory: '" +:+ filepath +:+ "'")
      | Some (FS.File _) => inr (delete (Path.normpath filepath) w)
      end
  end.

(** [shutil.rmtree(path)], the [i]-th call, on a directory: the error
    raised, if any, and the file system left. *)
Definition rmtree (r : refusals) (i : nat) (w : FS.fs) (path : string)
    : option string * FS.fs :=
  match rmtree_refused r i path with
  | Some (left_behind, e) =>
      (Some e,
       filter (fun kn => FS.below (Path.normpath path) kn.1 = None \/ left_behind kn.1 = true) w)
  | None => (None, FS.remove_subtree w (Path.normpath path))
  end.

End Os.

(** ** [list_drives] *)

Module Drives.

(** The answers of [kernel32]: the bit mask of the drives, the type of a
    drive, and for [GetVolumeInformationW] its result with the text left in
    the buffer of the volume name. *)
Record nt := {
  GetLogicalDrives : Z;
  GetDriveTypeW : string -> Z;
  GetVolumeInformationW : string -> Z * string
}.

(** The answers of [os.path] and [os.listdir]; [None] stands for a raised
    [OSError]. *)
Record posix := {
  isdir : string -> bool;
  listdir : string -> option (list string);
  ismount : string -> bool
}.

(** [os.name == "nt"], or not *)
Inductive os :=
  | Nt (w : nt)
  | Posix (w : posix).

Definition backslash : string := String (ascii_of_nat 92) "".

(** The drive of the letter [chr(65 + i)]: the letter, a colon and a
    backslash. *)
Definition drive_of (i : nat) : string :=
  String (ascii_of_nat (65 + i)) (":" +:+ backslash).

(** The body of [for i in range(26)] *)
Definition nt_drive (w : nt) (i : nat) : list (string * string) :=
  if negb (Z.land (GetLogicalDrives w) (Z.shiftl 1 (Z.of_nat i)) =? 0) then
    let drive := drive_of i in
    let drive_type := GetDriveTypeW w drive in
    if existsb (Z.eqb drive_type) [2; 3; 4; 5; 6] then
      let '(result, value) := GetVolumeInformationW w drive in
      let volume_name :=
        if negb (result =? 0) && negb (String.eqb value "") then value else "" in
      let drive_label :=
        if drive_type =? 2 then
          if negb (String.eqb volume_name "")
          then drive +:+ " - " +:+ volume_name +:+ " (Removable)"
          else drive +:+ " - Removable Drive"
        else
          if negb (String.eqb volume_name "")
          then drive +:+ " - " +:+ volume_name
          else drive in
      [(drive, drive_label)]
    else []
  else [].

(** [for name in os.listdir(base)] *)
Definition mounts (w : posix) (base : string) (names : list string) : list (string * string) :=
  flat_map (fun name =>
              let p := Path.join base name in
              if ismount w p then [(p, p +:+ " - Removable Drive")] else []) names.

(** [for base in ("/Volumes", "/media", "/mnt")] *)
Fixpoint posix_bases (w : posix) (bases : list string) (drives : list (string * string))
    : option (list (string * string)) :=
  match bases with
  | [] => Some drives
  | base :: bases' =>
      if isdir w base then
        match listdir w base with
        | Some names => posix_bases w bases' (drives ++ mounts w base names)
        | None => None
        end
      else posix_bases w bases' drives
  end.

(** [list_drives]; [None] when the call raises. *)
Definition list_drives (o : os) : option (list (string * string)) :=
  match o with
  | Nt w => Some (flat_map (nt_drive w) (seq 0 26))
  | Posix w => posix_bases w ["/Volumes"; "/media"; "/mnt"] [("/", "/")]
  end.

End Drives.

(** ** [FileViewer.handle_file_operation_result] *)

Module FileViewer.

Inductive icon := Critical | Warning | Information.

(** The message box that is shown. *)
Record message_box := {
  window_title : string;
  box_icon : icon;
  box_text : string
}.

Definition newline : string := String (ascii_of_nat 10) "".

(** ["\n".join(l)] *)
Fixpoint join_lines (l : list string) : string :=
  match l with
  | [] => ""
  | x :: l' => match l' with [] => x | _ :: _ => x +:+ newline +:+ join_lines l' end
  end.

(** [handle_file_operation_result], without what it does to the progress
    bar and the panels. *)
Definition handle_file_operation_result (success_count : Z) (errors : list string)
    (operation : string) : message_box :=
  let message := "Successfully " +:+ operation +:+ "ed " +:+ pretty success_count
                   +:+ " item(s)." in
  let message :=
    match errors with
    | [] => message
    | _ :: _ =>
        let message := message +:+ newline +:+ newline +:+ "Errors:" +:+ newline
                         +:+ join_lines (take 3 errors) in
        if 3 <? Z.of_nat (length errors)
        then message +:+ newline +:+ "... and " +:+ pretty (Z.of_nat (length errors) - 3)
                     +:+ " more errors."
        else message
    end in
  match errors with
  | _ :: _ =>
      if success_count =? 0
      then {| window_title := Str.title operation +:+ " Failed"; box_icon := Critical;
              box_text := message |}
      else {| window_title := Str.title operation +:+ " Results"; box_icon := Warning;
              box_text := message |}
  | [] =>
      {| window_title := Str.title operation +:+ " Complete"; box_icon := Information;
         box_text := message |}
  end.

End FileViewer.

(** ** [DriveTree.delete_selected] *)

Module DriveTree.

(** One turn of [for p in paths], the [i]-th: the error caught, if any, and
    the file system left.  The file system has no symbolic links, so a
    directory is removed with its tree. *)
Definition delete_path (r : Os.refusals) (i : nat) (w : FS.fs) (p : string)
    : option string * FS.fs :=
  if FS.isdir w p then Os.rmtree r i w p
  else
    match Os.remove r i w p with
    | inr w' => (None, w')
    | inl e => (Some e, w)
    end.

Fixpoint delete_each (r : Os.refusals) (i : nat) (paths : list string) (w : FS.fs)
    (errors : list string) : list string * FS.fs :=
  match paths with
  | [] => (errors, w)
  | p :: paths' =>
      match delete_path r i w p with
      | (None, w') => delete_each r (S i) paths' w' errors
      | (Some e, w') => delete_each r (S i) paths' w' (errors ++ [p +:+ ": " +:+ e])
      end
  end.

(** [delete_selected], with the selected paths and the answer given to the
    question: the errors shown, if the loop was run, and the file system. *)
Definition delete_selected (r : Os.refusals) (paths : list string) (yes : bool) (w : FS.fs)
    : option (list string) * FS.fs :=
  match paths with
  | [] => (None, w)
  | _ :: _ =>
      if negb yes then (None, w)
      else let '(errors, w') := delete_each r 0 paths w [] in (Some errors, w')
  end.

End DriveTree.

(** ** [DuplicateFilesDialog]: the results and their deletion

    The dialog as the data its slots read and write.  The tree is the list
    of its items in the order of [QTreeWidgetItemIterator]: each group item
    is followed by its file items.  Of an item, column 0, column 3 and the
    check state of column 0 are kept; columns 1 and 2 are only shown.  An
    item has the empty text in a column that was never set, and is
    unchecked until it is checked. *)

Module DuplicateFilesDialog.
Import DuplicateFinderWorker.

Record tree_item := {
  text0 : string;
  text3 : string;
  checked : bool
}.

(** The numbers shown by [summary_label]. *)
Inductive summary :=
  | Blank
  | No_duplicates
  | Found (groups total_duplicates total_wasted_space : Z).

Record dialog := {
  duplicate_groups : list group;
  summary_label : summary;
  tree : list tree_item;
  results_visible : bool
}.

(** [for i, filepath in enumerate(group['files'])] *)
Fixpoint file_items (i : nat) (l : list string) : list tree_item :=
  match l with
  | [] => []
  | filepath :: l' =>
      (if (i =? 0)%nat
       then {| text0 := filepath; text3 := "Keep (Original)"; checked := false |}
       else {| text0 := filepath; text3 := "Duplicate"; checked := false |})
      :: file_items (S i) l'
  end.

Definition group_items (g : group) : list tree_item :=
  {| text0 := "Duplicate Group (" +:+ pretty (count g) +:+ " files)"; text3 := "";
     checked := false |}
  :: file_items 0 (files g).

(** [sum(group['count'] - 1 for group in duplicate_groups)] *)
Definition total_duplicates (duplicate_groups : list group) : Z :=
  foldr Z.add 0 ((fun g => count g - 1) <$> duplicate_groups).

(** [show_results]: with no group the method returns before the tree is
    cleared. *)
Definition show_results (self : dialog) (duplicate_groups : list group)
    (total_wasted_space : Z) : dialog :=
  match duplicate_groups with
  | [] =>
      {| duplicate_groups := []; summary_label := No_duplicates; tree := tree self;
         results_visible := true |}
  | _ :: _ =>
      {| duplicate_groups := duplicate_groups;
         summary_label := Found (Z.of_nat (length duplicate_groups))
                                (total_duplicates duplicate_groups) total_wasted_space;
         tree := flat_map group_items duplicate_groups;
         results_visible := true |}
  end.

Definition is_duplicate (it : tree_item) : bool := String.eqb (text3 it) "Duplicate".

(** [select_duplicates] *)
Definition select_duplicates (self : dialog) : dialog :=
  {| duplicate_groups := duplicate_groups self; summary_label := summary_label self;
     tree := (fun it => if is_duplicate it
                        then {| text0 := text0 it; text3 := text3 it; checked := true |}
                        else it) <$> tree self;
     results_visible := results_visible self |}.

(** The first loop of [delete_selected_files] *)
Definition files_to_delete (self : dialog) : list string :=
  text0 <$> List.filter (fun it => checked it && is_duplicate it) (tree self).

(** [for filepath in files_to_delete], from the [i]-th file on *)
Fixpoint remove_each (r : Os.refusals) (i : nat) (l : list string) (w : FS.fs)
    (deleted_count : Z) (errors : list string) : Z * list string * FS.fs :=
  match l with
  | [] => (deleted_count, errors, w)
  | filepath :: l' =>
      match Os.remove r i w filepath with
      | inr w' => remove_each r (S i) l' w' (deleted_count + 1) errors
      | inl e =>
          remove_each r (S i) l' w deleted_count
            (errors ++ [Path.basename filepath +:+ ": " +:+ e])
      end
  end.

(** What [delete_selected_files] shows; after [Deleted] it starts a new scan. *)
Inductive outcome :=
  | No_files_selected
  | Declined
  | Deleted (deleted_count : Z) (errors : list string).

(** [delete_selected_files], with the answer given to the question. *)
Definition delete_selected_files (r : Os.refusals) (self : dialog) (yes : bool) (w : FS.fs)
    : outcome * FS.fs :=
  match files_to_delete self with
  | [] => (No_files_selected, w)
  | _ :: _ =>
      if negb yes then (Declined, w)
      else
        let '(deleted_count, errors, w') := remove_each r 0 (files_to_delete self) w 0 [] in
        (Deleted deleted_count errors, w')
  end.

(** The user changes check states only: the texts of the items stay. *)
Definition texts (it : tree_item) : string * string := (text0 it, text3 it).

Definition same_texts (self self' : dialog) : Prop :=
  texts <$> tree self = texts <$> tree self'.

(** The files of the groups but the first of each. *)
Definition listed_as_duplicate (duplicate_groups : list group) : list string :=
  flat_map (fun g => tail (files g)) duplicate_groups.

End DuplicateFilesDialog.

(** ** The definitions at work *)

Example percent_of_29_in_100 : PyNum.percent 29 100 = Some 28.
Proof. vm_compute. reflexivity. Qed.

(** [percent] agrees with the binary64 operations of [SpecFloat] on every
    [1 <= a <= b <= 40]. *)
Example percent_agrees_with_binary64 :
  forallb (fun b : nat =>
             forallb (fun a : nat =>
                        bool_decide (PyNum.percent (Z.of_nat a) (Z.of_nat b)
                                     = PyNum.percent_b64 (Z.of_nat a) (Z.of_nat b)))
                     (seq 1 b))
          (seq 1 40) = true.
Proof. vm_compute. reflexivity. Qed.

Example basename_examples :
  Path.basename <$> ["/a/b.txt"; "/a/b/"; "/"; "a"; ""] = ["b.txt"; ""; ""; "a"; ""].
Proof. reflexivity. Qed.

Example join_examples :
  [Path.join "/d" "a.txt"; Path.join "/d/" "a.txt"; Path.join "" "a"; Path.join "/d" "/x";
   Path.join "/a" ""]
  = ["/d/a.txt"; "/d/a.txt"; "a"; "/x"; "/a/"].
Proof. reflexivity. Qed.

Example splitext_examples :
  Path.splitext <$> ["a.txt"; ".bashrc"; "a.tar.gz"; "a"; "..x"; "a."; "/x.y/b"; "...a.b"]
  = [("a", ".txt"); (".bashrc", ""); ("a.tar", ".gz"); ("a", ""); ("..x", ""); ("a", ".");
     ("/x.y/b", ""); ("...a", ".b")].
Proof. reflexivity. Qed.

Example normpath_examples :
  Path.normpath <$> ["/"; "//"; "///"; "/a/"; "/a/./b/../c"; ""; "a/.."; "../a"; "/..";
                     "//a//b"; "a/../../b"]
  = ["/"; "//"; "/"; "/a"; "/a/c"; "."; "."; "../a"; "/"; "//a/b"; "../b"].
Proof. reflexivity. Qed.

Example title_examples : Str.title <$> ["copy"; "move"] = ["Copy"; "Move"].
Proof. reflexivity. Qed.

(** * Properties *)

(** ** Rounding is monotone *)

Module PyNumFacts.
Import PyNum.

Lemma round_half_even_cases q :
  let f := Qfloor q in
  (round_half_even q = f /\ (q - inject_Z f <= 1 # 2)%Q /\
     ((q - inject_Z f == 1 # 2)%Q -> Z.even f = true)) \/
  (round_half_even q = f + 1 /\ (1 # 2 <= q - inject_Z f)%Q /\
     ((q - inject_Z f == 1 # 2)%Q -> Z.even f = false)).
Proof.
  intros f. unfold round_half_even. fold f.
  destruct (Qcompare_spec (q - inject_Z f) (1 # 2)) as [E|L|G].
  - destruct (Z.even f) eqn:Ev; [left | right]; repeat split; auto; rewrite E; lra.
  - left. repeat split; [lra|]. intros E. rewrite E in L. lra.
  - right. repeat split; [lra|]. intros E. rewrite E in G. lra.
Qed.

Lemma round_half_even_mono x y : (x <= y)%Q -> round_half_even x <= round_half_even y.
Proof.
  intros Hxy.
  pose proof (Qfloor_resp_le _ _ Hxy) as Hf.
  pose proof (Qfloor_le x) as Hx1. pose proof (Qlt_floor x) as Hx2.
  pose proof (Qfloor_le y) as Hy1. pose proof (Qlt_floor y) as Hy2.
  destruct (round_half_even_cases x) as [(-> & Hx & Ex)|(-> & Hx & Ex)];
    destruct (round_half_even_cases y) as [(-> & Hy & Ey)|(-> & Hy & Ey)]; try lia.
  destruct (Z.eq_dec (Qfloor x) (Qfloor y)) as [E|N]; [|lia].
  exfalso. rewrite E in *.
  assert (Hx' : (x - inject_Z (Qfloor y) == 1 # 2)%Q) by lra.
  assert (Hy' : (y - inject_Z (Qfloor y) == 1 # 2)%Q) by lra.
  specialize (Ex Hx'). specialize (Ey Hy'). congruence.
Qed.

Lemma round_half_even_Z z : round_half_even (inject_Z z) = z.
Proof.
  unfold round_half_even. rewrite Qfloor_Z.
  destruct (Qcompare_spec (inject_Z z - inject_Z z) (1 # 2)) as [E|L|G]; try lra. reflexivity.
Qed.

Local Open Scope Q_scope.

Lemma two_pow_pos k : 0 < 2 ^ k.
Proof. apply Qpower_0_lt. lra. Qed.

Lemma two_pow_succ k : 2 ^ (k + 1) == 2 * 2 ^ k.
Proof. rewrite Qpower_plus by lra. simpl (2 ^ 1). lra. Qed.

Lemma two_pow_sub a b : 2 ^ (a - b) == 2 ^ a / 2 ^ b.
Proof. apply Qpower_minus. lra. Qed.

Lemma two_pow_inject (a : Z) : (0 <= a)%Z -> inject_Z (2 ^ a) == 2 ^ a.
Proof. intros H. rewrite Zpower_Qpower by assumption. reflexivity. Qed.

Lemma two_pow_le a b : (a <= b)%Z -> 2 ^ a <= 2 ^ b.
Proof. intros H. apply Qpower_le_compat_l; [assumption | lra]. Qed.

Lemma two_pow_lt_inv a b : 2 ^ a < 2 ^ b -> (a < b)%Z.
Proof. intros H. apply (Qpower_lt_compat_l_inv 2); [assumption | lra]. Qed.

Lemma Qdiv_le_cross x y u v : 0 < y -> 0 < v -> x * v <= u * y -> x / y <= u / v.
Proof.
  intros Hy Hv H. apply Qle_shift_div_l; [assumption|].
  assert (E : x / y * v == x * v / y) by (field; lra). rewrite E.
  apply Qle_shift_div_r; assumption.
Qed.

Lemma Qdiv_lt_cross x y u v : 0 < y -> 0 < v -> x * v < u * y -> x / y < u / v.
Proof.
  intros Hy Hv H. apply Qlt_shift_div_l; [assumption|].
  assert (E : x / y * v == x * v / y) by (field; lra). rewrite E.
  apply Qlt_shift_div_r; assumption.
Qed.

Lemma binade_spec q : 0 < q -> 2 ^ binade q <= q /\ q < 2 ^ (binade q + 1).
Proof.
  intros Hq. unfold binade.
  destruct q as [n d]. cbn [Qnum Qden].
  assert (Hn : (0 < n)%Z) by (unfold Qlt in Hq; cbn in Hq; lia).
  destruct (Z.log2_spec n Hn) as [Ha1 Ha2].
  destruct (Z.log2_spec (Z.pos d) (Pos2Z.is_pos d)) as [Hb1 Hb2].
  pose proof (Z.log2_nonneg n) as Ha0. pose proof (Z.log2_nonneg (Z.pos d)) as Hb0.
  set (a := Z.log2 n) in *. set (b := Z.log2 (Z.pos d)) in *.
  assert (Ea : inject_Z n < 2 * 2 ^ a).
  { rewrite <- two_pow_succ, <- two_pow_inject by lia. rewrite <- Zlt_Qlt. lia. }
  assert (Ea' : 2 ^ a <= inject_Z n).
  { rewrite <- two_pow_inject by lia. rewrite <- Zle_Qle. lia. }
  assert (Eb : inject_Z (Z.pos d) < 2 * 2 ^ b).
  { rewrite <- two_pow_succ, <- two_pow_inject by lia. rewrite <- Zlt_Qlt. lia. }
  assert (Eb' : 2 ^ b <= inject_Z (Z.pos d)).
  { rewrite <- two_pow_inject by lia. rewrite <- Zle_Qle. lia. }
  pose proof (two_pow_pos a) as Pa. pose proof (two_pow_pos b) as Pb.
  assert (Pd : 0 < inject_Z (Z.pos d)) by (rewrite <- (Zlt_Qlt 0); lia).
  assert (Pn : 0 < inject_Z n) by (rewrite <- (Zlt_Qlt 0); lia).
  assert (Eq : n # d == inject_Z n / inject_Z (Z.pos d)) by apply Qmake_Qdiv.
  destruct (Qle_bool (2 ^ (a - b)) (n # d)) eqn:Hc.
  - apply Qle_bool_iff in Hc. split; [assumption|].
    rewrite Eq. replace (a - b + 1)%Z with ((a + 1) - b)%Z by lia.
    rewrite two_pow_sub, two_pow_succ.
    apply Qdiv_lt_cross; [assumption | assumption | nra].
  - assert (Hlt : n # d < 2 ^ (a - b)).
    { apply Qnot_le_lt. intros H. apply Qle_bool_iff in H. congruence. }
    split.
    + rewrite Eq. replace (a - b - 1)%Z with (a - (b + 1))%Z by lia.
      rewrite two_pow_sub, two_pow_succ.
      apply Qdiv_le_cross; [lra | assumption | nra].
    + replace (a - b - 1 + 1)%Z with (a - b)%Z by lia. assumption.
Qed.

Lemma binade_mono x y : 0 < x -> x <= y -> (binade x <= binade y)%Z.
Proof.
  intros Hx Hxy.
  destruct (binade_spec x Hx) as [X1 X2].
  destruct (binade_spec y) as [Y1 Y2]; [lra|].
  assert (H : 2 ^ binade x < 2 ^ (binade y + 1)) by lra.
  apply two_pow_lt_inv in H. lia.
Qed.

Lemma round53_pos_mantissa x :
  0 < x ->
  exists m : Z,
    round53_pos x = inject_Z m * 2 ^ (binade x - 52) /\
    m = round_half_even (x * 2 ^ (- (binade x - 52))) /\
    (2 ^ 52 <= m <= 2 ^ 53)%Z.
Proof.
  intros Hx. eexists. split; [reflexivity|]. split; [reflexivity|].
  destruct (binade_spec x Hx) as [B1 B2].
  set (k := binade x) in *. set (c := 2 ^ (- (k - 52))).
  assert (Pc : 0 < c) by apply two_pow_pos.
  assert (E1 : 2 ^ k * c == inject_Z (2 ^ 52)).
  { unfold c. rewrite <- Qpower_plus by lra.
    replace (k + - (k - 52))%Z with 52%Z by lia. rewrite two_pow_inject by lia. reflexivity. }
  assert (E2 : 2 ^ (k + 1) * c == inject_Z (2 ^ 53)).
  { unfold c. rewrite <- Qpower_plus by lra.
    replace (k + 1 + - (k - 52))%Z with 53%Z by lia. rewrite two_pow_inject by lia. reflexivity. }
  split.
  - rewrite <- (round_half_even_Z (2 ^ 52)) at 1. apply round_half_even_mono. nra.
  - rewrite <- (round_half_even_Z (2 ^ 53)) at 1. apply round_half_even_mono. nra.
Qed.

Lemma round53_pos_mono x y : 0 < x -> x <= y -> round53_pos x <= round53_pos y.
Proof.
  intros Hx Hxy. assert (Hy : 0 < y) by lra.
  destruct (round53_pos_mantissa x Hx) as (mx & -> & Emx & Bx).
  destruct (round53_pos_mantissa y Hy) as (my & -> & Emy & By).
  pose proof (binade_mono x y Hx Hxy) as Hk.
  set (ex := (binade x - 52)%Z) in *. set (ey := (binade y - 52)%Z) in *.
  pose proof (two_pow_pos ex) as Pex. pose proof (two_pow_pos ey) as Pey.
  destruct (Z.eq_dec ex ey) as [E|N].
  - rewrite <- E in *. 
    assert (mx <= my)%Z.
    { subst mx my. apply round_half_even_mono.
      pose proof (two_pow_pos (- ex)). nra. }
    assert (inject_Z mx <= inject_Z my) by (rewrite <- Zle_Qle; assumption).
    nra.
  - assert (Hlt : (ex + 1 <= ey)%Z) by lia.
    apply two_pow_le in Hlt. rewrite two_pow_succ in Hlt.
    assert (B1 : inject_Z mx <= inject_Z (2 ^ 53)) by (rewrite <- Zle_Qle; lia).
    assert (B2 : inject_Z (2 ^ 52) <= inject_Z my) by (rewrite <- Zle_Qle; lia).
    change (2 ^ 53)%Z with (2 * 2 ^ 52)%Z in B1. rewrite inject_Z_mult in B1.
    assert (P52 : 0 < inject_Z (2 ^ 52)) by (rewrite <- (Zlt_Qlt 0); lia).
    set (t := inject_Z (2 ^ 52)) in *. change (inject_Z 2) with 2 in B1.
    apply Qle_trans with (2 * t * 2 ^ ex); [nra|].
    apply Qle_trans with (t * 2 ^ ey); nra.
Qed.

Lemma round53_pos_pos x : 0 < x -> 0 < round53_pos x.
Proof.
  intros Hx. destruct (round53_pos_mantissa x Hx) as (m & -> & _ & B).
  pose proof (two_pow_pos (binade x - 52)).
  assert (0 < inject_Z m) by (rewrite <- (Zlt_Qlt 0); lia). nra.
Qed.

Lemma round53_nonneg x : 0 <= x -> 0 <= round53 x.
Proof.
  intros Hx. unfold round53. destruct (Qcompare_spec x 0) as [E|L|G]; try lra.
  apply Qlt_le_weak, round53_pos_pos, G.
Qed.

Lemma round53_mono x y : 0 <= x -> x <= y -> round53 x <= round53 y.
Proof.
  intros Hx Hxy. unfold round53 at 1.
  destruct (Qcompare_spec x 0) as [E|L|G]; try lra.
  - apply round53_nonneg. lra.
  - unfold round53. destruct (Qcompare_spec y 0) as [E'|L'|G']; try lra.
    apply round53_pos_mono; assumption.
Qed.

Lemma round53_compat x y : 0 <= x -> x == y -> round53 x == round53 y.
Proof.
  intros Hx E. apply Qle_antisym; apply round53_mono; lra.
Qed.

Lemma round53_1 : round53 1 == 1.
Proof. vm_compute. reflexivity. Qed.

Lemma round53_100 : round53 100 == 100.
Proof. vm_compute. reflexivity. Qed.

Lemma int_of_float_mono x y : 0 <= x -> x <= y -> (int_of_float x <= int_of_float y)%Z.
Proof.
  intros Hx Hxy. unfold int_of_float.
  assert (H1 : Qle_bool 0 x = true) by (apply Qle_bool_iff; assumption).
  assert (H2 : Qle_bool 0 y = true) by (apply Qle_bool_iff; lra).
  rewrite H1, H2. apply Qfloor_resp_le. assumption.
Qed.

Lemma ratio_nonneg (a b : Z) : (0 <= a)%Z -> (0 < b)%Z -> 0 <= inject_Z a / inject_Z b.
Proof.
  intros Ha Hb. apply Qle_shift_div_l.
  - rewrite <- (Zlt_Qlt 0). assumption.
  - rewrite Qmult_0_l. rewrite <- (Zle_Qle 0). assumption.
Qed.

Lemma ratio_mono (a1 a2 b : Z) :
  (a1 <= a2)%Z -> (0 < b)%Z -> inject_Z a1 / inject_Z b <= inject_Z a2 / inject_Z b.
Proof.
  intros Ha Hb. assert (0 < inject_Z b) by (rewrite <- (Zlt_Qlt 0); assumption).
  apply Qdiv_le_cross; try assumption.
  assert (inject_Z a1 <= inject_Z a2) by (rewrite <- Zle_Qle; assumption). nra.
Qed.

Lemma percent_defined (a b : Z) : (b <> 0)%Z -> exists p, percent a b = Some p.
Proof.
  intros Hb. unfold percent, truediv. destruct (Z.eqb_spec b 0); [contradiction|]. eauto.
Qed.

Lemma percent_mono (a1 a2 b p1 p2 : Z) :
  (0 <= a1 <= a2)%Z -> (0 < b)%Z ->
  percent a1 b = Some p1 -> percent a2 b = Some p2 -> (p1 <= p2)%Z.
Proof.
  intros Ha Hb. unfold percent, truediv.
  destruct (Z.eqb_spec b 0); [lia|]. intros [= <-] [= <-].
  unfold fmul. apply int_of_float_mono.
  - apply round53_nonneg. pose proof (round53_nonneg _ (ratio_nonneg a1 b ltac:(lia) Hb)).
    change (inject_Z 100) with 100. nra.
  - assert (H0 := ratio_nonneg a1 b ltac:(lia) Hb).
    assert (H1 := ratio_mono a1 a2 b ltac:(lia) Hb).
    pose proof (round53_nonneg _ H0). pose proof (round53_mono _ _ H0 H1).
    change (inject_Z 100) with 100.
    apply round53_mono; nra.
Qed.

Lemma percent_full (b : Z) : (0 < b)%Z -> percent b b = Some 100%Z.
Proof.
  intros Hb. unfold percent, truediv. destruct (Z.eqb_spec b 0); [lia|]. f_equal.
  assert (Pb : 0 < inject_Z b) by (rewrite <- (Zlt_Qlt 0); assumption).
  assert (E1 : inject_Z b / inject_Z b == 1) by (field; lra).
  assert (E2 : round53 (inject_Z b / inject_Z b) == 1).
  { rewrite <- round53_1. apply round53_compat; lra. }
  assert (E3 : fmul (round53 (inject_Z b / inject_Z b)) 100 == 100).
  { unfold fmul. change (inject_Z 100) with 100.
    transitivity (round53 100); [|apply round53_100].
    apply round53_compat; rewrite E2; lra. }
  unfold int_of_float.
  assert (H : Qle_bool 0 (fmul (round53 (inject_Z b / inject_Z b)) 100) = true).
  { apply Qle_bool_iff. rewrite E3. lra. }
  rewrite H, E3. reflexivity.
Qed.

Lemma percent_range (a b p : Z) :
  (0 <= a <= b)%Z -> (0 < b)%Z -> percent a b = Some p -> (0 <= p <= 100)%Z.
Proof.
  intros Ha Hb Hp. split.
  - destruct (percent_defined 0 b ltac:(lia)) as [p0 Hp0].
    assert (p0 = 0%Z) as ->.
    { revert Hp0. unfold percent, truediv. destruct (Z.eqb_spec b 0); [lia|]. intros [= <-].
      assert (E : inject_Z 0 / inject_Z b == 0) by (unfold Qdiv; change (inject_Z 0) with 0; ring).
      assert (E2 : round53 (inject_Z 0 / inject_Z b) == 0).
      { transitivity (round53 0); [|reflexivity]. apply round53_compat; lra. }
      assert (E3 : fmul (round53 (inject_Z 0 / inject_Z b)) 100 == 0).
      { unfold fmul. transitivity (round53 0); [|reflexivity].
        apply round53_compat; rewrite E2; change (inject_Z 100) with 100; lra. }
      unfold int_of_float. 
      assert (H : Qle_bool 0 (fmul (round53 (inject_Z 0 / inject_Z b)) 100) = true).
      { apply Qle_bool_iff. rewrite E3. lra. }
      rewrite H, E3. reflexivity. }
    apply (percent_mono 0 a b); auto; lia.
  - apply (percent_mono a b b p 100); auto; try lia. apply percent_full; assumption.
Qed.

End PyNumFacts.

(** ** Strings and paths *)

Module StrFacts.

#[local] Arguments Ascii.eqb : simpl never.
#[local] Arguments Path.is_sep : simpl never.

Fixpoint sep_free (s : string) : bool :=
  match s with
  | "" => true
  | String c r => negb (Path.is_sep c) && sep_free r
  end.

Lemma str_app_cons c (a b : string) : String c a +:+ b = String c (a +:+ b).
Proof. reflexivity. Qed.

Lemma str_app_nil_l (a : string) : "" +:+ a = a.
Proof. reflexivity. Qed.

Lemma str_app_nil_r (a : string) : a +:+ "" = a.
Proof. induction a as [|c a IH]; [reflexivity|]. rewrite str_app_cons, IH. reflexivity. Qed.

Lemma str_app_assoc (a b c : string) : (a +:+ b) +:+ c = a +:+ (b +:+ c).
Proof. induction a as [|x a IH]; [reflexivity|]. rewrite !str_app_cons, IH. reflexivity. Qed.

Lemma str_length_app (a b : string) :
  String.length (a +:+ b) = (String.length a + String.length b)%nat.
Proof.
  induction a as [|x a IH]; [reflexivity|]. rewrite str_app_cons. simpl. rewrite IH. reflexivity.
Qed.

Lemma to_list_app (a b : string) : Str.to_list (a +:+ b) = Str.to_list a ++ Str.to_list b.
Proof.
  induction a as [|x a IH]; [reflexivity|].
  rewrite str_app_cons. unfold Str.to_list in *. simpl. rewrite IH. reflexivity.
Qed.

Lemma of_list_app (l k : list ascii) : Str.of_list (l ++ k) = Str.of_list l +:+ Str.of_list k.
Proof.
  induction l as [|x l IH]; [reflexivity|].
  unfold Str.of_list in *. simpl. rewrite IH. reflexivity.
Qed.

Lemma of_to_list (s : string) : Str.of_list (Str.to_list s) = s.
Proof. apply String.string_of_list_ascii_of_string. Qed.

Lemma to_list_inj (a b : string) : Str.to_list a = Str.to_list b -> a = b.
Proof. intros H. rewrite <- (of_to_list a), <- (of_to_list b), H. reflexivity. Qed.

Lemma str_app_inv_tail (a b c : string) : a +:+ c = b +:+ c -> a = b.
Proof.
  intros H. apply to_list_inj. apply (f_equal Str.to_list) in H.
  rewrite !to_list_app in H. exact (List.app_inv_tail _ _ _ H).
Qed.

Lemma sep_free_app (a b : string) : sep_free (a +:+ b) = sep_free a && sep_free b.
Proof.
  induction a as [|x a IH]; [reflexivity|].
  rewrite str_app_cons. simpl. rewrite IH. apply andb_assoc.
Qed.

Lemma startswith_app_long (t q r : string) :
  (String.length t <= String.length q)%nat -> Str.startswith (q +:+ r) t = Str.startswith q t.
Proof.
  revert q. induction t as [|c t IH]; intros q Hl.
  - destruct q; destruct r; reflexivity.
  - destruct q as [|d q]; [simpl in Hl; lia|].
    rewrite str_app_cons. simpl. rewrite IH; [reflexivity|]. simpl in Hl. lia.
Qed.

Lemma startswith_sep_free (x : string) : sep_free x = true -> Str.startswith x "/" = false.
Proof.
  destruct x as [|c x]; [reflexivity|]. simpl. unfold Path.is_sep.
  intros H. apply andb_true_iff in H as [H _]. apply negb_true_iff in H.
  rewrite Ascii.eqb_sym, H. reflexivity.
Qed.

End StrFacts.

Module PathFacts.
Import StrFacts.

#[local] Arguments Ascii.eqb : simpl never.
#[local] Arguments Path.is_sep : simpl never.

Lemma split_nonempty p : Path.split p <> [].
Proof.
  destruct p as [|c r]; simpl; [discriminate|].
  destruct (Path.is_sep c); [discriminate|]. destruct (Path.split r); discriminate.
Qed.

Lemma split_sep_free x : sep_free x = true -> Path.split x = [x].
Proof.
  induction x as [|c x IH]; [reflexivity|]. simpl.
  intros [Hc Hx]%andb_true_iff. apply negb_true_iff in Hc. rewrite Hc, (IH Hx). reflexivity.
Qed.

Lemma split_app_sep s x :
  sep_free x = true -> Path.split (s +:+ "/" +:+ x) = Path.split s ++ [x].
Proof.
  intros Hx. induction s as [|c s IH].
  - rewrite str_app_nil_l. change ("/" +:+ x) with (String "/" x). simpl.
    change (Path.is_sep "/") with true. simpl. rewrite (split_sep_free x Hx). reflexivity.
  - rewrite str_app_cons. simpl. rewrite IH. destruct (Path.is_sep c); [reflexivity|].
    destruct (Path.split s) as [|h t] eqn:E; [exfalso; exact (split_nonempty _ E)|reflexivity].
Qed.

Lemma split_all_sep_free p : Forall (fun c => sep_free c = true) (Path.split p).
Proof.
  induction p as [|c p IH]; simpl.
  - repeat constructor.
  - destruct (Path.is_sep c) eqn:Hc; [constructor; [reflexivity|assumption]|].
    destruct (Path.split p) as [|h t]; [repeat constructor; simpl; rewrite Hc; reflexivity|].
    inversion IH; subst. constructor; [|assumption]. simpl. rewrite Hc. assumption.
Qed.

Lemma basename_sep_free p : sep_free (Path.basename p) = true.
Proof.
  unfold Path.basename. pose proof (split_all_sep_free p) as H.
  pose proof (split_nonempty p) as Hn.
  induction H as [|c l Hc Hl IH]; [contradiction|].
  destruct l as [|d l]; [exact Hc|]. apply IH. discriminate.
Qed.

Lemma endswith_char_inv d c : Str.endswith_char d c = true -> exists d', d = d' +:+ String c "".
Proof.
  induction d as [|a d IH]; [discriminate|]. simpl.
  destruct d as [|b d].
  - intros H. apply Ascii.eqb_eq in H as ->. exists "". reflexivity.
  - intros H. destruct (IH H) as [d' ->]. exists (String a d'). reflexivity.
Qed.

(** The components of [join d x] for one more component [x]. *)
Lemma split_join d x :
  sep_free x = true ->
  exists cs pre, Path.join d x = pre +:+ x /\ Path.split (Path.join d x) = cs ++ [x] /\
    (forall y, sep_free y = true ->
               Path.join d y = pre +:+ y /\ Path.split (Path.join d y) = cs ++ [y]).
Proof.
  intros Hx. unfold Path.join, Path.sep.
  assert (Hs : forall y, sep_free y = true -> Str.startswith y "/" = false)
    by (intros; apply startswith_sep_free; assumption).
  destruct (String.eqb_spec d "") as [->|Hd].
  - exists [], "". cbn [orb]. rewrite (Hs x Hx), str_app_nil_l. split; [reflexivity|].
    split; [apply split_sep_free; assumption|].
    intros y Hy. rewrite (Hs y Hy), str_app_nil_l.
    split; [reflexivity|apply split_sep_free; assumption].
  - cbn [orb]. destruct (Str.endswith_char d "/") eqn:He.
    + destruct (endswith_char_inv _ _ He) as [d' ->].
      exists (Path.split d'), (d' +:+ "/").
      rewrite (Hs x Hx), !str_app_assoc. split; [reflexivity|].
      split; [apply split_app_sep; assumption|].
      intros y Hy. rewrite (Hs y Hy), !str_app_assoc.
      split; [reflexivity|apply split_app_sep; assumption].
    + exists (Path.split d), (d +:+ "/").
      rewrite (Hs x Hx), !str_app_assoc. split; [reflexivity|].
      split; [apply split_app_sep; assumption|].
      intros y Hy. rewrite (Hs y Hy), !str_app_assoc.
      split; [reflexivity|apply split_app_sep; assumption].
Qed.

Lemma sep_join_snoc l x :
  Path.sep_join (l ++ [x]) = match l with [] => x | _ => Path.sep_join l +:+ "/" +:+ x end.
Proof.
  induction l as [|c l IH]; [reflexivity|].
  destruct l as [|c' l]; [reflexivity|].
  change (Path.sep_join ((c :: c' :: l) ++ [x]))
    with (c +:+ Path.sep +:+ Path.sep_join ((c' :: l) ++ [x])).
  rewrite IH.
  change (Path.sep_join (c :: c' :: l)) with (c +:+ Path.sep +:+ Path.sep_join (c' :: l)).
  unfold Path.sep. rewrite !str_app_assoc. reflexivity.
Qed.

(** A plain component: longer than [..], without separator. *)
Definition plain (x : string) : Prop := sep_free x = true /\ (3 <= String.length x)%nat.

Lemma norm_step_plain i l x : plain x -> Path.norm_step i l x = l ++ [x].
Proof.
  intros [_ Hl]. unfold Path.norm_step.
  destruct (String.eqb_spec x "") as [->|_]; [simpl in Hl; lia|].
  destruct (String.eqb_spec x ".") as [->|_]; [simpl in Hl; lia|].
  destruct (String.eqb_spec x "..") as [->|_]; [simpl in Hl; lia|].
  reflexivity.
Qed.

Lemma normpath_join_plain d x :
  plain x ->
  exists h : nat -> string,
    forall y, plain y ->
      Path.normpath (Path.join d y) = h (Path.initial_slashes (Path.join d y)) +:+ y.
Proof.
  intros [Hx Hlx]. destruct (split_join d x Hx) as (cs & pre & _ & _ & Hall).
  exists (fun i => Str.of_list (replicate i "/"%char) +:+
                   match foldl (Path.norm_step i) [] cs with
                   | [] => ""
                   | ncs => Path.sep_join ncs +:+ "/"
                   end).
  intros y [Hy Hly]. destruct (Hall y Hy) as [Ej Es].
  unfold Path.normpath. rewrite Es. clear Es.
  set (i := Path.initial_slashes (Path.join d y)).
  assert (Hne : forall a b : string, (3 <= String.length b)%nat -> String.eqb (a +:+ b) "" = false).
  { intros a b Hb. apply String.eqb_neq. intros E. apply (f_equal String.length) in E.
    rewrite str_length_app in E. simpl in E. lia. }
  rewrite Ej, (Hne pre y Hly).
  rewrite foldl_app. cbn [foldl]. rewrite (norm_step_plain _ _ y (conj Hy Hly)).
  rewrite sep_join_snoc.
  destruct (foldl (Path.norm_step i) [] cs) as [|s l].
  - rewrite Hne by assumption. rewrite str_app_assoc. reflexivity.
  - rewrite <- !str_app_assoc. rewrite Hne by assumption. reflexivity.
Qed.

End PathFacts.

(** ** The loop that renames on conflict *)

Module ConflictFacts.
Import StrFacts PathFacts FileOperationWorker.

#[local] Arguments Ascii.eqb : simpl never.
#[local] Arguments Path.is_sep : simpl never.

Lemma pretty_N_go_sep_free x s : sep_free s = true -> sep_free (pretty_N_go x s) = true.
Proof.
  revert s. induction (N.lt_wf_0 x) as [x _ IH]; intros s Hs.
  assert (x = 0 ∨ 0 < x)%N as [->|Hx] by lia.
  - rewrite pretty_N_go_0. assumption.
  - rewrite pretty_N_go_step by assumption. apply IH.
    + apply N.div_lt; [assumption | reflexivity].
    + simpl. rewrite Hs. unfold pretty_N_char. repeat case_match; reflexivity.
Qed.

Lemma pretty_nat_sep_free (k : nat) : sep_free (pretty k) = true.
Proof.
  unfold pretty, pretty_nat, pretty, pretty_N.
  case_decide; [reflexivity|]. apply pretty_N_go_sep_free. reflexivity.
Qed.

Lemma splitext_app p name ext : Path.splitext p = (name, ext) -> name +:+ ext = p.
Proof.
  unfold Path.splitext.
  destruct (Path.last_dot _ _) as [d|]; [|intros [= <- <-]; apply str_app_nil_r].
  destruct (forallb _ _); [intros [= <- <-]; apply str_app_nil_r|].
  intros [= <- <-]. rewrite <- of_list_app, take_drop. apply of_to_list.
Qed.

(** The names tried by the loop all have the shape [A _copy_ N B]. *)
Lemma new_filename_shape filename :
  sep_free filename = true ->
  exists A B, sep_free A = true /\ sep_free B = true /\
    forall k, new_filename filename k = A +:+ "_copy_" +:+ pretty k +:+ B.
Proof.
  intros Hf. unfold new_filename.
  destruct (Path.splitext filename) as [name ext] eqn:E.
  pose proof (splitext_app _ _ _ E) as Happ.
  destruct (String.eqb_spec ext "") as [->|Hne]; cbn [negb].
  - exists filename, "". repeat split; [assumption|].
    intros k. rewrite str_app_nil_r. reflexivity.
  - rewrite <- Happ, sep_free_app in Hf. apply andb_true_iff in Hf as [Hn He].
    exists name, ext. repeat split; assumption.
Qed.

Lemma shape_plain A B (k : nat) :
  sep_free A = true -> sep_free B = true -> plain (A +:+ "_copy_" +:+ pretty k +:+ B).
Proof.
  intros HA HB. split.
  - rewrite !sep_free_app, HA, HB, pretty_nat_sep_free. reflexivity.
  - rewrite !str_length_app. simpl. lia.
Qed.

Lemma initial_slashes_prefix q r r' :
  (3 <= String.length q)%nat ->
  Path.initial_slashes (q +:+ r) = Path.initial_slashes (q +:+ r').
Proof.
  intros Hq. unfold Path.initial_slashes.
  rewrite !(startswith_app_long _ q r), !(startswith_app_long _ q r') by (simpl; lia).
  reflexivity.
Qed.

(** Distinct counters give distinct files. *)
Lemma candidate_inj d filename (k1 k2 : nat) :
  sep_free filename = true ->
  Path.normpath (Path.join d (new_filename filename k1)) =
  Path.normpath (Path.join d (new_filename filename k2)) -> k1 = k2.
Proof.
  intros Hf. destruct (new_filename_shape filename Hf) as (A & B & HA & HB & Hshape).
  rewrite !Hshape.
  pose proof (shape_plain A B k1 HA HB) as P1. pose proof (shape_plain A B k2 HA HB) as P2.
  destruct (normpath_join_plain d _ P1) as [h Hh].
  rewrite (Hh _ P1), (Hh _ P2).
  destruct (split_join d _ (proj1 P1)) as (cs & pre & _ & _ & Hall).
  destruct (Hall _ (proj1 P1)) as [-> _]. destruct (Hall _ (proj1 P2)) as [-> _].
  assert (Ei : forall r, pre +:+ A +:+ "_copy_" +:+ r = (pre +:+ A +:+ "_copy_") +:+ r)
    by (intros; rewrite !str_app_assoc; reflexivity).
  rewrite !Ei.
  rewrite (initial_slashes_prefix _ (pretty k1 +:+ B) (pretty k2 +:+ B))
    by (rewrite !str_length_app; simpl; lia).
  intros H. do 3 apply String.app_inj in H. apply str_app_inv_tail in H.
  exact (pretty_nat_inj _ _ H).
Qed.

Section Loop.
Context (w : FS.fs) (d filename : string).

(** The [n]-th path tested by the loop. *)
Definition tested (n : nat) : string :=
  match n with
  | O => Path.join d filename
  | S _ => Path.join d (new_filename filename n)
  end.

Lemma conflict_loop_first fuel c n :
  (c <= n)%nat -> (n - c <= fuel)%nat ->
  (forall j, (c <= j < n)%nat -> FS.exists_ w (tested j) = true) ->
  FS.exists_ w (tested n) = false ->
  conflict_loop fuel w d filename (S c) (tested c) = tested n.
Proof.
  revert c. induction fuel as [|fuel IH]; intros c Hcn Hf Hbelow Hn.
  - assert (c = n) as -> by lia. simpl. rewrite Hn. reflexivity.
  - simpl. destruct (decide (c = n)) as [->|Hne]; [rewrite Hn; reflexivity|].
    rewrite (Hbelow c) by lia.
    change (Path.join d (new_filename filename (S c))) with (tested (S c)).
    apply IH; try lia; [|assumption]. intros j Hj. apply Hbelow. lia.
Qed.

(** Not every one of [size w + 1] distinct files is in [w]. *)
Lemma some_candidate_free :
  sep_free filename = true ->
  exists n, (n <= S (size w))%nat /\ FS.exists_ w (tested n) = false /\
    forall j, (j < n)%nat -> FS.exists_ w (tested j) = true.
Proof.
  intros Hf.
  assert (Hex : exists n, (n <= S (size w))%nat /\ FS.exists_ w (tested n) = false).
  { destruct (decide (Forall (fun k => FS.exists_ w (tested k) = true) (seq 1 (S (size w)))))
      as [Hall|Hnot].
    - exfalso.
      set (keys := (fun k => Path.normpath (tested k)) <$> seq 1 (S (size w))).
      assert (Hnd : NoDup keys).
      { apply NoDup_fmap_2_strong; [|apply NoDup_seq].
        intros k1 k2 H1 H2 E. apply elem_of_seq in H1, H2.
        destruct k1, k2; try lia. simpl in E. eapply candidate_inj; eassumption. }
      assert (Hsub : keys ⊆ (map_to_list w).*1).
      { intros k [n [-> Hn]]%list_elem_of_fmap.
        rewrite Forall_forall in Hall. specialize (Hall n Hn).
        unfold FS.exists_, FS.lookup in Hall.
        destruct (w !! Path.normpath (tested n)) as [v|] eqn:E; [|discriminate].
        apply list_elem_of_fmap. exists (Path.normpath (tested n), v). split; [reflexivity|].
        apply elem_of_map_to_list. assumption. }
      pose proof (submseteq_length _ _ (NoDup_submseteq _ _ Hnd Hsub)) as Hlen.
      unfold keys in Hlen. rewrite !length_fmap, length_seq, length_map_to_list in Hlen. lia.
    - apply not_Forall_Exists in Hnot; [|intros; apply _].
      apply Exists_exists in Hnot as (n & Hn & Hfree). apply elem_of_seq in Hn.
      exists n. split; [lia|]. apply not_true_is_false. assumption. }
  destruct Hex as (n0 & Hn0 & Hfree0).
  revert Hn0 Hfree0. induction (lt_wf n0) as [n0 _ IH]; intros Hn0 Hfree0.
  destruct (decide (Forall (fun j => FS.exists_ w (tested j) = true) (seq 0 n0))) as [Hall|Hnot].
  - exists n0. repeat split; try assumption. intros j Hj.
    rewrite Forall_forall in Hall. apply Hall, elem_of_seq. lia.
  - apply not_Forall_Exists in Hnot; [|intros; apply _].
    apply Exists_exists in Hnot as (n & Hn & Hfree). apply elem_of_seq in Hn.
    apply (IH n); [lia | lia |]. apply not_true_is_false. assumption.
Qed.

(** The loop ends within the iterations it is given, on a free path. *)
Lemma resolve_conflict_fresh :
  sep_free filename = true ->
  exists n, (n <= S (size w))%nat /\
    resolve_conflict w d filename = tested n /\
    FS.exists_ w (tested n) = false /\
    forall j, (j < n)%nat -> FS.exists_ w (tested j) = true.
Proof.
  intros Hf. destruct (some_candidate_free Hf) as (n & Hn & Hfree & Hbelow).
  exists n. repeat split; try assumption.
  unfold resolve_conflict. apply (conflict_loop_first (S (size w)) 0 n); try lia; [|assumption].
  intros j Hj. apply Hbelow. lia.
Qed.

End Loop.
End ConflictFacts.

(** ** Rising sequences of percentages *)

Module Rising.
Import PyNumFacts.

(** [rising f lo hi ps]: [ps] is non-decreasing and each of its members is
    [f k] for some [k] with [lo < k <= hi]. *)
Definition rising (f : Z -> option Z) (lo hi : Z) (ps : list Z) : Prop :=
  StronglySorted Z.le ps /\
  Forall (fun p => exists k, lo < k <= hi /\ f k = Some p) ps.

Definition monotone_on (f : Z -> option Z) (lo hi : Z) : Prop :=
  forall k1 k2 p1 p2, lo < k1 -> k1 <= k2 -> k2 <= hi ->
    f k1 = Some p1 -> f k2 = Some p2 -> p1 <= p2.

Lemma rising_nil f lo hi : rising f lo hi [].
Proof. split; constructor. Qed.

Lemma rising_weaken f lo hi lo' hi' ps :
  lo' <= lo -> hi <= hi' -> rising f lo hi ps -> rising f lo' hi' ps.
Proof.
  intros Hlo Hhi [Hs Hf]. split; [assumption|].
  eapply Forall_impl; [exact Hf|]. intros p (k & Hk & Hp). exists k. split; [lia|assumption].
Qed.

Lemma rising_app f lo mid hi ps1 ps2 :
  monotone_on f lo hi -> lo <= mid -> mid <= hi ->
  rising f lo mid ps1 -> rising f mid hi ps2 -> rising f lo hi (ps1 ++ ps2).
Proof.
  intros Hm Hl Hh [Hs1 Hf1] [Hs2 Hf2]. split.
  - apply StronglySorted_app. repeat split; try assumption.
    intros p1 p2 H1 H2. rewrite Forall_forall in Hf1, Hf2.
    destruct (Hf1 p1 H1) as (k1 & Hk1 & Hp1). destruct (Hf2 p2 H2) as (k2 & Hk2 & Hp2).
    apply (Hm k1 k2); try assumption; lia.
  - apply Forall_app. split.
    + eapply Forall_impl; [exact Hf1|]. intros p (k & Hk & Hp). exists k. split; [lia|assumption].
    + eapply Forall_impl; [exact Hf2|]. intros p (k & Hk & Hp). exists k. split; [lia|assumption].
Qed.

Lemma rising_cons f lo k hi p ps :
  monotone_on f lo hi -> lo < k -> k <= hi -> f k = Some p ->
  rising f k hi ps -> rising f lo hi (p :: ps).
Proof.
  intros Hm Hl Hh Hp Hr.
  apply (rising_app f lo k hi [p] ps); try assumption; try lia.
  split; [repeat constructor|]. repeat constructor. exists k. split; [lia|assumption].
Qed.

Lemma percent_monotone_on pot lo : 0 <= lo -> 0 < pot ->
  monotone_on (fun k => PyNum.percent k pot) lo pot.
Proof.
  intros Hlo Hpot k1 k2 p1 p2 H1 H2 H3 Hp1 Hp2.
  apply (percent_mono k1 k2 pot); try assumption; lia.
Qed.

Lemma monotone_on_weaken f lo hi lo' hi' :
  lo <= lo' -> hi' <= hi -> monotone_on f lo hi -> monotone_on f lo' hi'.
Proof. intros Hl Hh Hm k1 k2 p1 p2 H1 H2 H3. apply Hm; lia. Qed.

End Rising.

(** ** The file operation worker *)

Module FileOperationFacts.
Import PyNumFacts StrFacts PathFacts ConflictFacts FileOperationWorker.

Definition progress_values (evs : list event) : list Z :=
  omap (fun e => match e with Progress p => Some p | _ => None end) evs.

Lemma progress_values_app evs evs' :
  progress_values (evs ++ evs') = progress_values evs ++ progress_values evs'.
Proof. apply omap_app. Qed.

Lemma emit_progress_defined i total v :
  total <> 0 ->
  exists p, PyNum.percent (i + 1) total = Some p /\
            emit_progress i total v = ([Progress p], v, Next).
Proof.
  intros Ht. destruct (percent_defined (i + 1) total Ht) as [p Hp].
  exists p. split; [assumption|]. unfold emit_progress. rewrite Hp. reflexivity.
Qed.

(** Every path through the loop body emits one progress event and leaves
    the loop running. *)
Lemma item_one_progress self total i source_path v :
  total <> 0 ->
  exists p v', PyNum.percent (i + 1) total = Some p /\
    item self total i source_path v = ([Progress p], v', Next) /\ reads v' = reads v.
Proof.
  intros Ht. unfold item.
  repeat match goal with
  | |- context [if ?b then _ else _] => destruct b
  | |- context [match perform ?a ?b ?c ?d with _ => _ end] => destruct (perform a b c d)
  end;
  match goal with
  | |- context [emit_progress i total ?v0] =>
      destruct (emit_progress_defined i total v0 Ht) as (p & Hp & ->);
      exists p, v0; repeat split; assumption || reflexivity
  end.
Qed.

(** The loop emits the percentages of the items it reaches, in order. *)
Lemma items_progress self cancel_at total i rest v :
  total <> 0 ->
  exists (n : nat) ps v',
    items self cancel_at total i rest v = (Progress <$> ps, v', Next) /\
    (n <= length rest)%nat /\
    (cancel_at = None -> n = length rest) /\
    Some <$> ps = (fun j => PyNum.percent (i + Z.of_nat j + 1) total) <$> seq 0 n.
Proof.
  intros Ht. revert i v. induction rest as [|source_path rest IH]; intros i v.
  - exists 0%nat, [], v. repeat split; auto.
  - cbn [items]. destruct (Cancel.is_cancelled cancel_at (reads v)) eqn:Hc.
    + eexists 0%nat, [], _. repeat split; [simpl; lia|].
      intros ->. discriminate.
    + match goal with |- context [item self total i source_path ?v0] =>
        destruct (item_one_progress self total i source_path v0 Ht) as (p & v1 & Hp & -> & _) end.
      destruct (IH (i + 1) v1) as (n & ps & v2 & -> & Hn & Hnone & Hps).
      exists (S n), (p :: ps), v2. repeat split.
      * simpl; lia.
      * intros Hca. rewrite (Hnone Hca). reflexivity.
      * cbn [seq fmap list_fmap]. rewrite <- seq_shift, <- list_fmap_compose.
        f_equal; [rewrite <- Hp; f_equal; lia|].
        change (Some <$> ps) with (list_fmap _ _ Some ps) in Hps. 
        etransitivity; [exact Hps|]. apply list_fmap_ext. intros _ j _. cbn. f_equal. lia.
Qed.

(** *** The examples *)

(** A small tree used by the examples: [/src] holds [a.txt] and a
    sub-directory, [/d] holds another [a.txt]. *)
Definition example_fs : FS.fs :=
  list_to_map [("/", FS.Dir); ("/src", FS.Dir); ("/src/a.txt", FS.File "hello");
               ("/src/sub", FS.Dir); ("/src/sub/x", FS.File "x");
               ("/d", FS.Dir); ("/d/a.txt", FS.File "old")].

(** *** The last event *)

Lemma file_operation_finished_last self w c :
  FS.isdir w (destination_dir self) = true ->
  last (run self w c).1 = Some Finished.
Proof.
  intros Hd. unfold run. rewrite Hd. cbn [negb].
  destruct (Z.eq_dec (Z.of_nat (length (source_paths self))) 0) as [E|Hne].
  - destruct (source_paths self); [|simpl in E; lia]. reflexivity.
  - destruct (items_progress self c _ 0 (source_paths self)
                {| files := w; reads := 0; errors := []; success_count := 0 |} Hne)
      as (n & ps & v' & -> & _).
    cbn [fst]. rewrite last_app. reflexivity.
Qed.

(** *** C1 *)

(** C1.  Every run should end with [finished] as its last event; the
    runs of the search and of the duplicate scan do, and so does a file
    operation whose destination is a directory.  A file operation whose
    destination is not a directory emits the one [error] event and returns:
    no [finished] event is emitted. *)
Theorem C1_invalid_destination_emits_no_finished self w c :
  FS.isdir w (destination_dir self) = false ->
  (run self w c).1 =
    [Error (Str.title (operation self) +:+ " Error") "Invalid destination directory."] /\
  (Finished ∉ (run self w c).1) /\
  last (run self w c).1 <> Some Finished.
Proof.
  intros Hd. unfold run. rewrite Hd. cbn [negb fst].
  split; [reflexivity|]. split; [|discriminate].
  intros H. apply list_elem_of_singleton in H. discriminate.
Qed.

Definition copy_to_missing : worker :=
  {| source_paths := ["/src/a.txt"]; destination_dir := "/missing";
     operation := "copy" |}.

Lemma C1_invalid_destination_witness :
  (run copy_to_missing example_fs None).1 =
    [Error "Copy Error" "Invalid destination directory."] /\
  (Finished ∉ (run copy_to_missing example_fs None).1) /\
  last (run copy_to_missing example_fs None).1 <> Some Finished.
Proof.
  apply (C1_invalid_destination_emits_no_finished copy_to_missing example_fs None).
  vm_compute. reflexivity.
Defined.

(** *** C6 *)

Lemma run_progress_values self w c :
  FS.isdir w (destination_dir self) = true ->
  exists n : nat,
    (n <= length (source_paths self))%nat /\
    (c = None -> n = length (source_paths self)) /\
    Some <$> progress_values (run self w c).1
      = (fun i => PyNum.percent (Z.of_nat i + 1) (Z.of_nat (length (source_paths self))))
          <$> seq 0 n.
Proof.
  intros Hd. unfold run. rewrite Hd. cbn [negb].
  destruct (Z.eq_dec (Z.of_nat (length (source_paths self))) 0) as [E|Hne].
  - destruct (source_paths self); [|simpl in E; lia].
    exists 0%nat. repeat split; reflexivity.
  - destruct (items_progress self c _ 0 (source_paths self)
                {| files := w; reads := 0; errors := []; success_count := 0 |} Hne)
      as (n & ps & v' & -> & Hn & Hnone & Hps).
    exists n. split; [exact Hn|]. split; [exact Hnone|]. cbn [fst].
    rewrite progress_values_app.
    assert (E : progress_values (Progress <$> ps) = ps).
    { clear. induction ps as [|p ps IH]; [reflexivity|].
      unfold progress_values in *. cbn. rewrite IH. reflexivity. }
    rewrite E. cbn. rewrite app_nil_r. exact Hps.
Qed.

(** C6.  A file operation that is not cancelled and whose destination is a
    directory emits one progress event per source item, the [i]-th (from 0)
    with [int(((i + 1) / total_files) * 100)]; for ten items these are
    10, 20, ..., 100. *)
Theorem C6_one_progress_event_per_item self w :
  FS.isdir w (destination_dir self) = true ->
  let total_files := length (source_paths self) in
  Some <$> progress_values (run self w None).1
    = (fun i => PyNum.percent (Z.of_nat i + 1) (Z.of_nat total_files)) <$> seq 0 total_files /\
  (total_files = 10%nat ->
   progress_values (run self w None).1
     = [10; 20; 30; 40; 50; 60; 70; 80; 90; 100]).
Proof.
  intros Hd total_files.
  destruct (run_progress_values self w None Hd) as (n & _ & Hn & Hps).
  rewrite (Hn eq_refl) in Hps. fold total_files in Hps.
  split; [exact Hps|].
  intros E10. rewrite E10 in Hps.
  apply (inj (fmap Some)). rewrite Hps. vm_compute. reflexivity.
Qed.

Definition ten_copies : worker :=
  {| source_paths := replicate 10 "/src/a.txt"; destination_dir := "/d";
     operation := "copy" |}.

Lemma C6_one_progress_event_witness :
  progress_values (run ten_copies example_fs None).1
    = [10; 20; 30; 40; 50; 60; 70; 80; 90; 100].
Proof.
  apply (C6_one_progress_event_per_item ten_copies example_fs); reflexivity.
Defined.

(** *** C7 *)

Lemma new_filename_eq filename (k : nat) :
  new_filename filename k
  = (Path.splitext filename).1 +:+ "_copy_" +:+ pretty k +:+ (Path.splitext filename).2.
Proof.
  unfold new_filename. destruct (Path.splitext filename) as [name ext] eqn:E.
  cbn [fst snd]. destruct (String.eqb_spec ext "") as [->|Hne]; cbn [negb]; [|reflexivity].
  pose proof (splitext_app _ _ _ E) as Happ.
  rewrite str_app_nil_r in Happ. rewrite Happ, str_app_nil_r. reflexivity.
Qed.

Definition copy_twice : worker :=
  {| source_paths := ["/src/a.txt"; "/src/a.txt"]; destination_dir := "/d";
     operation := "copy" |}.

(** C7.  When the destination directory holds the base name of the source,
    the item is written to [name_copy_N ext], where [name] and [ext] are the
    base name split at its extension and [N], counted from 1, is the first
    number whose name is free.  Copying [/src/a.txt] twice in one run into
    [/d], which holds an [a.txt], leaves that file alone and creates
    [/d/a_copy_1.txt] and [/d/a_copy_2.txt]. *)
Theorem C7_conflict_names_count_from_one w destination_dir source_path (n : nat) :
  let filename := Path.basename source_path in
  let candidate := fun k : nat =>
    Path.join destination_dir
      ((Path.splitext filename).1 +:+ "_copy_" +:+ pretty k +:+ (Path.splitext filename).2) in
  FS.exists_ w (Path.join destination_dir filename) = true ->
  (1 <= n)%nat ->
  (forall k : nat, (1 <= k < n)%nat -> FS.exists_ w (candidate k) = true) ->
  FS.exists_ w (candidate n) = false ->
  resolve_conflict w destination_dir filename = candidate n /\
  (run copy_twice example_fs None).1
    = [Progress 50; Progress 100; Result 2 [] "copy"; Finished] /\
  (run copy_twice example_fs None).2
    = <["/d/a_copy_2.txt" := FS.File "hello"]>
        (<["/d/a_copy_1.txt" := FS.File "hello"]> example_fs).
Proof.
  intros filename candidate H0 Hn Hbelow Hfree.
  split; [|split; vm_compute; reflexivity].
  assert (Ht : forall k : nat, (1 <= k)%nat ->
                 tested destination_dir filename k = candidate k).
  { intros [|k] Hk; [lia|]. unfold tested, candidate.
    rewrite new_filename_eq. reflexivity. }
  assert (Hall : forall j, (j < n)%nat ->
                   FS.exists_ w (tested destination_dir filename j) = true).
  { intros [|j] Hj; [exact H0|]. rewrite Ht by lia. apply Hbelow. lia. }
  assert (Hfree' : FS.exists_ w (tested destination_dir filename n) = false)
    by (rewrite Ht by lia; exact Hfree).
  destruct (resolve_conflict_fresh w destination_dir filename
              (basename_sep_free source_path))
    as (m & Hm & -> & Hmfree & Hmbelow).
  assert (m = n) as ->.
  { destruct (Nat.lt_trichotomy m n) as [Hlt|[E|Hgt]]; [|exact E|].
    - rewrite (Hall m Hlt) in Hmfree. discriminate.
    - rewrite (Hmbelow n Hgt) in Hfree'. discriminate. }
  apply Ht. exact Hn.
Qed.

Lemma C7_conflict_names_witness :
  resolve_conflict example_fs "/d" "a.txt" = "/d/a_copy_1.txt" /\
  resolve_conflict (<["/d/a_copy_1.txt" := FS.File "hello"]> example_fs) "/d" "a.txt"
    = "/d/a_copy_2.txt".
Proof.
  split.
  - apply (C7_conflict_names_count_from_one example_fs "/d" "/src/a.txt" 1);
      [vm_compute; reflexivity | lia | intros k Hk; lia | vm_compute; reflexivity].
  - apply (C7_conflict_names_count_from_one
             (<["/d/a_copy_1.txt" := FS.File "hello"]> example_fs) "/d" "/src/a.txt" 2);
      [vm_compute; reflexivity | lia | | vm_compute; reflexivity].
    intros k Hk. assert (k = 1%nat) as -> by lia. vm_compute. reflexivity.
Defined.

(** *** C8 *)

(** When the test of the guard holds for a source that exists, the item
    adds the error, changes no file and the loop goes on. *)
Lemma guard_records_error self total_files i source_path v :
  total_files <> 0 ->
  FS.exists_ (files v) source_path = true ->
  to_itself_or_subdirectory source_path (destination_dir self) = true ->
  exists p,
    item self total_files i source_path v
      = ([Progress p],
         add_error (Path.basename source_path +:+ ": Cannot " +:+ operation self
                         +:+ " to itself or subdirectory") v,
         Next) /\
    files (add_error (Path.basename source_path +:+ ": Cannot " +:+ operation self
                              +:+ " to itself or subdirectory") v) = files v.
Proof.
  intros Ht He Hg. unfold item. rewrite He, Hg. cbn [negb].
  match goal with |- context [emit_progress i total_files ?v0] =>
    destruct (emit_progress_defined i total_files v0 Ht) as (p & _ & ->) end.
  exists p. split; reflexivity.
Qed.

Definition copy_root : worker :=
  {| source_paths := ["/"]; destination_dir := "/d"; operation := "copy" |}.

(** C8.  The guard tests [norm_dest.startswith(norm_source + os.sep)].
    For the source [/] the text [norm_source + os.sep] is [//], which no
    normalised destination starts with: copying [/] into its own
    sub-directory [/d] passes the guard, no error that mentions "to itself
    or subdirectory" is recorded, and the copy is made, under the new name
    [/d/_copy_1]. *)
Theorem C8_root_source_passes_the_guard :
  Path.normpath "/" = "/" /\ Path.normpath "/d" = "/d" /\
  to_itself_or_subdirectory "/" "/d" = false /\
  (exists success_count errors,
     (run copy_root example_fs None).1
       = [Progress 100; Result success_count errors "copy"; Finished] /\
     Forall (fun e => Str.contains e "to itself or subdirectory" = false) errors) /\
  FS.exists_ example_fs "/d/_copy_1" = false /\
  FS.exists_ (run copy_root example_fs None).2 "/d/_copy_1" = true.
Proof.
  repeat split; try (vm_compute; reflexivity).
  eexists _, _. split; [vm_compute; reflexivity|]. constructor.
Qed.

(** *** C10 *)

(** C10.  With no source path and a destination that is a directory, the
    loop body is not entered: the run emits [result(0, [], operation)] and
    [finished] and nothing else, no percentage is computed, and no file is
    changed. *)
Theorem C10_empty_batch self w c :
  source_paths self = [] ->
  FS.isdir w (destination_dir self) = true ->
  run self w c = ([Result 0 [] (operation self); Finished], w) /\
  (forall v, items self c 0 0 (source_paths self) v = ([], v, Next)).
Proof.
  intros Hs Hd. unfold run. rewrite Hd, Hs. split; reflexivity.
Qed.

Definition move_nothing : worker :=
  {| source_paths := []; destination_dir := "/d"; operation := "move" |}.

Lemma C10_empty_batch_witness :
  run move_nothing example_fs None = ([Result 0 [] "move"; Finished], example_fs).
Proof.
  apply (C10_empty_batch move_nothing example_fs None); reflexivity.
Defined.

End FileOperationFacts.

(** ** The stable sort *)

Module SortFacts.
Import PyList.

Section Sort.
Context {A : Type} (key : A -> Q).

Definition le_key (x y : A) : Prop := (key x <= key y)%Q.

(** The members of [l] whose key is [q]. *)
Definition with_key (q : Q) (l : list A) : list A :=
  filter (fun y => Qeq_bool (key y) q = true) l.

Lemma insert_sorted_perm x l : insert_sorted key x l ≡ₚ x :: l.
Proof.
  induction l as [|y l IH]; simpl; [reflexivity|].
  destruct (Qle_bool (key x) (key y)); [reflexivity|].
  rewrite IH. apply Permutation_swap.
Qed.

Lemma sort_perm l : sort key l ≡ₚ l.
Proof.
  induction l as [|x l IH]; simpl; [reflexivity|].
  rewrite insert_sorted_perm, IH. reflexivity.
Qed.

Lemma insert_sorted_sorted x l :
  StronglySorted le_key l -> StronglySorted le_key (insert_sorted key x l).
Proof.
  induction 1 as [|y l Hs IH Hy]; simpl; [repeat constructor|].
  destruct (Qle_bool (key x) (key y)) eqn:E.
  - apply Qle_bool_iff in E. constructor; [constructor; assumption|].
    constructor; [exact E|].
    eapply Forall_impl; [exact Hy|]. intros z Hz. unfold le_key in *. lra.
  - assert (Hyx : (key y <= key x)%Q).
    { destruct (Qlt_le_dec (key y) (key x)) as [H|H]; [lra|].
      apply Qle_bool_iff in H. congruence. }
    constructor; [assumption|].
    rewrite insert_sorted_perm. constructor; assumption.
Qed.

Lemma sort_sorted l : StronglySorted le_key (sort key l).
Proof.
  induction l as [|x l IH]; simpl; [constructor|]. apply insert_sorted_sorted, IH.
Qed.

Lemma insert_sorted_with_key q x l :
  with_key q (insert_sorted key x l) = with_key q (x :: l).
Proof.
  unfold with_key. induction l as [|y l IH]; simpl; [reflexivity|].
  destruct (Qle_bool (key x) (key y)) eqn:E; [reflexivity|].
  rewrite filter_cons, IH, !filter_cons.
  assert (Hlt : (key y < key x)%Q).
  { apply Qnot_le_lt. intros H. apply Qle_bool_iff in H. congruence. }
  destruct (decide (Qeq_bool (key y) q = true)) as [Hy|Hy];
    destruct (decide (Qeq_bool (key x) q = true)) as [Hx|Hx]; try reflexivity.
  apply Qeq_bool_iff in Hx, Hy. exfalso. lra.
Qed.

(** The sort is stable: members of equal key keep their order. *)
Lemma sort_stable q l : with_key q (sort key l) = with_key q l.
Proof.
  induction l as [|x l IH]; simpl; [reflexivity|].
  rewrite insert_sorted_with_key. unfold with_key in *. rewrite !filter_cons, IH. reflexivity.
Qed.

End Sort.
End SortFacts.

(** ** The duplicate finder *)

Module DuplicateFacts.
Import PyNumFacts Rising PyList SortFacts DuplicateFinderWorker.

Definition is_status (e : event) : Prop :=
  match e with Status _ => True | _ => False end.

Definition dup_progress_values (evs : list event) : list Z :=
  omap (fun e => match e with Progress p => Some p | _ => None end) evs.

Definition is_result (e : event) : Prop :=
  match e with Result _ _ => True | _ => False end.

(** *** The flag *)

Lemma is_cancelled_mono c (i j : nat) :
  (i <= j)%nat -> Cancel.is_cancelled c i = true -> Cancel.is_cancelled c j = true.
Proof.
  unfold Cancel.is_cancelled. destruct c as [k|]; [|discriminate].
  rewrite !Nat.leb_le. lia.
Qed.

(** *** Step 1 emits status texts only *)

Lemma scan_files_status self w root l v :
  Forall is_status (scan_files self w root l v).1.
Proof.
  revert v. induction l as [|filename l IH]; intros v; cbn [scan_files]; [constructor|].
  destruct (Cancel.is_cancelled _ _); [constructor|].
  destruct (negb _); [apply IH|]. destruct (path_islink _ _); [apply IH|].
  destruct (stat_size _ _) as [file_size|]; [|apply IH].
  destruct (file_size <? _); [apply IH|].
  match goal with |- context [scan_files self w root l ?v0] =>
    specialize (IH v0); destruct (scan_files self w root l v0) as [evs' v'] end.
  cbn [fst] in *. apply Forall_app. split; [|exact IH].
  destruct (_ =? 0); repeat constructor.
Qed.

Lemma scan_walk_status self w l v :
  Forall is_status (scan_walk self w l v).1.1.
Proof.
  revert v. induction l as [|[root files] l IH]; intros v; cbn [scan_walk]; [constructor|].
  destruct (Cancel.is_cancelled _ _); [constructor|].
  pose proof (scan_files_status self w root files (s_read_flag v)) as Hs.
  destruct (scan_files self w root files (s_read_flag v)) as [evs v1].
  specialize (IH v1). destruct (scan_walk self w l v1) as [[evs' v2] b].
  apply Forall_app. split; assumption.
Qed.

Lemma scan_roots_status self w l v :
  Forall is_status (scan_roots self w l v).1.
Proof.
  revert v. induction l as [|root_path l IH]; intros v; cbn [scan_roots]; [constructor|].
  destruct (Cancel.is_cancelled _ _); [constructor|].
  destruct (negb _); [apply IH|]. destruct (negb _); [apply IH|].
  destruct (listdir_error w root_path) as [e|].
  - specialize (IH (s_read_flag v)).
    destruct (scan_roots self w l (s_read_flag v)) as [evs' v'].
    constructor; [exact I|exact IH].
  - destruct (walk w root_path) as [triples failure].
    pose proof (scan_walk_status self w triples (s_read_flag v)) as Hs.
    destruct (scan_walk self w triples (s_read_flag v)) as [[evs v1] broke].
    specialize (IH v1). destruct (scan_roots self w l v1) as [evs' v'].
    cbn [fst] in *. rewrite !Forall_app. repeat split; try assumption.
    destruct failure; [destruct broke|]; repeat constructor.
Qed.

Lemma scan_stage_status self w : Forall is_status (scan_stage self w).1.
Proof. apply scan_roots_status. Qed.

(** *** Step 2 emits rising percentages *)

Section Hash.
Context (w : world) (pot : Z) (Hpot : 0 < pot).

Let pct := fun k => PyNum.percent k pot.

Lemma pct_monotone lo hi : 0 <= lo -> hi <= pot -> monotone_on pct lo hi.
Proof.
  intros Hlo Hhi. apply (monotone_on_weaken _ lo pot); try lia.
  apply percent_monotone_on; assumption.
Qed.

Lemma hash_files_rising l v :
  0 <= processed_files v -> processed_files v + Z.of_nat (length l) <= pot ->
  exists ps v',
    hash_files w pot l v = (Progress <$> ps, v', Next) /\
    processed_files v <= processed_files v' <= processed_files v + Z.of_nat (length l) /\
    rising pct (processed_files v) (processed_files v') ps.
Proof.
  revert v. induction l as [|filepath l IH]; intros v H0 Hle.
  - exists [], v. split; [reflexivity|]. split; [simpl; lia|apply rising_nil].
  - cbn [hash_files length] in Hle |- *.
    destruct (Cancel.is_cancelled _ _).
    { eexists [], _. split; [reflexivity|]. split; [simpl; lia|apply rising_nil]. }
    destruct (get_file_hash w filepath (S (h_reads v))) as [file_hash reads].
    set (g := match file_hash with Some h => _ | None => _ end).
    set (v1 := {| hash_groups := g; processed_files := processed_files v + 1; h_reads := reads |}).
    destruct (IH v1) as (ps & v' & E & Hb & Hr); [unfold v1; simpl; lia | unfold v1; simpl; lia |].
    unfold v1 in Hb, Hr, E |- *. simpl in Hb, Hr. cbn [processed_files].
    destruct (_ =? 0).
    + destruct (percent_defined (processed_files v + 1) pot ltac:(lia)) as [p Hp].
      rewrite Hp, E. exists (p :: ps), v'. split; [reflexivity|]. split; [lia|].
      apply (rising_cons pct _ (processed_files v + 1)); try assumption; try lia.
      apply pct_monotone; lia.
    + rewrite E. exists ps, v'. split; [reflexivity|]. split; [lia|].
      apply (rising_weaken pct (processed_files v + 1) (processed_files v')); try assumption; lia.
Qed.

Lemma count_potential_nonneg d : 0 <= count_potential d.
Proof.
  induction d as [|[k l] d IH]; simpl; [lia|]. destruct (1 <? _); lia.
Qed.

Lemma hash_sizes_rising d v :
  0 <= processed_files v -> processed_files v + count_potential d <= pot ->
  exists ps v',
    hash_sizes w pot d v = (Progress <$> ps, v', Next) /\
    processed_files v <= processed_files v' <= processed_files v + count_potential d /\
    rising pct (processed_files v) (processed_files v') ps.
Proof.
  revert v. induction d as [|[file_size file_paths] d IH]; intros v H0 Hle.
  - exists [], v. split; [reflexivity|]. split; [simpl; lia|apply rising_nil].
  - cbn [hash_sizes]. cbn [count_potential] in Hle |- *.
    pose proof (count_potential_nonneg d) as Hd.
    destruct (Cancel.is_cancelled _ _).
    { eexists [], _. split; [reflexivity|].
      split; [simpl; destruct (1 <? _); lia|apply rising_nil]. }
    set (v0 := {| hash_groups := hash_groups v; processed_files := processed_files v;
                  h_reads := S (h_reads v) |}).
    destruct (1 <? Z.of_nat (length file_paths)).
    + destruct (hash_files_rising file_paths v0) as (ps1 & v1 & E1 & Hb1 & Hr1);
        [simpl; lia | simpl; lia |].
      simpl in Hb1, Hr1. rewrite E1.
      destruct (IH v1) as (ps2 & v2 & E2 & Hb2 & Hr2); [lia | lia |].
      rewrite E2. exists (ps1 ++ ps2), v2. split; [rewrite fmap_app; reflexivity|].
      split; [lia|].
      apply (rising_app pct _ (processed_files v1)); try assumption; try lia.
      apply pct_monotone; lia.
    + destruct (IH v0) as (ps2 & v2 & E2 & Hb2 & Hr2);
        [unfold v0; simpl; lia | unfold v0; simpl; lia |].
      unfold v0 in Hb2, Hr2, E2 |- *. simpl in Hb2, Hr2. rewrite E2.
      exists ps2, v2. split; [reflexivity|]. split; [lia|assumption].
Qed.

End Hash.

Lemma hash_stage_rising self w :
  count_potential (size_groups (scan_stage self w).2) <> 0 ->
  exists ps hv,
    hash_stage self w = (Progress <$> ps, hv, Next) /\
    StronglySorted Z.le ps /\ Forall (fun p => 0 <= p <= 100) ps.
Proof.
  intros Hne. unfold hash_stage.
  set (sv := (scan_stage self w).2) in *.
  pose proof (count_potential_nonneg (size_groups sv)) as Hd.
  set (pot := count_potential (size_groups sv)) in *.
  destruct (hash_sizes_rising w pot ltac:(lia) (size_groups sv)
              {| hash_groups := []; processed_files := 0; h_reads := S (s_reads sv) |})
    as (ps & hv & E & Hb & [Hs Hf]); [simpl; lia | simpl; lia |].
  exists ps, hv. split; [exact E|]. split; [exact Hs|].
  simpl in Hb, Hf. eapply Forall_impl; [exact Hf|]. simpl. intros p (k & Hk & Hp).
  apply (percent_range k pot); [lia | lia | exact Hp].
Qed.

Lemma hash_sizes_nothing w pot d v :
  count_potential d = 0 ->
  exists v', hash_sizes w pot d v = ([], v', Next) /\ hash_groups v' = hash_groups v.
Proof.
  revert v. induction d as [|[file_size file_paths] d IH]; intros v H0.
  - exists v. split; reflexivity.
  - cbn [hash_sizes count_potential] in *.
    pose proof (count_potential_nonneg d) as Hd.
    destruct (Cancel.is_cancelled _ _); [eexists; split; reflexivity|].
    destruct (1 <? Z.of_nat (length file_paths)) eqn:E; [apply Z.ltb_lt in E; lia|].
    match goal with |- context [hash_sizes w pot d ?v0] =>
      destruct (IH v0 H0) as (v' & -> & Hg) end.
    exists v'. split; [reflexivity|exact Hg].
Qed.

Lemma hash_stage_nothing self w :
  count_potential (size_groups (scan_stage self w).2) = 0 ->
  exists hv, hash_stage self w = ([], hv, Next) /\ hash_groups hv = [].
Proof.
  intros H0. unfold hash_stage.
  match goal with |- context [hash_sizes w ?p ?d ?v0] =>
    destruct (hash_sizes_nothing w p d v0 H0) as (v' & -> & Hg) end.
  exists v'. split; [reflexivity|exact Hg].
Qed.

(** *** Step 3 *)

Definition mtime_key (w : world) (x : string) : Q := default 0%Q (getmtime w x).

Definition all_mtimes_readable (w : world) (file_paths : list string) : Prop :=
  Forall (fun x => is_Some (getmtime w x)) file_paths.

Lemma sort_by_mtime_readable w file_paths :
  all_mtimes_readable w file_paths ->
  sort_by_mtime w file_paths = PyList.sort (mtime_key w) file_paths.
Proof.
  intros H. unfold sort_by_mtime, all_mtimes_readable in *.
  assert (E : forallb (fun x => bool_decide (is_Some (getmtime w x))) file_paths = true).
  { apply forallb_forall. intros x Hx. apply bool_decide_eq_true.
    rewrite Forall_forall in H. apply H, list_elem_of_In, Hx. }
  rewrite E. reflexivity.
Qed.

Lemma sort_by_mtime_unreadable w file_paths :
  ~ all_mtimes_readable w file_paths -> sort_by_mtime w file_paths = file_paths.
Proof.
  intros H. unfold sort_by_mtime.
  destruct (forallb _ file_paths) eqn:E; [|reflexivity].
  exfalso. apply H. apply Forall_forall. intros x Hx.
  rewrite forallb_forall in E. apply list_elem_of_In in Hx.
  specialize (E x Hx). apply bool_decide_eq_true in E. exact E.
Qed.

Lemma sort_by_mtime_perm w file_paths : sort_by_mtime w file_paths ≡ₚ file_paths.
Proof.
  unfold sort_by_mtime. destruct (forallb _ _); [apply sort_perm|reflexivity].
Qed.

Lemma sort_by_mtime_length w file_paths :
  length (sort_by_mtime w file_paths) = length file_paths.
Proof. apply Permutation_length, sort_by_mtime_perm. Qed.

(** The group made of one entry of [hash_groups], if any. *)
Definition group_of (w : world) (file_hash : string) (file_paths : list string)
    : option group :=
  if 1 <? Z.of_nat (length file_paths) then
    let sorted := sort_by_mtime w file_paths in
    match getsize w (default "" (head sorted)) with
    | Some file_size =>
        Some {| hash := file_hash; files := sorted; size := file_size;
                wasted_space := file_size * (Z.of_nat (length sorted) - 1);
                count := Z.of_nat (length sorted) |}
    | None => None
    end
  else None.

Lemma assemble_groups w d :
  (assemble w d).1 = omap (fun e => group_of w e.1 e.2) d.
Proof.
  induction d as [|[h l] d IH]; [reflexivity|].
  cbn [assemble omap list_omap]. destruct (assemble w d) as [gs total]. cbn [fst] in IH.
  unfold group_of. cbn [fst snd].
  destruct (1 <? _); [|exact IH].
  destruct (getsize w _); cbn [fst]; rewrite IH; reflexivity.
Qed.

Lemma assemble_total w d :
  (assemble w d).2 = foldr Z.add 0 (wasted_space <$> (assemble w d).1).
Proof.
  induction d as [|[h l] d IH]; [reflexivity|].
  cbn [assemble]. destruct (assemble w d) as [gs total]. cbn [fst snd] in IH.
  destruct (1 <? _); [|exact IH].
  destruct (getsize w _); cbn [fst snd fmap list_fmap foldr]; [rewrite IH; reflexivity|exact IH].
Qed.

(** *** The shape of a run *)

Inductive run_shape (self : worker) (w : world) : list event * nat -> Prop :=
  | Cancelled_in_scan statuses :
      Forall is_status statuses ->
      Cancel.is_cancelled (cancel_at w) (s_reads (scan_stage self w).2) = true ->
      run_shape self w (statuses ++ [Finished], S (s_reads (scan_stage self w).2))
  | Nothing_to_hash statuses :
      Forall is_status statuses ->
      Cancel.is_cancelled (cancel_at w) (s_reads (scan_stage self w).2) = false ->
      count_potential (size_groups (scan_stage self w).2) = 0 ->
      run_shape self w (statuses ++ [Result [] 0; Progress 100; Finished],
                        S (s_reads (scan_stage self w).2))
  | Cancelled_in_hash statuses ps hv :
      Forall is_status statuses ->
      Cancel.is_cancelled (cancel_at w) (s_reads (scan_stage self w).2) = false ->
      count_potential (size_groups (scan_stage self w).2) <> 0 ->
      hash_stage self w = (Progress <$> ps, hv, Next) ->
      StronglySorted Z.le ps -> Forall (fun p => 0 <= p <= 100) ps ->
      Cancel.is_cancelled (cancel_at w) (h_reads hv) = true ->
      run_shape self w (statuses ++ (Progress <$> ps) ++ [Finished], S (h_reads hv))
  | Completed statuses ps hv :
      Forall is_status statuses ->
      Cancel.is_cancelled (cancel_at w) (s_reads (scan_stage self w).2) = false ->
      count_potential (size_groups (scan_stage self w).2) <> 0 ->
      hash_stage self w = (Progress <$> ps, hv, Next) ->
      StronglySorted Z.le ps -> Forall (fun p => 0 <= p <= 100) ps ->
      Cancel.is_cancelled (cancel_at w) (h_reads hv) = false ->
      run_shape self w
        (statuses ++ (Progress <$> ps)
           ++ [Result (assemble w (hash_groups hv)).1 (assemble w (hash_groups hv)).2;
               Progress 100; Finished],
         S (h_reads hv)).

Lemma run_has_shape self w : run_shape self w (run self w).
Proof.
  unfold run. pose proof (scan_stage_status self w) as Hst.
  pose proof (hash_stage_rising self w) as Hh.
  destruct (scan_stage self w) as [evs1 sv] eqn:Es. cbn [fst snd] in *.
  destruct (Cancel.is_cancelled (cancel_at w) (s_reads sv)) eqn:Ec.
  - pose proof (Cancelled_in_scan self w (Status "Scanning files..." :: evs1)) as H.
    rewrite Es in H. apply H; [constructor; [exact I|exact Hst]|exact Ec].
  - destruct (Z.eqb_spec (count_potential (size_groups sv)) 0) as [E0|Hne].
    + pose proof (Nothing_to_hash self w
        ((Status "Scanning files..." :: evs1) ++
         [Status ("Found " +:+ pretty (total_files sv) +:+ " files, checking for duplicates...")]))
        as H.
      rewrite Es in H. cbn [snd] in H. rewrite <- !app_assoc in H. apply H; try assumption.
      apply Forall_app. split; [constructor; [exact I|exact Hst]|repeat constructor].
    + destruct (Hh Hne) as (ps & hv & Eh & Hs & Hb). rewrite Eh.
      set (statuses := (Status "Scanning files..." :: evs1) ++
         [Status ("Found " +:+ pretty (total_files sv) +:+ " files, checking for duplicates...")]
         ++ [Status ("Checking " +:+ pretty (count_potential (size_groups sv))
                       +:+ " potential duplicates...")]).
      assert (Hstat : Forall is_status statuses).
      { apply Forall_app. split; [constructor; [exact I|exact Hst]|repeat constructor]. }
      destruct (Cancel.is_cancelled (cancel_at w) (h_reads hv)) eqn:Ec2.
      * pose proof (Cancelled_in_hash self w statuses ps hv Hstat) as H.
        rewrite Es in H. cbn [snd] in H. specialize (H Ec Hne Eh Hs Hb Ec2).
        unfold statuses in H. rewrite <- !app_assoc in H. exact H.
      * pose proof (Completed self w statuses ps hv Hstat) as H.
        rewrite Es in H. cbn [snd] in H. specialize (H Ec Hne Eh Hs Hb Ec2).
        unfold statuses in H. rewrite <- !app_assoc in H.
        destruct (assemble w (hash_groups hv)) as [gs total]. exact H.
Qed.

(** *** The last event *)

Lemma duplicate_finished_last self w : last (run self w).1 = Some Finished.
Proof.
  destruct (run_has_shape self w); cbn [fst];
    rewrite ?app_assoc, last_app; reflexivity.
Qed.

(** *** C3 *)

Definition no_result (evs : list event) : Prop :=
  Forall (fun e => ~ is_result e) evs.

Lemma statuses_no_result evs : Forall is_status evs -> no_result evs.
Proof.
  intros H. eapply Forall_impl; [exact H|]. intros [] Hs; simpl in *; tauto.
Qed.

Lemma progress_no_result ps : no_result (Progress <$> ps).
Proof. apply Forall_fmap, Forall_forall. intros p _ H. exact H. Qed.

(** C3, amended.  The flag is read while the first two stages work
    through their files, and once after each of them; the last stage, which
    sorts and assembles the groups, does not read it.  A run of the duplicate scan in
    which some read of the flag sees it set (the first [k] reads do not,
    and the run makes more than [k] reads) ends with [finished] and emits
    no [result]; when the flag is first seen set during the hash stage, the
    events are status texts, percentages and [finished].  A run whose scan
    ends with the flag unset and finds no two files of one size emits
    [result([], 0)], then [progress(100)], then [finished].  A run none of
    whose reads sees the flag set emits its result, also when [cancel()]
    is called before the run ends. *)
Theorem C3_cancelled_run_emits_no_result self w :
  let sv := (scan_stage self w).2 in
  (forall k, cancel_at w = Some k -> (k < (run self w).2)%nat ->
     last (run self w).1 = Some Finished /\ no_result (run self w).1) /\
  (forall k, cancel_at w = Some k -> (k < (run self w).2)%nat ->
     Cancel.is_cancelled (cancel_at w) (s_reads sv) = false ->
     exists statuses ps,
       Forall is_status statuses /\
       (run self w).1 = statuses ++ (Progress <$> ps) ++ [Finished]) /\
  (Cancel.is_cancelled (cancel_at w) (s_reads sv) = false ->
   count_potential (size_groups sv) = 0 ->
   exists statuses,
     Forall is_status statuses /\
     (run self w).1
       = statuses ++ [Result [] 0; Progress 100; Finished]) /\
  (forall k, cancel_at w = Some k -> ((run self w).2 <= k)%nat ->
     exists groups total, Result groups total ∈ (run self w).1).
Proof.
  intros sv. subst sv. unfold no_result.
  pose proof (duplicate_finished_last self w) as Hlast.
  assert (Hseen : forall k i, cancel_at w = Some k -> (k < S i)%nat ->
                              Cancel.is_cancelled (cancel_at w) i = true).
  { intros k i -> Hk. simpl. apply Nat.leb_le. lia. }
  assert (Hunseen : forall k i, cancel_at w = Some k -> (S i <= k)%nat ->
                                Cancel.is_cancelled (cancel_at w) i = false).
  { intros k i -> Hk. simpl. apply Nat.leb_gt. lia. }
  destruct (run_has_shape self w)
    as [st Hst Hc | st Hst Hc H0 | st ps hv Hst Hc Hne Eh Hs Hb Hc2
        | st ps hv Hst Hc Hne Eh Hs Hb Hc2]; cbn [fst snd] in *.
  - split; [|split; [|split]].
    + intros k Hk Hlt. split; [exact Hlast|].
      apply Forall_app. split; [apply statuses_no_result, Hst|repeat constructor; simpl; tauto].
    + intros k Hk Hlt Hc'. congruence.
    + intros Hc'. congruence.
    + intros k Hk Hle. rewrite (Hunseen k _ Hk Hle) in Hc. discriminate.
  - split; [|split; [|split]].
    + intros k Hk Hlt. rewrite (Hseen k _ Hk Hlt) in Hc. discriminate.
    + intros k Hk Hlt. rewrite (Hseen k _ Hk Hlt) in Hc. discriminate.
    + intros _ _. exists st. split; [exact Hst|reflexivity].
    + intros k Hk Hle. exists [], 0. apply elem_of_app. right. apply list_elem_of_here.
  - split; [|split; [|split]].
    + intros k Hk Hlt. split; [exact Hlast|].
      rewrite !Forall_app. split; [apply statuses_no_result, Hst|].
      split; [apply progress_no_result|repeat constructor; simpl; tauto].
    + intros k Hk Hlt _. exists st, ps. split; [exact Hst|reflexivity].
    + intros _ H0. contradiction.
    + intros k Hk Hle. rewrite (Hunseen k _ Hk Hle) in Hc2. discriminate.
  - split; [|split; [|split]].
    + intros k Hk Hlt. rewrite (Hseen k _ Hk Hlt) in Hc2. discriminate.
    + intros k Hk Hlt. rewrite (Hseen k _ Hk Hlt) in Hc2. discriminate.
    + intros _ H0. contradiction.
    + intros k Hk Hle. eexists _, _. rewrite !elem_of_app. right. right.
      apply list_elem_of_here.
Qed.

(** Files [a], [b], [c], [d] in [/r] and [a], [e] in [/r/s]: all but [d]
    have five bytes, all but [c] the same content. *)
Definition example_world (c : option nat) : world := {|
  cancel_at := c;
  path_exists := fun _ => true;
  path_isdir := fun p => String.eqb p "/r";
  path_islink := fun _ => false;
  listdir_error := fun _ => None;
  walk := fun p => ([("/r", ["a"; "b"; "c"; "d"]); ("/r/s", ["a"; "e"])], None);
  stat_size := fun p => if String.eqb p "/r/d" then Some 7 else Some 5;
  read_file := fun p => if String.eqb p "/r/c" then ReadAll "other" else ReadAll "hello";
  md5_hexdigest := fun data => "md5:" +:+ data;
  getmtime := fun p => if String.eqb p "/r/a" then Some (3 # 1)%Q else Some (1 # 2)%Q;
  getsize := fun p => Some 5
|}.

Definition scan_r (min_file_size : Z) : worker :=
  {| root_paths := ["/r"; "/nope"]; min_file_size := min_file_size |}.

Lemma C3_cancelled_run_witness :
  (last (run (scan_r 1) (example_world (Some 12%nat))).1 = Some Finished /\
   no_result (run (scan_r 1) (example_world (Some 12%nat))).1) /\
  (exists statuses ps,
     Forall is_status statuses /\
     (run (scan_r 1) (example_world (Some 12%nat))).1
       = statuses ++ (Progress <$> ps) ++ [Finished]) /\
  (exists statuses,
     Forall is_status statuses /\
     (run (scan_r 6) (example_world None)).1
       = statuses ++ [Result [] 0; Progress 100; Finished]) /\
  (exists groups total,
     Result groups total ∈ (run (scan_r 1) (example_world (Some 24%nat))).1).
Proof.
  destruct (C3_cancelled_run_emits_no_result (scan_r 1) (example_world (Some 12%nat)))
    as (H1 & H2 & _).
  destruct (C3_cancelled_run_emits_no_result (scan_r 6) (example_world None))
    as (_ & _ & H3 & _).
  destruct (C3_cancelled_run_emits_no_result (scan_r 1) (example_world (Some 24%nat)))
    as (_ & _ & _ & H4).
  split; [|split; [|split]].
  - apply (H1 12%nat); [reflexivity | vm_compute; lia].
  - apply (H2 12%nat); [reflexivity | vm_compute; lia | vm_compute; reflexivity].
  - apply H3; vm_compute; reflexivity.
  - apply (H4 24%nat); [reflexivity | vm_compute; lia].
Defined.

(** C3, as stated, fails: [cancel()] is called after the 24 reads of the
    flag that this run makes, the last of them at the end of the hash
    stage, and before the last stage ends.  No read sees the flag set, and
    the cancelled run emits its result. *)
Lemma C3_counterexample_cancelled_after_last_read :
  cancel_at (example_world (Some 24%nat)) = Some 24%nat /\
  (run (scan_r 1) (example_world (Some 24%nat))).2 = 24%nat /\
  Result [{| hash := "md5:hello"; files := ["/r/b"; "/r/s/a"; "/r/s/e"; "/r/a"];
             size := 5; wasted_space := 15; count := 4 |}] 15
    ∈ (run (scan_r 1) (example_world (Some 24%nat))).1.
Proof.
  split; [reflexivity|]. split; [vm_compute; reflexivity|].
  vm_compute. do 3 apply list_elem_of_further. apply list_elem_of_here.
Qed.

(** *** C4 *)

Lemma result_of_run self w groups total :
  Result groups total ∈ (run self w).1 ->
  (count_potential (size_groups (scan_stage self w).2) = 0 /\
   groups = [] /\ total = 0) \/
  (exists evs hv, hash_stage self w = (evs, hv, Next) /\
                  groups = (assemble w (hash_groups hv)).1 /\
                  total = (assemble w (hash_groups hv)).2).
Proof.
  assert (Hst : forall st, Forall is_status st -> Result groups total ∉ st).
  { intros st Hst Hin. rewrite Forall_forall in Hst. exact (Hst _ Hin). }
  assert (Hps : forall ps : list Z, Result groups total ∉ Progress <$> ps).
  { intros ps Hin. apply list_elem_of_fmap in Hin as (p & Hp & _). discriminate. }
  destruct (run_has_shape self w)
    as [st Hs Hc | st Hs Hc H0 | st ps hv Hs Hc Hne Eh Hso Hb Hc2
        | st ps hv Hs Hc Hne Eh Hso Hb Hc2]; cbn [fst]; intros Hin.
  - apply elem_of_app in Hin as [Hin|Hin]; [destruct (Hst _ Hs Hin)|].
    apply list_elem_of_singleton in Hin. discriminate.
  - apply elem_of_app in Hin as [Hin|Hin]; [destruct (Hst _ Hs Hin)|].
    repeat (apply elem_of_cons in Hin as [Hin|Hin]); try discriminate.
    + injection Hin as -> ->. left. split; [exact H0|split; reflexivity].
    + apply elem_of_nil in Hin. contradiction.
  - apply elem_of_app in Hin as [Hin|Hin]; [destruct (Hst _ Hs Hin)|].
    apply elem_of_app in Hin as [Hin|Hin]; [destruct (Hps _ Hin)|].
    apply list_elem_of_singleton in Hin. discriminate.
  - apply elem_of_app in Hin as [Hin|Hin]; [destruct (Hst _ Hs Hin)|].
    apply elem_of_app in Hin as [Hin|Hin]; [destruct (Hps _ Hin)|].
    repeat (apply elem_of_cons in Hin as [Hin|Hin]); try discriminate.
    + injection Hin as -> ->. right. exists (Progress <$> ps), hv. repeat split. exact Eh.
    + apply elem_of_nil in Hin. contradiction.
Qed.

(** C4.  In every [result] event of a duplicate scan each group has
    [wasted_space = size * (count - 1)] and [count = len(files)], and the
    total emitted with the groups is the sum of their [wasted_space]. *)
Theorem C4_wasted_space_and_count self w groups total :
  Result groups total ∈ (run self w).1 ->
  Forall (fun g => wasted_space g = size g * (count g - 1) /\
                   count g = Z.of_nat (length (files g))) groups /\
  total = foldr Z.add 0 (wasted_space <$> groups).
Proof.
  intros Hin. destruct (result_of_run self w groups total Hin)
    as [(_ & -> & ->) | (evs & hv & _ & -> & ->)].
  - split; [constructor|reflexivity].
  - split; [|apply assemble_total].
    rewrite assemble_groups. apply Forall_forall. intros g Hg.
    apply list_elem_of_omap in Hg as ([h l] & _ & Hg). unfold group_of in Hg.
    cbn [fst snd] in Hg. destruct (1 <? _); [|discriminate].
    destruct (getsize w _); [|discriminate]. injection Hg as <-. split; reflexivity.
Qed.

Definition example_groups : list group :=
  [{| hash := "md5:hello"; files := ["/r/b"; "/r/s/a"; "/r/s/e"; "/r/a"];
      size := 5; wasted_space := 15; count := 4 |}].

Lemma C4_wasted_space_witness :
  Forall (fun g => wasted_space g = size g * (count g - 1) /\
                   count g = Z.of_nat (length (files g))) example_groups /\
  15 = foldr Z.add 0 (wasted_space <$> example_groups).
Proof.
  apply (C4_wasted_space_and_count (scan_r 1) (example_world None) example_groups 15).
  vm_compute. do 3 apply list_elem_of_further. apply list_elem_of_here.
Defined.

(** *** C5 *)

(** One file of a pair is deleted between the hash stage and the last
    stage: neither its modification time nor its size can be read. *)
Definition vanishing_world : world := {|
  cancel_at := None;
  path_exists := fun _ => true;
  path_isdir := fun p => String.eqb p "/r";
  path_islink := fun _ => false;
  listdir_error := fun _ => None;
  walk := fun p => ([("/r", ["a"; "b"])], None);
  stat_size := fun p => Some 5;
  read_file := fun p => ReadAll "hello";
  md5_hexdigest := fun data => "md5:" +:+ data;
  getmtime := fun p => if String.eqb p "/r/a" then None else Some (1 # 2)%Q;
  getsize := fun p => if String.eqb p "/r/a" then None else Some 5
|}.

(** C5, as stated, fails: the hash stage puts [/r/a] and [/r/b] in one
    group; the modification time of [/r/a] cannot be read, and the group is
    not emitted. *)
Lemma C5_counterexample_group_dropped :
  (exists evs hv,
     hash_stage (scan_r 0) vanishing_world = (evs, hv, Next) /\
     hash_groups hv = [("md5:hello", ["/r/a"; "/r/b"])]) /\
  getmtime vanishing_world "/r/a" = None /\
  Result [] 0 ∈ (run (scan_r 0) vanishing_world).1.
Proof.
  split; [|split].
  - eexists _, _. split; vm_compute; reflexivity.
  - reflexivity.
  - vm_compute. do 3 apply list_elem_of_further. apply list_elem_of_here.
Qed.

(** The order of two files by their modification times. *)
Definition older_or_same (w : world) (x y : string) : Prop :=
  (mtime_key w x <= mtime_key w y)%Q.

(** C5, amended.  Every emitted group comes from one list [file_paths] of
    the hash stage, in discovery order, of two files or more.  When every
    modification time can be read, [files] is that list sorted by
    modification time: non-decreasing, with the same members, those of one
    modification time in discovery order, so that no member is older than
    [files[0]].  When one cannot be read, [files] is the list in discovery
    order.  The group of such a list is emitted exactly when the size of
    the first file of the ordered list can be read. *)
Theorem C5_groups_sorted_by_mtime self w groups total :
  Result groups total ∈ (run self w).1 ->
  (forall g, g ∈ groups ->
     exists evs hv file_paths,
       hash_stage self w = (evs, hv, Next) /\
       (hash g, file_paths) ∈ hash_groups hv /\
       (2 <= length file_paths)%nat /\
       (all_mtimes_readable w file_paths ->
          StronglySorted (older_or_same w) (files g) /\
          files g ≡ₚ file_paths /\
          (forall q, with_key (mtime_key w) q (files g)
                     = with_key (mtime_key w) q file_paths) /\
          (forall x, x ∈ files g ->
                     older_or_same w (default "" (head (files g))) x)) /\
       (~ all_mtimes_readable w file_paths -> files g = file_paths)) /\
  (forall evs hv file_hash file_paths,
     hash_stage self w = (evs, hv, Next) ->
     (file_hash, file_paths) ∈ hash_groups hv -> (2 <= length file_paths)%nat ->
     (exists g, g ∈ groups /\ hash g = file_hash /\
                files g = sort_by_mtime w file_paths) <->
     is_Some (getsize w (default "" (head (sort_by_mtime w file_paths))))).
Proof.
  intros Hin.
  assert (Hgroups : exists evs hv, hash_stage self w = (evs, hv, Next) /\
            groups = omap (fun e => group_of w e.1 e.2) (hash_groups hv)).
  { destruct (result_of_run self w groups total Hin)
      as [(H0 & -> & _) | (evs & hv & Eh & -> & _)].
    - destruct (hash_stage_nothing self w H0) as (hv & Eh & Eg).
      exists [], hv. split; [exact Eh|]. rewrite Eg. reflexivity.
    - exists evs, hv. split; [exact Eh|apply assemble_groups]. }
  destruct Hgroups as (evs & hv & Eh & ->). split.
  - intros g Hg. apply list_elem_of_omap in Hg as ([h l] & Hl & Hg).
    unfold group_of in Hg. cbn [fst snd] in Hg.
    destruct (1 <? Z.of_nat (length l)) eqn:Hlen; [|discriminate].
    apply Z.ltb_lt in Hlen.
    destruct (getsize w _); [|discriminate]. injection Hg as <-. cbn [hash files].
    exists evs, hv, l. split; [exact Eh|]. split; [exact Hl|]. split; [lia|]. split.
    + intros Hr. rewrite (sort_by_mtime_readable w l Hr).
      pose proof (sort_sorted (mtime_key w) l) as Hs.
      split; [exact Hs|]. split; [apply sort_perm|].
      split; [intros q; apply sort_stable|].
      intros x Hx. destruct (PyList.sort (mtime_key w) l) as [|y ys];
        [apply elem_of_nil in Hx; contradiction|].
      cbn [head default]. apply elem_of_cons in Hx as [->|Hx].
      * unfold older_or_same. apply Qle_refl.
      * apply StronglySorted_inv in Hs as [_ Hy]. rewrite Forall_forall in Hy. exact (Hy x Hx).
    + intros Hn. apply sort_by_mtime_unreadable, Hn.
  - intros evs' hv' file_hash file_paths Eh' Hl Hlen.
    rewrite Eh in Eh'. injection Eh' as <- <-.
    assert (Hlt : (1 <? Z.of_nat (length file_paths)) = true) by (apply Z.ltb_lt; lia).
    split.
    + intros (g & Hg & Hh & Hf).
      apply list_elem_of_omap in Hg as ([h l] & _ & Hg).
      unfold group_of in Hg. cbn [fst snd] in Hg.
      destruct (1 <? Z.of_nat (length l)); [|discriminate].
      destruct (getsize w (default "" (head (sort_by_mtime w l)))) as [sz|] eqn:Es;
        [|discriminate].
      injection Hg as <-. cbn [files] in Hf. rewrite <- Hf, Es. eexists; reflexivity.
    + intros [sz Hsz].
      set (sorted := sort_by_mtime w file_paths) in *.
      exists {| hash := file_hash; files := sorted; size := sz;
                wasted_space := sz * (Z.of_nat (length sorted) - 1);
                count := Z.of_nat (length sorted) |}.
      split; [|split; reflexivity].
      apply list_elem_of_omap. exists (file_hash, file_paths). split; [exact Hl|].
      unfold group_of. cbn [fst snd]. fold sorted. rewrite Hlt, Hsz. reflexivity.
Qed.

Lemma C5_groups_sorted_witness :
  StronglySorted (older_or_same (example_world None)) ["/r/b"; "/r/s/a"; "/r/s/e"; "/r/a"] /\
  ["/r/b"; "/r/s/a"; "/r/s/e"; "/r/a"] ≡ₚ ["/r/a"; "/r/b"; "/r/s/a"; "/r/s/e"].
Proof.
  destruct (C5_groups_sorted_by_mtime (scan_r 1) (example_world None) example_groups 15)
    as [Hsorted _].
  { vm_compute. do 3 apply list_elem_of_further. apply list_elem_of_here. }
  destruct (Hsorted _ (list_elem_of_here _ _)) as (evs & hv & file_paths & Eh & Hin & _ & Hr & _).
  assert (Efp : file_paths = ["/r/a"; "/r/b"; "/r/s/a"; "/r/s/e"]).
  { assert (Ehv : hash_groups hv
                  = [("md5:hello", ["/r/a"; "/r/b"; "/r/s/a"; "/r/s/e"]); ("md5:other", ["/r/c"])]).
    { assert (E : hv = (hash_stage (scan_r 1) (example_world None)).1.2)
        by (rewrite Eh; reflexivity).
      rewrite E. vm_compute. reflexivity. }
    rewrite Ehv in Hin. cbn [hash example_groups] in Hin.
    apply elem_of_cons in Hin as [Hin|Hin]; [congruence|].
    apply list_elem_of_singleton in Hin. discriminate. }
  subst file_paths.
  destruct Hr as (H1 & H2 & _).
  { repeat constructor; vm_compute; eexists; reflexivity. }
  split; assumption.
Defined.

End DuplicateFacts.

(** ** The search worker *)

Module SearchFacts.
Import SearchWorker.
Import Rising.

Definition search_progress_values (evs : list event) : list Z :=
  omap (fun e => match e with Progress p => Some p | _ => None end) evs.

(** The names of the widest directory of a walk. *)
Definition width (l : list triple) : Z :=
  foldr Z.max 0 ((fun t => Z.of_nat (length (dir_names t) + length (file_names t))) <$> l).

Definition over_limit (v : vars) : Prop :=
  200 < Z.of_nat (length (matches v)) \/ 2000 < processed v.

Lemma names_bounds self c root l v :
  processed (names self c root l v) = processed v /\
  (length (matches v) <= length (matches (names self c root l v))
     <= length (matches v) + length l)%nat.
Proof.
  revert v. induction l as [|e l IH]; intros v; cbn [names]; [simpl; lia|].
  destruct (Cancel.is_cancelled c (reads v)); [simpl; lia|].
  destruct (raises e).
  { match goal with |- context [names self c root l ?v0] => destruct (IH v0) as [-> H] end.
    simpl in *. lia. }
  destruct (_ && _).
  - match goal with |- context [names self c root l ?v0] => destruct (IH v0) as [-> H] end.
    simpl in *. rewrite length_app in H. simpl in H. lia.
  - match goal with |- context [names self c root l ?v0] => destruct (IH v0) as [-> H] end.
    simpl in *. lia.
Qed.

Definition step_percent (k : Z) : option Z := Some (Z.min (k * 2) 95).

Lemma step_percent_monotone lo hi : monotone_on step_percent lo hi.
Proof. intros k1 k2 p1 p2 _ H _ [= <-] [= <-]. lia. Qed.

Lemma width_cons t l :
  width (t :: l) = Z.max (Z.of_nat (length (dir_names t) + length (file_names t))) (width l).
Proof. reflexivity. Qed.

Lemma width_nonneg l : 0 <= width l.
Proof. induction l as [|t l IH]; [reflexivity|]. rewrite width_cons. lia. Qed.

Lemma walk_loop_bounds self c l v :
  ~ over_limit v -> 0 <= processed v ->
  exists ps v',
    walk_loop self c l v = (Progress <$> ps, v') /\
    processed v <= processed v' <= 2001 /\
    Z.of_nat (length (matches v')) <= 200 + width l /\
    rising step_percent (processed v) (processed v') ps.
Proof.
  revert v. induction l as [|t l IH]; intros v Hlim H0; unfold over_limit in Hlim.
  - exists [], v. pose proof (width_nonneg []).
    split; [reflexivity|]. split; [lia|]. split; [lia|apply rising_nil].
  - cbn [walk_loop]. rewrite width_cons. pose proof (width_nonneg l) as Hw.
    destruct (Cancel.is_cancelled c (reads v)).
    { exists [], (read_flag v). simpl.
      split; [reflexivity|]. split; [lia|]. split; [lia|apply rising_nil]. }
    destruct (negb (root_exists t)).
    { destruct (IH (read_flag v)) as (ps & v' & -> & Hp & Hm & Hr); [exact Hlim | exact H0 |].
      exists ps, v'. simpl in *.
      split; [reflexivity|]. split; [lia|]. split; [lia|exact Hr]. }
    destruct (names_bounds self c (root t) (dir_names t) (read_flag v)) as [Ep1 Hl1].
    set (v1 := names self c (root t) (dir_names t) (read_flag v)) in *.
    destruct (names_bounds self c (root t) (file_names t) v1) as [Ep2 Hl2].
    set (v2 := names self c (root t) (file_names t) v1) in *.
    simpl in Ep1, Hl1. cbn [processed matches].
    set (v3 := {| matches := matches v2; processed := processed v2 + 1;
                  total_processed := total_processed v2; reads := reads v2 |}).
    set (evs := if (processed v2 + 1) mod 5 =? 0 then _ else _).
    assert (Hevs : exists ps0, evs = Progress <$> ps0 /\
                               rising step_percent (processed v) (processed v2 + 1) ps0).
    { unfold evs. destruct (_ =? 0).
      - exists [Z.min ((processed v2 + 1) * 2) 95]. split; [reflexivity|].
        apply (rising_cons _ _ (processed v2 + 1)); try lia;
          [apply step_percent_monotone | reflexivity | apply rising_nil].
      - exists []. split; [reflexivity | apply rising_nil]. }
    destruct Hevs as (ps0 & -> & Hr0).
    destruct (_ || _) eqn:Elim.
    + exists ps0, v3. simpl.
      split; [reflexivity|]. split; [lia|]. split; [lia|exact Hr0].
    + apply orb_false_iff in Elim as [E1 E2]. apply Z.ltb_ge in E1, E2.
      destruct (IH v3) as (ps & v' & -> & Hp & Hm & Hr);
        [unfold over_limit; simpl; lia | simpl; lia |].
      exists (ps0 ++ ps), v'. simpl in Hp, Hr.
      split; [rewrite fmap_app; reflexivity|]. split; [lia|]. split; [lia|].
      apply (rising_app _ _ (processed v2 + 1)); try lia; try assumption.
      apply step_percent_monotone.
Qed.

(** Once a limit is passed the rest of the walk is not visited. *)
Lemma walk_loop_stops self c l1 l2 v evs v1 :
  ~ over_limit v ->
  walk_loop self c l1 v = (evs, v1) -> over_limit v1 ->
  walk_loop self c (l1 ++ l2) v = (evs, v1).
Proof.
  revert v evs. induction l1 as [|t l1 IH]; intros v evs Hlim E Hover.
  - injection E as <- <-. contradiction.
  - cbn [walk_loop app] in *.
    destruct (Cancel.is_cancelled c (reads v)).
    { injection E as <- <-. exfalso. apply Hlim. exact Hover. }
    destruct (negb (root_exists t)); [apply IH; assumption|].
    destruct (_ || _) eqn:Elim; [exact E|].
    match type of E with context [walk_loop self c l1 ?v0] =>
      destruct (walk_loop self c l1 v0) as [evs' v'] eqn:E' end.
    injection E as <- <-.
    erewrite IH; [reflexivity | | exact E' | exact Hover].
    apply orb_false_iff in Elim as [E1 E2]. apply Z.ltb_ge in E1, E2.
    unfold over_limit. cbn [matches processed] in *. lia.
Qed.

(** *** The last event *)

Lemma search_finished_last self w : last (run self w).1 = Some Finished.
Proof.
  unfold run. destruct (negb (root_is_dir w)); [reflexivity|].
  destruct (negb (root_listable w)); [reflexivity|].
  destruct (walk_loop _ _ _ _) as [evs v]. cbn [fst].
  rewrite last_app. reflexivity.
Qed.

(** *** C2 *)

(** A directory with [n] files [a0], [a1], ... *)
Definition wide_dir (n : nat) : tree :=
  Node true []
    ((fun k => {| name := "a" +:+ pretty k; present := true; raises := false |})
       <$> seq 0 n).

Definition wide_world (n : nat) : world :=
  {| cwd := "/"; root_is_dir := true; root_listable := true;
     root_tree := wide_dir n; cancel_at := None |}.

(** C2, as stated, fails: a search for [a] in one directory that holds
    201 files whose names contain [a] records and emits all 201 of them. *)
Lemma C2_counterexample_201_matches :
  exists ms, (run (make "/r" "a") (wide_world 201)).1
               = [Result ms; Progress 100; Finished] /\
             length ms = 201%nat.
Proof. eexists. split; [vm_compute; reflexivity | reflexivity]. Qed.

(** C2, amended.  The limits are tested once per directory, after all its
    names have been handled.  The walk goes on to the next directory only
    while at most 200 matches are recorded and at most 2000 directories are
    processed; so a walk that has passed a limit visits nothing more, at
    most 2001 directories are processed, and the emitted list exceeds 200
    by no more than the number of names of one directory. *)
Theorem C2_search_limits_per_directory self w :
  let steps := walk (Path.normpath (abspath (cwd w) (root_path self)))
                 (root_tree w) in
  (forall l1 l2 evs v,
     steps = l1 ++ l2 ->
     walk_loop self (cancel_at w) l1 initial = (evs, v) ->
     over_limit v ->
     walk_loop self (cancel_at w) steps initial = (evs, v)) /\
  processed (run self w).2 <= 2001 /\
  (forall ms, Result ms ∈ (run self w).1 ->
     Z.of_nat (length ms) <= 200 + width steps).
Proof.
  intros steps.
  assert (Hinit : ~ over_limit initial)
    by (unfold over_limit; simpl; lia).
  split; [|split].
  - intros l1 l2 evs v -> E Hover.
    apply walk_loop_stops; assumption.
  - unfold run. fold steps.
    destruct (negb (root_is_dir w)); [simpl; lia|].
    destruct (negb (root_listable w)); [simpl; lia|].
    destruct (walk_loop_bounds self (cancel_at w) steps initial Hinit)
      as (ps & v' & -> & Hp & _); [simpl; lia|]. simpl. lia.
  - intros ms. unfold run. fold steps.
    pose proof (width_nonneg steps) as Hw.
    assert (Hempty : Result ms ∈ [Result []; Progress 100; Finished] ->
                     Z.of_nat (length ms) <= 200 + width steps).
    { intros H. repeat (apply elem_of_cons in H as [H|H]); try discriminate.
      - injection H as ->. simpl. lia.
      - apply elem_of_nil in H. contradiction. }
    destruct (negb (root_is_dir w)); [exact Hempty|].
    destruct (negb (root_listable w)); [exact Hempty|].
    destruct (walk_loop_bounds self (cancel_at w) steps initial Hinit)
      as (ps & v' & -> & _ & Hm & _); [simpl; lia|]. cbn [fst].
    intros H. apply elem_of_app in H as [H|H].
    + apply list_elem_of_fmap in H as (p & Hp & _). discriminate.
    + repeat (apply elem_of_cons in H as [H|H]); try discriminate.
      * injection H as ->. exact Hm.
      * apply elem_of_nil in H. contradiction.
Qed.

(** Two directories: the first holds 201 matches, the second is not
    visited. *)
Definition two_dirs : tree :=
  match wide_dir 201 with
  | Node ex _ fs =>
      Node ex [({| name := "sub"; present := true; raises := false |},
                   Some (wide_dir 3))] fs
  end.

Definition two_dirs_world : world :=
  {| cwd := "/"; root_is_dir := true; root_listable := true;
     root_tree := two_dirs; cancel_at := None |}.

Lemma C2_search_limits_witness :
  let self := make "/r" "a" in
  let steps := walk "/r" two_dirs in
  walk_loop self None steps initial = walk_loop self None (take 1 steps) initial /\
  processed (run self two_dirs_world).2 <= 2001.
Proof.
  intros self steps.
  destruct (C2_search_limits_per_directory self two_dirs_world) as (Hstop & Hproc & _).
  split; [|exact Hproc].
  let l1 := eval vm_compute in (take 1 steps) in
  let l2 := eval vm_compute in (drop 1 steps) in
  let r := eval vm_compute in (walk_loop self None (take 1 steps) initial) in
  match r with
  | (?evs, ?v) =>
      transitivity (evs, v);
      [ apply (Hstop l1 l2 evs v);
        [ vm_compute; reflexivity | vm_compute; reflexivity | left; vm_compute; reflexivity ]
      | vm_compute; reflexivity ]
  end.
Defined.

End SearchFacts.

(** * All three workers *)

(** ** C9 *)

Lemma percents_rising total (pv : list Z) (k n : nat) :
  (k + n <= total)%nat ->
  Some <$> pv = (fun i => PyNum.percent (Z.of_nat i + 1) (Z.of_nat total)) <$> seq k n ->
  Rising.rising (fun j => PyNum.percent j (Z.of_nat total)) (Z.of_nat k) (Z.of_nat (k + n)) pv.
Proof.
  revert pv k. induction n as [|n IH]; intros pv k Hle E.
  - destruct pv; [apply Rising.rising_nil|discriminate].
  - destruct pv as [|p pv]; [discriminate|]. cbn in E. injection E as Hp E.
    apply (Rising.rising_cons _ _ (Z.of_nat k + 1)); try lia.
    + apply (Rising.monotone_on_weaken _ (Z.of_nat k) (Z.of_nat total)); try lia.
      apply Rising.percent_monotone_on; lia.
    + symmetry. exact Hp.
    + replace (Z.of_nat k + 1) with (Z.of_nat (S k)) by lia.
      replace (k + S n)%nat with (S k + n)%nat by lia.
      apply IH; [lia|exact E].
Qed.

Definition non_decreasing_up_to_100 (pv : list Z) : Prop :=
  StronglySorted Z.le pv /\ Forall (fun p => 0 <= p <= 100) pv.

Lemma rising_up_to_100 total lo hi pv :
  0 <= lo -> hi <= total -> 
  Rising.rising (fun j => PyNum.percent j total) lo hi pv -> non_decreasing_up_to_100 pv.
Proof.
  intros Hlo Hhi [Hs Hf]. split; [exact Hs|].
  eapply Forall_impl; [exact Hf|]. intros p (j & Hj & Hp).
  apply (PyNumFacts.percent_range j total); [lia | lia | exact Hp].
Qed.

Lemma sorted_snoc_100 ps :
  StronglySorted Z.le ps -> Forall (fun p => 0 <= p <= 100) ps ->
  non_decreasing_up_to_100 (ps ++ [100]).
Proof.
  intros Hs Hb. split.
  - apply StronglySorted_app_2; [|exact Hs|repeat constructor].
    intros p q Hp Hq. apply list_elem_of_singleton in Hq as ->.
    rewrite Forall_forall in Hb. apply (Hb p Hp).
  - apply Forall_app. split; [exact Hb|]. repeat constructor; lia.
Qed.

Lemma search_values_of_progress (ps : list Z) :
  SearchFacts.search_progress_values (SearchWorker.Progress <$> ps) = ps.
Proof.
  induction ps as [|p ps IH]; [reflexivity|].
  unfold SearchFacts.search_progress_values in *. cbn. rewrite IH. reflexivity.
Qed.

Lemma dup_values_of_progress (ps : list Z) :
  DuplicateFacts.dup_progress_values (DuplicateFinderWorker.Progress <$> ps) = ps.
Proof.
  induction ps as [|p ps IH]; [reflexivity|].
  unfold DuplicateFacts.dup_progress_values in *. cbn. rewrite IH. reflexivity.
Qed.

Lemma dup_values_of_statuses st :
  Forall DuplicateFacts.is_status st -> DuplicateFacts.dup_progress_values st = [].
Proof.
  induction 1 as [|e st He _ IH]; [reflexivity|].
  unfold DuplicateFacts.dup_progress_values in *. destruct e; try contradiction. cbn. exact IH.
Qed.

(** C9.  In every run of each of the three workers the values of the
    progress events, in the order of emission, never decrease and lie
    between 0 and 100; a search always ends them with 100. *)
Theorem C9_progress_never_decreases :
  (forall self w c,
     non_decreasing_up_to_100
       (FileOperationFacts.progress_values (FileOperationWorker.run self w c).1)) /\
  (forall self w,
     non_decreasing_up_to_100 (SearchFacts.search_progress_values (SearchWorker.run self w).1) /\
     last (SearchFacts.search_progress_values (SearchWorker.run self w).1) = Some 100) /\
  (forall self w,
     non_decreasing_up_to_100
       (DuplicateFacts.dup_progress_values (DuplicateFinderWorker.run self w).1)).
Proof.
  split; [|split].
  - intros self w c. destruct (FS.isdir w (FileOperationWorker.destination_dir self)) eqn:Hd.
    + destruct (FileOperationFacts.run_progress_values self w c Hd) as (n & Hn & _ & Hps).
      apply (rising_up_to_100
               (Z.of_nat (length (FileOperationWorker.source_paths self))) (Z.of_nat 0)
               (Z.of_nat (0 + n))); [lia | lia |].
      apply percents_rising; [lia|exact Hps].
    + unfold FileOperationWorker.run. rewrite Hd. split; constructor.
  - intros self w. unfold SearchWorker.run.
    assert (H100 : non_decreasing_up_to_100 [100] /\ last [100] = Some 100).
    { split; [|reflexivity]. split; repeat constructor; lia. }
    destruct (negb (SearchWorker.root_is_dir w)); [exact H100|].
    destruct (negb (SearchWorker.root_listable w)); [exact H100|].
    match goal with |- context [SearchWorker.walk_loop self ?c ?l SearchWorker.initial] =>
      destruct (SearchFacts.walk_loop_bounds self c l SearchWorker.initial)
        as (ps & v' & -> & _ & _ & Hr) end;
      [unfold SearchFacts.over_limit; simpl; lia | simpl; lia |].
    cbn [fst]. unfold SearchFacts.search_progress_values. rewrite omap_app.
    fold (SearchFacts.search_progress_values (SearchWorker.Progress <$> ps)).
    rewrite search_values_of_progress. cbn [omap list_omap].
    split; [|apply last_snoc].
    destruct Hr as [Hs Hf]. apply sorted_snoc_100; [exact Hs|].
    eapply Forall_impl; [exact Hf|]. intros p (k & Hk & [= <-]). simpl in Hk. lia.
  - intros self w.
    destruct (DuplicateFacts.run_has_shape self w)
      as [st Hst Hc | st Hst Hc H0 | st ps hv Hst Hc Hne Eh Hs Hb Hc2
          | st ps hv Hst Hc Hne Eh Hs Hb Hc2]; cbn [fst];
      unfold DuplicateFacts.dup_progress_values; rewrite ?omap_app;
      fold (DuplicateFacts.dup_progress_values st);
      try fold (DuplicateFacts.dup_progress_values (DuplicateFinderWorker.Progress <$> ps));
      rewrite ?dup_values_of_progress, (dup_values_of_statuses st Hst); cbn [omap list_omap app].
    + split; constructor.
    + split; repeat constructor; lia.
    + rewrite app_nil_r. split; assumption.
    + apply sorted_snoc_100; assumption.
Qed.

(** * More about the workers *)

(** ** The file operation worker: counts, cancellation, files *)

Module FileOperationMore.
Import PyNumFacts StrFacts PathFacts ConflictFacts FileOperationWorker FileOperationFacts.

(** The number of items the loop handles before it sees the flag set. *)
Definition handled (cancel_at : option nat) (reads : nat) (items_left : nat) : nat :=
  match cancel_at with
  | None => items_left
  | Some k => Nat.min items_left (k - reads)
  end.

Definition tally (v : vars) : Z := success_count v + Z.of_nat (length (errors v)).

(** One item makes one more success or one more error, and reads no flag. *)
Lemma item_tally self total i source_path v :
  total <> 0 ->
  exists p v', PyNum.percent (i + 1) total = Some p /\
    item self total i source_path v = ([Progress p], v', Next) /\
    reads v' = reads v /\ tally v' = tally v + 1 /\
    success_count v <= success_count v'.
Proof.
  intros Ht. unfold item.
  repeat match goal with
  | |- context [if ?b then _ else _] => destruct b
  | |- context [match perform ?a ?b ?c ?d with _ => _ end] => destruct (perform a b c d)
  end;
  match goal with
  | |- context [emit_progress i total ?v0] =>
      destruct (emit_progress_defined i total v0 Ht) as (p & Hp & ->);
      exists p, v0; unfold tally, add_error; cbn [success_count errors reads];
      rewrite ?length_app; cbn [length];
      repeat split; try assumption; try reflexivity; lia
  end.
Qed.

Lemma items_tally self cancel_at total i rest v :
  total <> 0 ->
  exists ps v',
    items self cancel_at total i rest v = (Progress <$> ps, v', Next) /\
    length ps = handled cancel_at (reads v) (length rest) /\
    tally v' = tally v + Z.of_nat (length ps) /\
    success_count v <= success_count v' /\
    Some <$> ps = (fun j => PyNum.percent (i + Z.of_nat j + 1) total) <$> seq 0 (length ps).
Proof.
  intros Ht. revert i v. induction rest as [|source_path rest IH]; intros i v.
  - exists [], v. unfold handled. destruct cancel_at; cbn; repeat split; try lia; reflexivity.
  - cbn [items]. destruct (Cancel.is_cancelled cancel_at (reads v)) eqn:Hc.
    + eexists [], _. split; [reflexivity|]. unfold handled, Cancel.is_cancelled in *.
      destruct cancel_at as [k|]; [|discriminate]. apply Nat.leb_le in Hc.
      cbn [length seq fmap list_fmap reads success_count].
      split; [lia|]. split; [unfold tally; cbn; lia|]. split; [lia|reflexivity].
    + match goal with |- context [item self total i source_path ?v0] =>
        destruct (item_tally self total i source_path v0 Ht)
          as (p & v1 & Hp & -> & Hr & Ht1 & Hs1) end.
      destruct (IH (i + 1) v1) as (ps & v2 & -> & Hlen & Ht2 & Hs2 & Hps).
      exists (p :: ps), v2. split; [reflexivity|]. cbn [length reads] in *.
      split; [|split; [|split]].
      * rewrite Hlen, Hr. unfold handled, Cancel.is_cancelled in *.
        destruct cancel_at as [k|]; [|reflexivity]. apply Nat.leb_gt in Hc. lia.
      * rewrite Ht2, Ht1. unfold tally. cbn. lia.
      * cbn [success_count] in Hs1. lia.
      * cbn [seq fmap list_fmap]. rewrite <- seq_shift, <- list_fmap_compose.
        f_equal; [rewrite <- Hp; f_equal; lia|].
        change (Some <$> ps) with (list_fmap _ _ Some ps) in Hps.
        etransitivity; [exact Hps|]. apply list_fmap_ext. intros _ j _. cbn. f_equal. lia.
Qed.

(** The shape of every run whose destination is a directory. *)
Lemma run_events_shape self w c :
  FS.isdir w (destination_dir self) = true ->
  exists ps success errs,
    (run self w c).1 = (Progress <$> ps) ++ [Result success errs (operation self); Finished] /\
    length ps = handled c 0 (length (source_paths self)) /\
    success + Z.of_nat (length errs) = Z.of_nat (length ps) /\
    0 <= success /\
    Some <$> ps
      = (fun j => PyNum.percent (Z.of_nat j + 1) (Z.of_nat (length (source_paths self))))
          <$> seq 0 (length ps).
Proof.
  intros Hd. unfold run. rewrite Hd. cbn [negb].
  destruct (Z.eq_dec (Z.of_nat (length (source_paths self))) 0) as [E|Hne].
  - destruct (source_paths self); [|simpl in E; lia].
    exists [], 0, []. unfold handled. destruct c; cbn; repeat split; try lia; reflexivity.
  - destruct (items_tally self c _ 0 (source_paths self)
                {| files := w; reads := 0; errors := []; success_count := 0 |} Hne)
      as (ps & v' & -> & Hlen & Ht & Hs & Hps).
    exists ps, (success_count v'), (errors v'). cbn [fst reads] in *.
    split; [reflexivity|]. split; [exact Hlen|]. unfold tally in Ht. cbn in Ht, Hs.
    split; [lia|]. split; [lia|exact Hps].
Qed.

(** X1.  Whenever a run emits a [result], every source item that was
    handled is counted once, as a success or as an error: the count of
    successes plus the number of errors is the number of progress events,
    and without cancellation that is the number of source paths.  No error
    ends the batch. *)
Theorem every_item_is_counted_once self w c success errs op :
  Result success errs op ∈ (run self w c).1 ->
  success + Z.of_nat (length errs) = Z.of_nat (length (progress_values (run self w c).1)) /\
  0 <= success /\
  (c = None -> success + Z.of_nat (length errs) = Z.of_nat (length (source_paths self))).
Proof.
  intros Hin. destruct (FS.isdir w (destination_dir self)) eqn:Hd.
  - destruct (run_events_shape self w c Hd) as (ps & s & es & E & Hlen & Ht & Hs & _).
    rewrite E in Hin |- *.
    assert (Hpv : progress_values ((Progress <$> ps) ++ [Result s es (operation self); Finished])
                  = ps).
    { rewrite progress_values_app. cbn. rewrite app_nil_r.
      clear. induction ps as [|p ps IH]; [reflexivity|].
      unfold progress_values in *. cbn. rewrite IH. reflexivity. }
    rewrite Hpv. apply elem_of_app in Hin as [Hin|Hin].
    + apply list_elem_of_fmap in Hin as (p & Hp & _). discriminate.
    + apply elem_of_cons in Hin as [Hin|Hin].
      * injection Hin as -> -> ->. split; [exact Ht|]. split; [exact Hs|].
        intros ->. rewrite Ht, Hlen. reflexivity.
      * apply list_elem_of_singleton in Hin. discriminate.
  - unfold run in Hin. rewrite Hd in Hin. cbn in Hin.
    apply list_elem_of_singleton in Hin. discriminate.
Qed.

Definition copy_three : worker :=
  {| source_paths := ["/src/a.txt"; "/gone"; "/src"]; destination_dir := "/src/sub";
     operation := "copy" |}.

Lemma every_item_is_counted_once_witness :
  1 + Z.of_nat (length ["gone: Source no longer exists";
                        "src: Cannot copy to itself or subdirectory"]) = 3.
Proof.
  destruct (every_item_is_counted_once copy_three example_fs None 1
              ["gone: Source no longer exists"; "src: Cannot copy to itself or subdirectory"]
              "copy") as (_ & _ & H).
  - vm_compute. do 3 apply list_elem_of_further. apply list_elem_of_here.
  - exact (H eq_refl).
Defined.

(** X2.  The flag is read once before each item.  When the first [k] reads
    see it unset, the run handles the first [min k n] of its [n] items,
    emits their percentages, and then still emits the [result] of these
    items and [finished]. *)
Theorem cancelled_run_reports_what_was_done self w (k : nat) :
  FS.isdir w (destination_dir self) = true ->
  let n := length (source_paths self) in
  exists ps success errs,
    (run self w (Some k)).1
      = (Progress <$> ps) ++ [Result success errs (operation self); Finished] /\
    length ps = Nat.min n k /\
    success + Z.of_nat (length errs) = Z.of_nat (Nat.min n k) /\
    Some <$> ps = (fun j => PyNum.percent (Z.of_nat j + 1) (Z.of_nat n)) <$> seq 0 (Nat.min n k).
Proof.
  intros Hd n.
  destruct (run_events_shape self w (Some k) Hd) as (ps & s & es & E & Hlen & Ht & _ & Hps).
  unfold handled in Hlen. rewrite Nat.sub_0_r in Hlen. fold n in Hlen, Hps.
  exists ps, s, es. rewrite <- Hlen. repeat split; assumption.
Qed.

Lemma cancelled_run_witness :
  exists ps success errs,
    (run copy_three example_fs (Some 2%nat)).1
      = (Progress <$> ps) ++ [Result success errs "copy"; Finished] /\
    length ps = 2%nat /\
    success + Z.of_nat (length errs) = 2.
Proof.
  destruct (cancelled_run_reports_what_was_done copy_three example_fs 2)
    as (ps & s & es & E & Hl & Ht & _); [vm_compute; reflexivity|].
  exists ps, s, es. repeat split; assumption.
Defined.

End FileOperationMore.

Module FileOperationFiles.
Import PyNumFacts StrFacts PathFacts ConflictFacts FileOperationWorker FileOperationFacts.

(** X3.  The loop over the names [name_copy_N ext] ends, after at most as
    many names as the file system has entries, and the destination path it
    leaves is the first tested path that does not exist: an item is never
    written over an existing entry of the destination directory. *)
Theorem destination_path_is_free w destination_dir source_path :
  exists n : nat,
    (n <= S (size w))%nat /\
    resolve_conflict w destination_dir (Path.basename source_path)
      = tested destination_dir (Path.basename source_path) n /\
    FS.exists_ w (resolve_conflict w destination_dir (Path.basename source_path)) = false /\
    forall j : nat, (j < n)%nat ->
      FS.exists_ w (tested destination_dir (Path.basename source_path) j) = true.
Proof.
  destruct (resolve_conflict_fresh w destination_dir (Path.basename source_path)
              (basename_sep_free source_path)) as (n & Hn & E & Hfree & Hbelow).
  exists n. rewrite E. repeat split; assumption.
Qed.

(** *** Copies of files *)

(** A path that starts with one [/] and that [os.path.normpath] leaves as
    it is: it has no [.] or [..] component, no doubled and no trailing
    separator, so that the entry it names does not depend on what the
    directories on its way are. *)
Definition plain_path (p : string) : bool :=
  String.eqb (Path.normpath p) p && Str.startswith p "/" && negb (Str.startswith p "//").

(** What holds of the file system [wv] after some items of a batch that
    copies files of [w]: nothing of [w] is changed, and every other entry is
    a copy of a source file. *)
Definition copies_of (sources : list string) (w wv : FS.fs) (success : Z) : Prop :=
  w ⊆ wv /\
  Z.of_nat (size wv) = Z.of_nat (size w) + success /\
  forall k n, wv !! k = Some n -> w !! k = None ->
    exists content p, n = FS.File content /\ p ∈ sources /\
                      FS.lookup w p = Some (FS.File content).

Lemma copies_of_source sources w wv success p n :
  copies_of sources w wv success ->
  FS.lookup wv p = Some n ->
  FS.lookup w p = Some n \/
  exists content p', n = FS.File content /\ p' ∈ sources /\
                     FS.lookup w p' = Some (FS.File content).
Proof.
  intros (Hsub & _ & Hnew) Hn. unfold FS.lookup in *.
  destruct (w !! Path.normpath p) as [n'|] eqn:E.
  - left. rewrite (lookup_weaken _ _ _ _ E Hsub) in Hn. exact Hn.
  - right. exact (Hnew _ _ Hn E).
Qed.

Lemma copies_of_not_dir sources w wv success p :
  copies_of sources w wv success ->
  FS.isdir w p = false -> FS.isdir wv p = false.
Proof.
  intros Hc Hd. unfold FS.isdir in *.
  destruct (FS.lookup wv p) as [n|] eqn:E; [|reflexivity].
  destruct (copies_of_source _ _ _ _ _ _ Hc E) as [E'|(content & _ & -> & _)];
    [|reflexivity].
  rewrite E' in Hd. exact Hd.
Qed.

Lemma item_copies self sources w total i source_path v :
  total <> 0 -> operation self = "copy" ->
  source_path ∈ sources -> FS.isdir w source_path = false ->
  copies_of sources w (files v) (success_count v) ->
  exists p v',
    item self total i source_path v = ([Progress p], v', Next) /\
    reads v' = reads v /\
    copies_of sources w (files v') (success_count v').
Proof.
  intros Ht Hop Hin Hd Hc. unfold item.
  destruct (negb (FS.exists_ (files v) source_path)).
  { match goal with |- context [emit_progress i total ?v0] =>
      destruct (emit_progress_defined i total v0 Ht) as (p & _ & ->); exists p, v0 end.
    repeat split; try reflexivity; apply Hc. }
  destruct (to_itself_or_subdirectory _ _).
  { match goal with |- context [emit_progress i total ?v0] =>
      destruct (emit_progress_defined i total v0 Ht) as (p & _ & ->); exists p, v0 end.
    repeat split; try reflexivity; apply Hc. }
  destruct (resolve_conflict_fresh (files v) (destination_dir self) (Path.basename source_path)
              (basename_sep_free source_path)) as (n0 & _ & Eres & Hfree & _).
  rewrite <- Eres in Hfree. clear Eres n0.
  set (destination_path := resolve_conflict _ _ _) in *.
  unfold perform. rewrite Hop. cbn [String.eqb Ascii.eqb Bool.eqb].
  rewrite (copies_of_not_dir _ _ _ _ _ Hc Hd).
  unfold FS.copy2.
  assert (Hnone : FS.lookup (files v) destination_path = None).
  { unfold FS.exists_ in Hfree. destruct (FS.lookup _ _); [discriminate|reflexivity]. }
  unfold FS.isdir at 1. rewrite Hnone.
  destruct (FS.lookup (files v) source_path) as [[content|]|] eqn:Es.
  - match goal with |- context [emit_progress i total ?v0] =>
      destruct (emit_progress_defined i total v0 Ht) as (p & _ & ->); exists p, v0 end.
    split; [reflexivity|]. split; [reflexivity|]. cbn [files success_count].
    destruct Hc as (Hsub & Hsize & Hnew). unfold FS.lookup in Hnone.
    split; [|split].
    + etransitivity; [exact Hsub|]. apply insert_subseteq. exact Hnone.
    + rewrite map_size_insert_None by exact Hnone. lia.
    + intros k n Hk Hw. destruct (decide (k = Path.normpath destination_path)) as [->|Hne].
      * rewrite lookup_insert_eq in Hk. injection Hk as <-.
        destruct (copies_of_source sources w (files v) (success_count v) source_path
                    (FS.File content) (conj Hsub (conj Hsize Hnew)) Es)
          as [E|(content' & p' & [= <-] & Hp' & E)].
        -- exists content, source_path. repeat split; assumption.
        -- exists content, p'. repeat split; assumption.
      * rewrite lookup_insert_ne in Hk by congruence. exact (Hnew _ _ Hk Hw).
  - match goal with |- context [emit_progress i total ?v0] =>
      destruct (emit_progress_defined i total v0 Ht) as (p & _ & ->); exists p, v0 end.
    repeat split; try reflexivity; apply Hc.
  - match goal with |- context [emit_progress i total ?v0] =>
      destruct (emit_progress_defined i total v0 Ht) as (p & _ & ->); exists p, v0 end.
    repeat split; try reflexivity; apply Hc.
Qed.

Lemma items_copies self sources w c total i rest v :
  total <> 0 -> operation self = "copy" ->
  rest ⊆ sources -> Forall (fun p => FS.isdir w p = false) rest ->
  copies_of sources w (files v) (success_count v) ->
  exists ps v',
    items self c total i rest v = (Progress <$> ps, v', Next) /\
    copies_of sources w (files v') (success_count v').
Proof.
  intros Ht Hop. revert i v. induction rest as [|source_path rest IH]; intros i v Hsub Hd Hc.
  - exists [], v. split; [reflexivity|exact Hc].
  - cbn [items]. destruct (Cancel.is_cancelled c (reads v)).
    { eexists [], _. split; [reflexivity|exact Hc]. }
    apply Forall_cons in Hd as [Hd Hds].
    match goal with |- context [item self total i source_path ?v0] =>
      destruct (item_copies self sources w total i source_path v0 Ht Hop)
        as (p & v1 & -> & _ & Hc1) end.
    + apply Hsub. apply list_elem_of_here.
    + exact Hd.
    + exact Hc.
    + destruct (IH (i + 1) v1) as (ps & v2 & -> & Hc2); [|exact Hds|exact Hc1|].
      * intros x Hx. apply Hsub. apply list_elem_of_further. exact Hx.
      * exists (p :: ps), v2. split; [reflexivity|exact Hc2].
Qed.

(** X4.  Take a batch that copies files (no source is a directory) whose
    sources and destination directory are plain paths.  Every entry of the
    file system is left as it was.  When the [result] event lists no error,
    the file system has as many new entries as the event counts successes,
    and each new entry is a file with the content that one of the sources
    had when the run started. *)
Theorem copying_files_changes_no_entry self w c :
  operation self = "copy" ->
  Forall (fun p => plain_path p = true) (destination_dir self :: source_paths self) ->
  Forall (fun p => FS.isdir w p = false) (source_paths self) ->
  w ⊆ (run self w c).2 /\
  (forall success op, Result success [] op ∈ (run self w c).1 ->
     Z.of_nat (size (run self w c).2) = Z.of_nat (size w) + success /\
     forall k n, (run self w c).2 !! k = Some n -> w !! k = None ->
       exists content p, n = FS.File content /\ p ∈ source_paths self /\
                         FS.lookup w p = Some (FS.File content)).
Proof.
  intros Hop _ Hd.
  assert (H0 : copies_of (source_paths self) w w 0).
  { split; [reflexivity|]. split; [lia|]. intros k n Hk Hw. congruence. }
  unfold run. destruct (negb (FS.isdir w (destination_dir self))).
  { cbn [fst snd]. split; [reflexivity|].
    intros s o Hin. apply list_elem_of_singleton in Hin. discriminate. }
  destruct (Z.eq_dec (Z.of_nat (length (source_paths self))) 0) as [E|Hne].
  { destruct (source_paths self); [|simpl in E; lia]. cbn [items fst snd files].
    split; [reflexivity|].
    intros s o Hin. apply elem_of_cons in Hin as [[= -> _]|Hin].
    - split; [lia|]. intros k n Hk Hw. congruence.
    - apply list_elem_of_singleton in Hin. discriminate. }
  destruct (items_copies self (source_paths self) w c _ 0 (source_paths self)
              {| files := w; reads := 0; errors := []; success_count := 0 |} Hne Hop)
    as (ps & v' & -> & Hsub & Hsize & Hnew); [reflexivity|exact Hd|exact H0|].
  cbn [fst snd]. split; [exact Hsub|].
  intros s o Hin. apply elem_of_app in Hin as [Hin|Hin].
  { apply list_elem_of_fmap in Hin as (p & Hp & _). discriminate. }
  apply elem_of_cons in Hin as [[= -> _ _]|Hin]; [split; [exact Hsize|exact Hnew]|].
  apply list_elem_of_singleton in Hin. discriminate.
Qed.

Lemma copying_files_witness :
  example_fs ⊆ (run copy_twice example_fs None).2 /\
  Z.of_nat (size (run copy_twice example_fs None).2) = Z.of_nat (size example_fs) + 2.
Proof.
  destruct (copying_files_changes_no_entry copy_twice example_fs None) as (H1 & H2).
  - reflexivity.
  - repeat constructor.
  - repeat constructor.
  - split; [exact H1|]. apply (H2 2 "copy").
    vm_compute. do 2 apply list_elem_of_further. apply list_elem_of_here.
Defined.

(** *** An operation that is neither [copy] nor [move] *)

Lemma items_other_operation self c total i rest v :
  total <> 0 -> operation self <> "copy" -> operation self <> "move" ->
  exists ps v',
    items self c total i rest v = (Progress <$> ps, v', Next) /\
    files v' = files v /\
    (c = None ->
     success_count v' = success_count v +
       Z.of_nat (length (filter (fun p => FS.exists_ (files v) p = true /\
                   to_itself_or_subdirectory p (destination_dir self) = false) rest))).
Proof.
  intros Ht Hc Hm. revert i v. induction rest as [|source_path rest IH]; intros i v.
  - exists [], v. split; [reflexivity|]. split; [reflexivity|]. intros _. cbn. lia.
  - cbn [items]. destruct (Cancel.is_cancelled c (reads v)) eqn:Ecan.
    { eexists [], _. split; [reflexivity|]. split; [reflexivity|].
      intros ->. discriminate. }
    set (v0 := {| files := files v; reads := S (reads v); errors := errors v;
                  success_count := success_count v |}).
    assert (Hitem : exists p v1, item self total i source_path v0 = ([Progress p], v1, Next) /\
              files v1 = files v /\
              success_count v1 = success_count v +
                (if decide (FS.exists_ (files v) source_path = true /\
                     to_itself_or_subdirectory source_path (destination_dir self) = false)
                 then 1 else 0)).
    { unfold item. cbn [files v0].
      destruct (FS.exists_ (files v) source_path) eqn:Ex; cbn [negb].
      2:{ match goal with |- context [emit_progress i total ?v1] =>
            destruct (emit_progress_defined i total v1 Ht) as (p & _ & ->); exists p, v1 end.
          repeat split; cbn [success_count add_error];
            destruct (decide _) as [[? ?]|?]; try discriminate; unfold v0; cbn; lia. }
      destruct (to_itself_or_subdirectory _ _) eqn:Eg.
      { match goal with |- context [emit_progress i total ?v1] =>
            destruct (emit_progress_defined i total v1 Ht) as (p & _ & ->); exists p, v1 end.
          repeat split; cbn [success_count add_error];
            destruct (decide _) as [[? ?]|?]; try discriminate; unfold v0; cbn; lia. }
      unfold perform.
      rewrite (proj2 (String.eqb_neq _ _) Hc), (proj2 (String.eqb_neq _ _) Hm).
      match goal with |- context [emit_progress i total ?v1] =>
            destruct (emit_progress_defined i total v1 Ht) as (p & _ & ->); exists p, v1 end.
      repeat split. }
    destruct Hitem as (p & v1 & -> & Hf1 & Hs1).
    destruct (IH (i + 1) v1) as (ps & v2 & -> & Hf2 & Hs2).
    exists (p :: ps), v2. split; [reflexivity|]. split; [congruence|].
    intros Hnone. rewrite (Hs2 Hnone), Hs1, Hf1. rewrite filter_cons.
    destruct (decide _); cbn [length]; lia.
Qed.

(** X5.  With an operation that is neither [copy] nor [move] the loop
    calls nothing of [shutil]: the file system is left as it was, whatever
    the sources, and an item whose source exists and passes the guard is
    still counted as a success. *)
Theorem other_operation_changes_nothing self w c :
  operation self <> "copy" -> operation self <> "move" ->
  (run self w c).2 = w /\
  (forall success errs op, Result success errs op ∈ (run self w c).1 -> c = None ->
     success = Z.of_nat (length (filter (fun p => FS.exists_ w p = true /\
                 to_itself_or_subdirectory p (destination_dir self) = false)
                 (source_paths self)))).
Proof.
  intros Hc Hm. unfold run. destruct (negb (FS.isdir w (destination_dir self))).
  { cbn [fst snd]. split; [reflexivity|].
    intros s e o Hin. apply list_elem_of_singleton in Hin. discriminate. }
  destruct (Z.eq_dec (Z.of_nat (length (source_paths self))) 0) as [E|Hne].
  { destruct (source_paths self); [|simpl in E; lia]. cbn [items fst snd files].
    split; [reflexivity|].
    intros s e o Hin _. apply elem_of_cons in Hin as [[= -> _ _]|Hin]; [reflexivity|].
    apply list_elem_of_singleton in Hin. discriminate. }
  destruct (items_other_operation self c _ 0 (source_paths self)
              {| files := w; reads := 0; errors := []; success_count := 0 |} Hne Hc Hm)
    as (ps & v' & -> & Hf & Hs).
  cbn [fst snd files success_count] in *. split; [exact Hf|].
  intros s e o Hin Hnone. apply elem_of_app in Hin as [Hin|Hin].
  { apply list_elem_of_fmap in Hin as (p & Hp & _). discriminate. }
  apply elem_of_cons in Hin as [[= -> _ _]|Hin]; [rewrite (Hs Hnone); lia|].
  apply list_elem_of_singleton in Hin. discriminate.
Qed.

Definition link_three : worker :=
  {| source_paths := ["/src/a.txt"; "/gone"; "/src"]; destination_dir := "/src/sub";
     operation := "link" |}.

Lemma other_operation_witness :
  (run link_three example_fs None).2 = example_fs /\
  Result 1 ["gone: Source no longer exists"; "src: Cannot link to itself or subdirectory"]
    "link" ∈ (run link_three example_fs None).1.
Proof.
  split.
  - apply (other_operation_changes_nothing link_three example_fs None); discriminate.
  - vm_compute. do 3 apply list_elem_of_further. apply list_elem_of_here.
Defined.

End FileOperationFiles.

(** ** The search worker: what is found *)

Module SearchMatches.
Import SearchWorker SearchFacts.

(** [str.isascii]: every character is below 128.  On such a string
    [str.lower] changes the letters [A] to [Z] and nothing else. *)
Fixpoint isascii (s : string) : bool :=
  match s with
  | EmptyString => true
  | String c s' => (nat_of_ascii c <? 128)%nat && isascii s'
  end.

(** Every name of the walk is made of ASCII characters. *)
Definition ascii_names (l : list triple) : bool :=
  forallb (fun t => forallb (fun e => isascii (name e)) (dir_names t ++ file_names t)) l.

(** A name is reported when handling it does not raise, its lower-case
    form contains the query, and the joined path exists. *)
Definition matching (self : worker) (e : entry) : bool :=
  negb (raises e) && Str.contains (Str.lower (name e)) (query self) && present e.

Definition found_in (self : worker) (root : string) (l : list entry) : list string :=
  List.map (fun e => Path.join root (name e)) (List.filter (matching self) l).

(** The matches of one directory: its sub-directories, then its files. *)
Definition found_at (self : worker) (t : triple) : list string :=
  if root_exists t
  then found_in self (root t) (dir_names t) ++ found_in self (root t) (file_names t)
  else [].

Definition all_found (self : worker) (l : list triple) : list string :=
  flat_map (found_at self) l.

(** The directories that still exist when their turn comes. *)
Definition existing (l : list triple) : list triple :=
  List.filter root_exists l.

(** The percentages of the directories [first + 1 .. first + n], one for
    each multiple of five. *)
Definition every_fifth (first n : nat) : list Z :=
  omap (fun j : nat => let processed := Z.of_nat j in
                       if processed mod 5 =? 0 then Some (Z.min (processed * 2) 95) else None)
       (seq (S first) n).

Definition stopped (c : option nat) (v : vars) : Prop :=
  Cancel.is_cancelled c (reads v) = true.

Lemma stopped_later c v v' : (reads v <= reads v')%nat -> stopped c v -> stopped c v'.
Proof.
  unfold stopped, Cancel.is_cancelled. destruct c as [k|]; [|discriminate].
  rewrite !Nat.leb_le. lia.
Qed.

Lemma found_in_cons self root e l :
  found_in self root (e :: l)
  = if matching self e then Path.join root (name e) :: found_in self root l
    else found_in self root l.
Proof. unfold found_in. cbn [List.filter]. destruct (matching self e); reflexivity. Qed.

Lemma names_stopped self c root l v :
  stopped c v ->
  matches (names self c root l v) = matches v /\
  processed (names self c root l v) = processed v /\
  stopped c (names self c root l v).
Proof.
  intros Hs. destruct l as [|e l]; cbn [names]; [repeat split; exact Hs|].
  unfold stopped in Hs. rewrite Hs. split; [reflexivity|]. split; [reflexivity|].
  apply (stopped_later c v); [simpl; lia|exact Hs].
Qed.

Lemma names_matches self c root l v :
  exists k,
    matches (names self c root l v) = matches v ++ k /\
    processed (names self c root l v) = processed v /\
    (k = found_in self root l \/
     (k `prefix_of` found_in self root l /\ stopped c (names self c root l v))).
Proof.
  revert v. induction l as [|e l IH]; intros v; cbn [names].
  - exists []. rewrite app_nil_r. split; [reflexivity|]. split; [reflexivity|].
    left. reflexivity.
  - destruct (Cancel.is_cancelled c (reads v)) eqn:Ec.
    { exists []. cbn [read_flag matches processed]. rewrite app_nil_r.
      split; [reflexivity|]. split; [reflexivity|]. right. split; [apply prefix_nil|].
      apply (stopped_later c v); [simpl; lia|exact Ec]. }
    rewrite found_in_cons. unfold matching.
    destruct (raises e); cbn [negb andb].
    { match goal with |- context [names self c root l ?v0] =>
        destruct (IH v0) as (k & Hm & Hp & Hk) end.
      exists k. split; [exact Hm|]. split; [exact Hp|exact Hk]. }
    destruct (_ && _).
    + match goal with |- context [names self c root l ?v0] =>
        destruct (IH v0) as (k & Hm & Hp & Hk) end.
      exists (Path.join root (name e) :: k). cbn [matches processed] in *.
      rewrite <- app_assoc in Hm. split; [exact Hm|]. split; [exact Hp|].
      destruct Hk as [->|[Hk Hs]]; [left; reflexivity|right].
      split; [apply (prefix_app [_]), Hk|exact Hs].
    + match goal with |- context [names self c root l ?v0] =>
        destruct (IH v0) as (k & Hm & Hp & Hk) end.
      exists k. split; [exact Hm|]. split; [exact Hp|exact Hk].
Qed.

(** One directory that exists: its sub-directories, then its files. *)
Lemma triple_matches self c t v :
  let v2 := names self c (root t) (file_names t) (names self c (root t) (dir_names t) v) in
  exists k,
    matches v2 = matches v ++ k /\ processed v2 = processed v /\
    (k = found_in self (root t) (dir_names t) ++ found_in self (root t) (file_names t) \/
     (k `prefix_of` found_in self (root t) (dir_names t) ++ found_in self (root t) (file_names t)
      /\ stopped c v2)).
Proof.
  intros v2. subst v2.
  destruct (names_matches self c (root t) (dir_names t) v) as (k1 & Hm1 & Hp1 & Hk1).
  set (v1 := names self c (root t) (dir_names t) v) in *.
  destruct Hk1 as [->|[Hk1 Hs1]].
  - destruct (names_matches self c (root t) (file_names t) v1) as (k2 & Hm2 & Hp2 & Hk2).
    eexists (_ ++ k2). rewrite Hm2, Hm1, Hp2, Hp1, app_assoc.
    split; [reflexivity|]. split; [reflexivity|].
    destruct Hk2 as [->|[Hk2 Hs2]]; [left; reflexivity|right].
    split; [apply prefix_app, Hk2|exact Hs2].
  - destruct (names_stopped self c (root t) (file_names t) v1 Hs1) as (Hm2 & Hp2 & Hs2).
    exists k1. rewrite Hm2, Hm1, Hp2, Hp1.
    split; [reflexivity|]. split; [reflexivity|]. right.
    split; [apply prefix_app_r, Hk1|exact Hs2].
Qed.

Lemma walk_loop_stopped self c l v :
  stopped c v ->
  (walk_loop self c l v).1 = [] /\
  matches (walk_loop self c l v).2 = matches v /\
  processed (walk_loop self c l v).2 = processed v.
Proof.
  intros Hs. destruct l as [|t l]; cbn [walk_loop]; [repeat split|].
  unfold stopped in Hs. rewrite Hs. repeat split.
Qed.

Lemma every_fifth_step (p : Z) (n : nat) :
  0 <= p ->
  every_fifth (Z.to_nat p) (S n)
  = (if (p + 1) mod 5 =? 0 then [Z.min ((p + 1) * 2) 95] else [])
      ++ every_fifth (Z.to_nat (p + 1)) n.
Proof.
  intros Hp. unfold every_fifth. cbn [seq omap list_omap].
  replace (Z.of_nat (S (Z.to_nat p))) with (p + 1) by lia.
  replace (Z.to_nat (p + 1)) with (S (Z.to_nat p)) by lia.
  cbn zeta. destruct (_ =? 0); reflexivity.
Qed.

(** The loop over the directories: the matches grow by a prefix of what
    the directories hold, the events are the percentages of the directories
    handled, and the whole is found when nothing stops the loop. *)
Lemma walk_loop_matches self c l v :
  0 <= processed v ->
  exists k (n : nat),
    (walk_loop self c l v).1 = Progress <$> every_fifth (Z.to_nat (processed v)) n /\
    matches (walk_loop self c l v).2 = matches v ++ k /\
    processed (walk_loop self c l v).2 = processed v + Z.of_nat n /\
    (n <= length (existing l))%nat /\
    k `prefix_of` all_found self l /\
    (c = None ->
     (length (matches v) + length (all_found self l) <= 200)%nat ->
     processed v + Z.of_nat (length (existing l)) <= 2000 ->
     k = all_found self l /\ n = length (existing l)).
Proof.
  revert v. induction l as [|t l IH]; intros v H0.
  - exists [], 0%nat. cbn [walk_loop fst snd]. rewrite app_nil_r, Z.add_0_r.
    split; [reflexivity|]. split; [reflexivity|]. split; [reflexivity|].
    split; [reflexivity|]. split; [apply prefix_nil|]. intros _ _ _. split; reflexivity.
  - destruct (Cancel.is_cancelled c (reads v)) eqn:Ec.
    { destruct (walk_loop_stopped self c (t :: l) v Ec) as (E1 & E2 & E3).
      exists [], 0%nat. rewrite E1, E2, E3, app_nil_r, Z.add_0_r.
      split; [reflexivity|]. split; [reflexivity|]. split; [reflexivity|].
      split; [lia|]. split; [apply prefix_nil|]. intros ->. discriminate. }
    cbn [walk_loop]. rewrite Ec.
    unfold existing, all_found. cbn [flat_map List.filter]. fold (all_found self l).
    fold (existing l). unfold found_at.
    destruct (root_exists t); cbn [negb].
    2:{ destruct (IH (read_flag v) H0) as (k & n & E & Hm & Hp & Hn & Hk & Hall).
        cbn [read_flag matches processed] in E, Hm, Hp, Hall.
        exists k, n. cbn [app]. repeat split; try assumption; apply Hall; assumption. }
    destruct (triple_matches self c t (read_flag v)) as (K & Hm & Hp & HK).
    cbn zeta in Hm, Hp, HK. cbn [read_flag matches processed] in Hm, Hp.
    set (v2 := names self c (root t) (file_names t) _) in *.
    assert (HKpre : K `prefix_of`
              found_in self (root t) (dir_names t) ++ found_in self (root t) (file_names t)).
    { destruct HK as [->|[HK _]]; [reflexivity|exact HK]. }
    cbn [matches processed].
    set (v3 := {| matches := matches v2; processed := processed v2 + 1;
                  total_processed := total_processed v2; reads := reads v2 |}).
    destruct (_ || _) eqn:Elim.
    + exists K, 1%nat. unfold v3. cbn [fst snd matches processed].
      rewrite (every_fifth_step (processed v) 0 H0), Hp. unfold every_fifth at 1.
      cbn [seq omap list_omap]. rewrite app_nil_r.
      split; [destruct (_ =? 0); reflexivity|]. split; [exact Hm|]. split; [lia|].
      split; [cbn [length]; lia|]. split; [apply prefix_app_r, HKpre|].
      intros Hc Hlen Hdirs. exfalso. apply orb_true_iff in Elim as [E|E].
      * apply Z.ltb_lt in E. rewrite Hm in E. rewrite !length_app in *.
        destruct HKpre as [r Er]. apply (f_equal length) in Er. rewrite !length_app in Er.
        lia.
      * apply Z.ltb_lt in E. cbn [length] in Hdirs. lia.
    + destruct (IH v3) as (k & n & E & Hm' & Hp' & Hn & Hk & Hall); [unfold v3; cbn; lia|].
      fold v3. destruct (walk_loop self c l v3) as [evs' v'] eqn:Ew. cbn [fst snd] in *.
      subst evs'. unfold v3 in Hm', Hp'. cbn [matches processed] in Hm', Hp'.
      exists (K ++ k), (S n). split.
      { rewrite (every_fifth_step (processed v) n H0), fmap_app, Hp. f_equal.
        - destruct (_ =? 0); reflexivity.
        - unfold v3. cbn [processed]. rewrite Hp. reflexivity. }
      split; [rewrite Hm', Hm, app_assoc; reflexivity|]. split; [lia|].
      split; [cbn [length]; lia|]. split.
      { destruct HK as [->|[_ Hs]]; [apply prefix_app, Hk|].
        destruct (walk_loop_stopped self c l v3 Hs) as (_ & E2 & _).
        rewrite Ew in E2. cbn [snd] in E2. unfold v3 in E2. cbn [matches] in E2.
        rewrite Hm', Hm in E2.
        assert (k = []) as ->.
        { apply (f_equal length) in E2. rewrite !length_app in E2.
          destruct k; [reflexivity|simpl in E2; lia]. }
        rewrite app_nil_r. apply prefix_app_r, HKpre. }
      intros Hc Hlen Hdirs. cbn [length] in Hdirs. rewrite !length_app in Hlen.
      subst c. destruct HK as [->|[_ Hs]]; [|discriminate Hs].
      rewrite ?length_app in Hlen.
      destruct (Hall eq_refl) as [-> ->].
      * unfold v3. cbn [matches]. rewrite Hm, !length_app. lia.
      * unfold v3. cbn [processed]. lia.
      * split; reflexivity.
Qed.

(** X6.  Take a search in a tree whose names are all made of ASCII
    characters.  Every run emits the percentages of the directories it
    handled ([min(2 * processed, 95)] at each multiple of five), then one
    [result], [progress(100)] and [finished].  The matches are a prefix of
    what the walk holds, directory after directory, the sub-directories of
    a directory before its files: each match is a name in a directory that
    still exists, joined to that directory, whose lower-case form contains
    the query and whose path exists. *)
Theorem matches_are_names_that_contain_the_query self w :
  let top := Path.normpath (abspath (cwd w) (root_path self)) in
  ascii_names (walk top (root_tree w)) = true ->
  exists (n : nat) m,
    (run self w).1
      = (Progress <$> every_fifth 0 n) ++ [Result m; Progress 100; Finished] /\
    processed (run self w).2 = Z.of_nat n /\
    (n <= length (existing (walk top (root_tree w))))%nat /\
    m `prefix_of` all_found self (walk top (root_tree w)) /\
    forall x, x ∈ m ->
      exists t e, t ∈ walk top (root_tree w) /\ root_exists t = true /\
        e ∈ dir_names t ++ file_names t /\ x = Path.join (root t) (name e) /\
        Str.contains (Str.lower (name e)) (query self) = true /\ present e = true.
Proof.
  intros top _.
  assert (Hmem : forall m, m `prefix_of` all_found self (walk top (root_tree w)) ->
            forall x, x ∈ m ->
      exists t e, t ∈ walk top (root_tree w) /\ root_exists t = true /\
        e ∈ dir_names t ++ file_names t /\ x = Path.join (root t) (name e) /\
        Str.contains (Str.lower (name e)) (query self) = true /\ present e = true).
  { intros m [r Hr] x Hx.
    assert (Hin : In x (all_found self (walk top (root_tree w)))).
    { rewrite Hr. apply in_or_app. left. apply list_elem_of_In, Hx. }
    unfold all_found in Hin. apply in_flat_map in Hin as (t & Ht & Hin).
    unfold found_at in Hin. destruct (root_exists t) eqn:Ex; [|destruct Hin].
    assert (He : exists e, In e (dir_names t ++ file_names t) /\ matching self e = true /\
                           x = Path.join (root t) (name e)).
    { apply in_app_or in Hin. unfold found_in in Hin.
      destruct Hin as [Hin|Hin]; apply in_map_iff in Hin as (e & <- & He);
        apply filter_In in He as [He Hmatch]; exists e;
        (split; [apply in_or_app; auto|split; [exact Hmatch|reflexivity]]). }
    destruct He as (e & He & Hmatch & ->). exists t, e.
    unfold matching in Hmatch. apply andb_true_iff in Hmatch as [Hmatch Hpres].
    apply andb_true_iff in Hmatch as [_ Hcont].
    split; [apply list_elem_of_In, Ht|]. split; [exact Ex|].
    split; [apply list_elem_of_In, He|]. repeat split; assumption. }
  unfold run. fold top.
  destruct (negb (root_is_dir w)).
  { exists 0%nat, []. split; [reflexivity|]. split; [reflexivity|]. split; [lia|].
    split; [apply prefix_nil|]. intros x Hx. apply elem_of_nil in Hx. contradiction. }
  destruct (negb (root_listable w)).
  { exists 0%nat, []. split; [reflexivity|]. split; [reflexivity|]. split; [lia|].
    split; [apply prefix_nil|]. intros x Hx. apply elem_of_nil in Hx. contradiction. }
  destruct (walk_loop_matches self (cancel_at w) (walk top (root_tree w)) initial)
    as (k & n & E & Hm & Hp & Hn & Hk & _); [reflexivity|].
  destruct (walk_loop self (cancel_at w) (walk top (root_tree w)) initial) as [evs v].
  cbn [fst snd initial matches processed app] in *. subst evs.
  exists n, (matches v). split; [reflexivity|]. split; [lia|]. split; [exact Hn|].
  rewrite Hm. split; [exact Hk|]. apply Hmem, Hk.
Qed.

(** X7.  A search that is not cancelled, in a tree whose names are all
    made of ASCII characters and whose walk holds at most 200 matches and at
    most 2000 directories that still exist, reports every match of the
    walk, in the order of the walk.  Its percentages are those of the
    multiples of five among the numbers of the directories handled,
    [min(2 * processed, 95)], followed by 100. *)
Theorem complete_search_reports_every_match self w :
  let l := walk (Path.normpath (abspath (cwd w) (root_path self))) (root_tree w) in
  root_is_dir w = true -> root_listable w = true -> cancel_at w = None ->
  ascii_names l = true ->
  (length (all_found self l) <= 200)%nat -> (length (existing l) <= 2000)%nat ->
  (run self w).1
    = (Progress <$> every_fifth 0 (length (existing l)))
        ++ [Result (all_found self l); Progress 100; Finished] /\
  processed (run self w).2 = Z.of_nat (length (existing l)).
Proof.
  intros l Hd Hl Hc _ Hm He. unfold run. rewrite Hd, Hl. cbn [negb]. fold l.
  destruct (walk_loop_matches self (cancel_at w) l initial)
    as (k & n & E & Hk & Hp & _ & _ & Hall); [reflexivity|].
  destruct (Hall Hc) as [-> ->]; [cbn; lia|cbn; lia|].
  destruct (walk_loop self (cancel_at w) l initial) as [evs v].
  cbn [fst snd initial matches processed app] in *. subst evs.
  rewrite Hk. split; [reflexivity|]. lia.
Qed.

(** [/r] holds [Alpha], a directory with [data.txt] and [b.log], a
    directory [gone] that no longer exists, and [a.txt]. *)
Definition small_tree : tree :=
  Node true
    [({| name := "Alpha"; present := true; raises := false |},
      Some (Node true [] [{| name := "data.txt"; present := true; raises := false |};
                          {| name := "b.log"; present := true; raises := false |}]));
     ({| name := "gone"; present := false; raises := false |},
      Some (Node false [] [{| name := "a.old"; present := false; raises := false |}]))]
    [{| name := "a.txt"; present := true; raises := false |}].

Definition small_world : world :=
  {| cwd := "/"; root_is_dir := true; root_listable := true;
     root_tree := small_tree; cancel_at := None |}.

Lemma complete_search_witness :
  (run (make "/r" "A") small_world).1
    = [Result ["/r/Alpha"; "/r/a.txt"; "/r/Alpha/data.txt"]; Progress 100; Finished].
Proof.
  apply (complete_search_reports_every_match (make "/r" "A") small_world);
    vm_compute; try reflexivity; lia.
Defined.

(** The same tree, with a search that is cancelled while the names of
    [/r/Alpha] are handled. *)
Definition stopped_world : world :=
  {| cwd := "/"; root_is_dir := true; root_listable := true;
     root_tree := small_tree; cancel_at := Some 5%nat |}.

Lemma matches_witness :
  exists (n : nat) m,
    (run (make "/r" "A") stopped_world).1
      = (Progress <$> every_fifth 0 n) ++ [Result m; Progress 100; Finished] /\
    m `prefix_of` ["/r/Alpha"; "/r/a.txt"; "/r/Alpha/data.txt"].
Proof.
  destruct (matches_are_names_that_contain_the_query (make "/r" "A") stopped_world)
    as (n & m & E & _ & _ & Hpre & _); [vm_compute; reflexivity|].
  exists n, m. split; [exact E|exact Hpre].
Defined.

End SearchMatches.

(** ** [defaultdict(list)] *)

Module DictFacts.
Import PyList.

Section Dict.
Context {K : Type} `{EqDecision K}.
Implicit Types (d : list (K * list string)) (pairs : list (K * string)).

(** [d.get(k, [])] *)
Fixpoint dict_get (k : K) d : list string :=
  match d with
  | [] => []
  | (k', xs) :: d' => if decide (k = k') then xs else dict_get k d'
  end.

(** All the values of the dictionary. *)
Definition stored d : list string := concat d.*2.

(** The dictionary after [d[k].append(x)] for each pair [(k, x)]. *)
Definition group_from d pairs : list (K * list string) :=
  foldl (fun d kx => dict_append kx.1 kx.2 d) d pairs.

Definition group_by pairs : list (K * list string) := group_from [] pairs.

(** The values appended under [k]. *)
Definition vals (k : K) pairs : list string :=
  omap (fun kx => if decide (k = kx.1) then Some kx.2 else None) pairs.

(** Keys are distinct and no list is empty. *)
Definition well_formed d : Prop := NoDup d.*1 /\ Forall (fun e => e.2 <> []) d.

Lemma dict_get_append k k0 x d :
  dict_get k (dict_append k0 x d) = dict_get k d ++ (if decide (k = k0) then [x] else []).
Proof.
  induction d as [|[k' xs] d IH]; cbn [dict_append dict_get].
  - destruct (decide (k = k0)); reflexivity.
  - destruct (decide (k0 = k')) as [->|Hne]; cbn [dict_get].
    + destruct (decide (k = k')); [reflexivity|]. rewrite app_nil_r. reflexivity.
    + destruct (decide (k = k')) as [->|Hne']; [|exact IH].
      rewrite decide_False by congruence. rewrite app_nil_r. reflexivity.
Qed.

Lemma dict_append_keys k x d :
  (dict_append k x d).*1 = if decide (k ∈ d.*1) then d.*1 else d.*1 ++ [k].
Proof.
  induction d as [|[k' xs] d IH]; cbn [dict_append fmap list_fmap fst].
  - rewrite decide_False by apply not_elem_of_nil. reflexivity.
  - destruct (decide (k = k')) as [->|Hne]; cbn [fmap list_fmap fst].
    + rewrite decide_True by apply list_elem_of_here. reflexivity.
    + change (list_fmap _ _ fst ?l) with (l.*1) in *. rewrite IH.
      destruct (decide (k ∈ d.*1)) as [Hin|Hnin].
      * rewrite decide_True by (apply list_elem_of_further, Hin). reflexivity.
      * rewrite decide_False; [reflexivity|].
        intros [E|Hin]%elem_of_cons; [congruence|contradiction].
Qed.

Lemma dict_append_well_formed k x d : well_formed d -> well_formed (dict_append k x d).
Proof.
  intros [Hnd Hne]. split.
  - rewrite dict_append_keys. destruct (decide _) as [|Hnin]; [exact Hnd|].
    apply NoDup_app. split; [exact Hnd|]. split; [|apply NoDup_singleton].
    intros y Hy ->%list_elem_of_singleton. contradiction.
  - clear Hnd. induction d as [|[k' xs] d IH]; cbn [dict_append].
    + repeat constructor. discriminate.
    + apply Forall_cons in Hne as [H1 H2].
      destruct (decide (k = k')); constructor; try assumption.
      * cbn. intros E. apply app_eq_nil in E as [_ E]. discriminate.
      * apply IH, H2.
Qed.

Lemma dict_append_stored k x d : stored (dict_append k x d) ≡ₚ x :: stored d.
Proof.
  unfold stored. induction d as [|[k' xs] d IH]; cbn [dict_append fmap list_fmap snd concat].
  - reflexivity.
  - destruct (decide (k = k')); cbn [fmap list_fmap snd concat].
    + rewrite <- app_assoc. cbn [app]. symmetry. apply Permutation_middle.
    + change (list_fmap _ _ snd ?l) with (l.*2) in *. rewrite IH.
      symmetry. apply Permutation_middle.
Qed.

Lemma well_formed_get k l d : well_formed d -> (k, l) ∈ d <-> dict_get k d = l /\ l <> [].
Proof.
  intros [Hnd Hne]. induction d as [|[k' xs] d IH]; cbn [dict_get].
  - split; [intros H; apply elem_of_nil in H; contradiction|]. intros [<- H]. congruence.
  - cbn [fmap list_fmap fst] in Hnd. apply NoDup_cons in Hnd as [Hk' Hnd].
    apply Forall_cons in Hne as [Hxs Hne]. specialize (IH Hnd Hne).
    rewrite elem_of_cons. destruct (decide (k = k')) as [->|Hkk].
    + split.
      * intros [[= <-]|Hin]; [split; [reflexivity|exact Hxs]|].
        exfalso. apply Hk'. apply list_elem_of_fmap. exists (k', l). split; [reflexivity|exact Hin].
      * intros [<- _]. left. reflexivity.
    + rewrite <- IH. split; [intros [[= -> _]|Hin]; [congruence|exact Hin]|].
      intros H. right. exact H.
Qed.

Lemma group_from_app d pairs pairs' :
  group_from d (pairs ++ pairs') = group_from (group_from d pairs) pairs'.
Proof. apply foldl_app. Qed.

Lemma group_from_well_formed d pairs : well_formed d -> well_formed (group_from d pairs).
Proof.
  revert d. induction pairs as [|[k x] pairs IH]; intros d Hd; [exact Hd|].
  cbn [group_from foldl]. apply IH, dict_append_well_formed, Hd.
Qed.

Lemma group_from_get k d pairs :
  dict_get k (group_from d pairs) = dict_get k d ++ vals k pairs.
Proof.
  revert d. induction pairs as [|[k0 x] pairs IH]; intros d.
  - cbn. rewrite app_nil_r. reflexivity.
  - cbn [group_from foldl]. fold (group_from (dict_append k0 x d) pairs).
    rewrite IH, dict_get_append, <- app_assoc. f_equal.
    unfold vals. cbn [omap list_omap fst snd]. destruct (decide (k = k0)); reflexivity.
Qed.

Lemma group_from_stored d pairs : stored (group_from d pairs) ≡ₚ stored d ++ pairs.*2.
Proof.
  revert d. induction pairs as [|[k0 x] pairs IH]; intros d.
  - cbn. rewrite app_nil_r. reflexivity.
  - cbn [group_from foldl]. fold (group_from (dict_append k0 x d) pairs).
    rewrite IH, dict_append_stored. cbn [fmap list_fmap snd].
    apply Permutation_middle.
Qed.

Lemma well_formed_nil : well_formed ([] : list (K * list string)).
Proof. split; constructor. Qed.

(** The dictionary built from pairs holds, under each key that occurs, the
    values given with that key, in their order. *)
Lemma group_by_spec k l pairs : (k, l) ∈ group_by pairs <-> l = vals k pairs /\ l <> [].
Proof.
  unfold group_by. rewrite (well_formed_get k l) by apply group_from_well_formed, well_formed_nil.
  rewrite group_from_get. cbn [dict_get app]. split; intros [H1 H2]; split; congruence.
Qed.

Lemma elem_of_vals k x pairs : x ∈ vals k pairs <-> (k, x) ∈ pairs.
Proof.
  unfold vals. rewrite list_elem_of_omap. split.
  - intros ([k' x'] & Hin & H). cbn in H. destruct (decide (k = k')) as [->|]; [|discriminate].
    injection H as ->. exact Hin.
  - intros Hin. exists (k, x). split; [exact Hin|]. cbn. rewrite decide_True by reflexivity.
    reflexivity.
Qed.

End Dict.
End DictFacts.

(** ** The duplicate finder: what a result holds *)

Module DuplicateGroups.
Import PyNumFacts PyList DictFacts DuplicateFinderWorker DuplicateFacts.

(** The tests a path passes before it is put in [size_groups], with the
    size it is put under. *)
Definition keep (self : worker) (w : world) (filepath : string) : option (Z * string) :=
  if negb (path_exists w filepath) then None
  else if path_islink w filepath then None
  else
    match stat_size w filepath with
    | None => None
    | Some file_size =>
        if file_size <? min_file_size self then None else Some (file_size, filepath)
    end.

(** The paths of the files of a walk. *)
Definition listed (triples : list (string * list string)) : list string :=
  flat_map (fun t => Path.join t.1 <$> t.2) triples.

Definition scanned_of_root (w : world) (root_path : string) : list string :=
  if negb (path_exists w root_path) then []
  else if negb (path_isdir w root_path) then []
  else
    match listdir_error w root_path with
    | Some _ => []
    | None => listed (walk w root_path).1
    end.

(** The paths the first step looks at, in order. *)
Definition scanned (self : worker) (w : world) : list string :=
  flat_map (scanned_of_root w) (root_paths self).

(** The paths the second step hashes: those that share their size. *)
Definition to_hash (d : list (Z * list string)) : list string :=
  flat_map (fun e => if 1 <? Z.of_nat (length e.2) then e.2 else []) d.

(** The digest a path is put under in [hash_groups]. *)
Definition digest (w : world) (filepath : string) : option (string * string) :=
  match read_file w filepath with
  | ReadAll data =>
      if String.eqb (md5_hexdigest w data) "" then None
      else Some (md5_hexdigest w data, filepath)
  | ReadError _ => None
  end.

(** The groups of a result, from the answers of the operating system. *)
Definition size_groups_of (self : worker) (w : world) : list (Z * list string) :=
  group_by (omap (keep self w) (scanned self w)).

Definition hash_groups_of (self : worker) (w : world) : list (string * list string) :=
  group_by (omap (digest w) (to_hash (size_groups_of self w))).

Definition groups_of (self : worker) (w : world) : list group :=
  omap (fun e => group_of w e.1 e.2) (hash_groups_of self w).

(** *** The flag, looking back *)

Lemma not_cancelled_before c (i j : nat) :
  (i <= j)%nat -> Cancel.is_cancelled c j = false -> Cancel.is_cancelled c i = false.
Proof.
  intros Hij Hj. destruct (Cancel.is_cancelled c i) eqn:E; [|reflexivity].
  rewrite (is_cancelled_mono c i j Hij E) in Hj. discriminate.
Qed.

(** *** Step 1 *)

Lemma scan_files_cons self w root filename l v :
  scan_files self w root (filename :: l) v
  = if Cancel.is_cancelled (cancel_at w) (s_reads v) then ([], s_read_flag v)
    else
      match keep self w (Path.join root filename) with
      | None => scan_files self w root l (s_read_flag v)
      | Some (file_size, filepath) =>
          let v := {| size_groups := dict_append file_size filepath (size_groups v);
                      total_files := total_files v + 1; s_reads := S (s_reads v) |} in
          let evs := if total_files v mod 50 =? 0
                     then [Status ("Scanned " +:+ pretty (total_files v) +:+ " files...")]
                     else [] in
          let '(evs', v') := scan_files self w root l v in
          (evs ++ evs', v')
      end.
Proof.
  cbn [scan_files]. unfold keep.
  destruct (Cancel.is_cancelled _ _); [reflexivity|].
  destruct (negb _); [reflexivity|]. destruct (path_islink _ _); [reflexivity|].
  destruct (stat_size _ _) as [file_size|]; [|reflexivity].
  destruct (file_size <? _); reflexivity.
Qed.

Lemma scan_files_done self w root l v :
  let v' := (scan_files self w root l v).2 in
  (s_reads v <= s_reads v')%nat /\
  (Cancel.is_cancelled (cancel_at w) (s_reads v') = false ->
   size_groups v'
     = group_from (size_groups v) (omap (keep self w) (Path.join root <$> l)) /\
   total_files v'
     = total_files v + Z.of_nat (length (omap (keep self w) (Path.join root <$> l)))).
Proof.
  revert v. induction l as [|filename l IH]; intros v; cbn zeta.
  - cbn. split; [lia|]. intros _. split; [reflexivity|lia].
  - rewrite scan_files_cons. cbn [fmap list_fmap omap list_omap].
    destruct (Cancel.is_cancelled (cancel_at w) (s_reads v)) eqn:Ec.
    { cbn [snd s_read_flag s_reads]. split; [lia|]. intros Hc.
      rewrite (is_cancelled_mono _ (s_reads v) (S (s_reads v))) in Hc by (lia || exact Ec).
      discriminate. }
    destruct (keep self w (Path.join root filename)) as [[file_size filepath]|].
    + cbn zeta.
      match goal with |- context [scan_files self w root l ?v0] =>
        specialize (IH v0); destruct (scan_files self w root l v0) as [evs' v'] end.
      cbn [snd s_reads size_groups total_files] in *. destruct IH as [Hr Hd].
      split; [lia|]. intros Hc. destruct (Hd Hc) as [-> ->].
      cbn [length]. split; [reflexivity|lia].
    + specialize (IH (s_read_flag v)). cbn zeta in IH. cbn [s_read_flag s_reads] in IH.
      destruct IH as [Hr Hd]. split; [lia|exact Hd].
Qed.

Lemma scan_walk_done self w l v :
  let v' := (scan_walk self w l v).1.2 in
  (s_reads v <= s_reads v')%nat /\
  (Cancel.is_cancelled (cancel_at w) (s_reads v') = false ->
   size_groups v' = group_from (size_groups v) (omap (keep self w) (listed l)) /\
   total_files v' = total_files v + Z.of_nat (length (omap (keep self w) (listed l)))).
Proof.
  revert v. induction l as [|[root files] l IH]; intros v; cbn zeta.
  - cbn. split; [lia|]. intros _. split; [reflexivity|lia].
  - cbn [scan_walk]. destruct (Cancel.is_cancelled (cancel_at w) (s_reads v)) eqn:Ec.
    { cbn [fst snd s_read_flag s_reads]. split; [lia|]. intros Hc.
      rewrite (is_cancelled_mono _ (s_reads v) (S (s_reads v))) in Hc by (lia || exact Ec).
      discriminate. }
    pose proof (scan_files_done self w root files (s_read_flag v)) as Hf. cbn zeta in Hf.
    destruct (scan_files self w root files (s_read_flag v)) as [evs v1].
    specialize (IH v1). cbn zeta in IH.
    destruct (scan_walk self w l v1) as [[evs' v'] broke].
    cbn [fst snd s_read_flag s_reads size_groups total_files] in *.
    destruct Hf as [Hr1 Hd1]. destruct IH as [Hr Hd]. split; [lia|]. intros Hc.
    destruct (Hd Hc) as [-> ->].
    destruct (Hd1 (not_cancelled_before _ _ _ Hr Hc)) as [-> ->].
    unfold listed. cbn [flat_map fst snd]. rewrite omap_app, group_from_app, length_app.
    split; [reflexivity|lia].
Qed.

Lemma scan_roots_done self w l v :
  let v' := (scan_roots self w l v).2 in
  (s_reads v <= s_reads v')%nat /\
  (Cancel.is_cancelled (cancel_at w) (s_reads v') = false ->
   size_groups v'
     = group_from (size_groups v) (omap (keep self w) (flat_map (scanned_of_root w) l)) /\
   total_files v'
     = total_files v
       + Z.of_nat (length (omap (keep self w) (flat_map (scanned_of_root w) l)))).
Proof.
  revert v. induction l as [|root_path l IH]; intros v; cbn zeta.
  - cbn. split; [lia|]. intros _. split; [reflexivity|lia].
  - cbn [scan_roots flat_map]. unfold scanned_of_root at 1 3.
    destruct (Cancel.is_cancelled (cancel_at w) (s_reads v)) eqn:Ec.
    { cbn [snd s_read_flag s_reads]. split; [lia|]. intros Hc.
      rewrite (is_cancelled_mono _ (s_reads v) (S (s_reads v))) in Hc by (lia || exact Ec).
      discriminate. }
    assert (Hskip :
      let v' := (scan_roots self w l (s_read_flag v)).2 in
      (s_reads v <= s_reads v')%nat /\
      (Cancel.is_cancelled (cancel_at w) (s_reads v') = false ->
       size_groups v'
         = group_from (size_groups v) (omap (keep self w) (flat_map (scanned_of_root w) l)) /\
       total_files v'
         = total_files v
           + Z.of_nat (length (omap (keep self w) (flat_map (scanned_of_root w) l))))).
    { specialize (IH (s_read_flag v)). cbn zeta in *. cbn [s_read_flag s_reads] in IH.
      destruct IH as [Hr Hd]. split; [lia|exact Hd]. }
    cbn zeta in Hskip.
    destruct (negb (path_exists w root_path)); [exact Hskip|].
    destruct (negb (path_isdir w root_path)); [exact Hskip|].
    destruct (listdir_error w root_path) as [e|].
    { destruct (scan_roots self w l (s_read_flag v)) as [evs' v']. exact Hskip. }
    clear Hskip. destruct (walk w root_path) as [triples failure]. cbn [fst].
    pose proof (scan_walk_done self w triples (s_read_flag v)) as Hw. cbn zeta in Hw.
    destruct (scan_walk self w triples (s_read_flag v)) as [[evs v1] broke].
    specialize (IH v1). cbn zeta in IH.
    destruct (scan_roots self w l v1) as [evs' v'].
    cbn [fst snd s_read_flag s_reads size_groups total_files] in *.
    destruct Hw as [Hr1 Hd1]. destruct IH as [Hr Hd]. split; [lia|]. intros Hc.
    destruct (Hd Hc) as [-> ->].
    destruct (Hd1 (not_cancelled_before _ _ _ Hr Hc)) as [-> ->].
    rewrite omap_app, group_from_app, length_app. split; [reflexivity|lia].
Qed.

Lemma scan_stage_done self w :
  Cancel.is_cancelled (cancel_at w) (s_reads (scan_stage self w).2) = false ->
  size_groups (scan_stage self w).2 = size_groups_of self w /\
  total_files (scan_stage self w).2
    = Z.of_nat (length (omap (keep self w) (scanned self w))).
Proof.
  intros Hc. unfold scan_stage in *.
  destruct (scan_roots_done self w (root_paths self)
              {| size_groups := []; total_files := 0; s_reads := 0 |}) as [_ Hd].
  destruct (Hd Hc) as [E1 E2]. split; [exact E1|]. rewrite E2. cbn. reflexivity.
Qed.

(** *** Step 2 *)

Lemma read_flag_times_done c n reads :
  (reads <= (read_flag_times c n reads).2)%nat /\
  (Cancel.is_cancelled c (read_flag_times c n reads).2 = false ->
   (read_flag_times c n reads).1 = false).
Proof.
  revert reads. induction n as [|n IH]; intros reads; cbn [read_flag_times].
  - cbn. split; [lia|reflexivity].
  - destruct (Cancel.is_cancelled c reads) eqn:Ec.
    + cbn [fst snd]. split; [lia|]. intros Hc.
      rewrite (is_cancelled_mono _ reads (S reads)) in Hc by (lia || exact Ec). discriminate.
    + destruct (IH (S reads)) as [Hr Hd]. split; [lia|exact Hd].
Qed.

Lemma get_file_hash_done w filepath reads :
  let r := get_file_hash w filepath reads in
  (reads <= r.2)%nat /\
  (Cancel.is_cancelled (cancel_at w) r.2 = false ->
   match r.1 with
   | Some h => if String.eqb h "" then None else Some (h, filepath)
   | None => None
   end = digest w filepath).
Proof.
  cbn zeta. unfold get_file_hash, digest. destruct (read_file w filepath) as [data|n].
  - pose proof (read_flag_times_done (cancel_at w) (chunk_count data) reads) as [Hr Hd].
    destruct (read_flag_times _ _ _) as [[|] reads']; cbn [fst snd] in *.
    + split; [exact Hr|]. intros Hc. specialize (Hd Hc). discriminate.
    + split; [exact Hr|]. intros _. reflexivity.
  - pose proof (read_flag_times_done (cancel_at w) n reads) as [Hr _].
    cbn [fst snd]. split; [exact Hr|reflexivity].
Qed.

Lemma hash_files_done w pot l v :
  pot <> 0 ->
  exists evs v',
    hash_files w pot l v = (evs, v', Next) /\
    (h_reads v <= h_reads v')%nat /\
    (Cancel.is_cancelled (cancel_at w) (h_reads v') = false ->
     hash_groups v' = group_from (hash_groups v) (omap (digest w) l)).
Proof.
  intros Hpot. revert v. induction l as [|filepath l IH]; intros v.
  - exists [], v. split; [reflexivity|]. split; [lia|reflexivity].
  - cbn [hash_files]. destruct (Cancel.is_cancelled (cancel_at w) (h_reads v)) eqn:Ec.
    { eexists [], _. split; [reflexivity|]. cbn [h_reads]. split; [lia|]. intros Hc.
      rewrite (is_cancelled_mono _ (h_reads v) (S (h_reads v))) in Hc by (lia || exact Ec).
      discriminate. }
    pose proof (get_file_hash_done w filepath (S (h_reads v))) as Hg. cbn zeta in Hg.
    destruct (get_file_hash w filepath (S (h_reads v))) as [file_hash reads].
    cbn [fst snd] in Hg. destruct Hg as [Hr Hd].
    set (g := match file_hash with Some h => _ | None => _ end).
    set (v1 := {| hash_groups := g; processed_files := processed_files v + 1;
                  h_reads := reads |}).
    destruct (IH v1) as (evs & v' & E & Hr' & Hd').
    assert (Hall : (h_reads v <= h_reads v')%nat /\
      (Cancel.is_cancelled (cancel_at w) (h_reads v') = false ->
       hash_groups v' = group_from (hash_groups v) (omap (digest w) (filepath :: l)))).
    { unfold v1 in Hr', Hd'. cbn [h_reads hash_groups] in Hr', Hd'. split; [lia|].
      intros Hc. rewrite (Hd' Hc). cbn [omap list_omap].
      rewrite <- (Hd (not_cancelled_before _ _ _ Hr' Hc)). unfold g.
      destruct file_hash as [h|]; [|reflexivity]. destruct (String.eqb h ""); reflexivity. }
    clear Hr' Hd'. subst v1. cbn [processed_files] in *. destruct (_ =? 0).
    + destruct (percent_defined (processed_files v + 1) pot Hpot) as [p ->].
      rewrite E. exists (Progress p :: evs), v'. split; [reflexivity|exact Hall].
    + rewrite E. exists evs, v'. split; [reflexivity|exact Hall].
Qed.

Lemma hash_sizes_done w pot d v :
  pot <> 0 ->
  exists evs v',
    hash_sizes w pot d v = (evs, v', Next) /\
    (h_reads v <= h_reads v')%nat /\
    (Cancel.is_cancelled (cancel_at w) (h_reads v') = false ->
     hash_groups v' = group_from (hash_groups v) (omap (digest w) (to_hash d))).
Proof.
  intros Hpot. revert v. induction d as [|[file_size file_paths] d IH]; intros v.
  - exists [], v. split; [reflexivity|]. split; [lia|reflexivity].
  - cbn [hash_sizes]. unfold to_hash. cbn [flat_map snd]. fold (to_hash d).
    destruct (Cancel.is_cancelled (cancel_at w) (h_reads v)) eqn:Ec.
    { eexists [], _. split; [reflexivity|]. cbn [h_reads]. split; [lia|]. intros Hc.
      rewrite (is_cancelled_mono _ (h_reads v) (S (h_reads v))) in Hc by (lia || exact Ec).
      discriminate. }
    set (v0 := {| hash_groups := hash_groups v; processed_files := processed_files v;
                  h_reads := S (h_reads v) |}).
    destruct (1 <? Z.of_nat (length file_paths)).
    + destruct (hash_files_done w pot file_paths v0 Hpot) as (evs1 & v1 & -> & Hr1 & Hd1).
      destruct (IH v1) as (evs2 & v2 & -> & Hr2 & Hd2).
      exists (evs1 ++ evs2), v2. split; [reflexivity|]. cbn [h_reads v0] in Hr1.
      split; [lia|]. intros Hc. rewrite (Hd2 Hc), (Hd1 (not_cancelled_before _ _ _ Hr2 Hc)).
      rewrite omap_app, group_from_app. reflexivity.
    + destruct (IH v0) as (evs2 & v2 & -> & Hr2 & Hd2).
      exists evs2, v2. split; [reflexivity|]. cbn [h_reads v0] in Hr2.
      split; [lia|]. intros Hc. rewrite (Hd2 Hc). reflexivity.
Qed.

Lemma to_hash_nothing d : count_potential d = 0 -> to_hash d = [].
Proof.
  induction d as [|[k l] d IH]; [reflexivity|]. cbn [count_potential].
  unfold to_hash. cbn [flat_map snd]. fold (to_hash d).
  pose proof (count_potential_nonneg d) as Hd.
  destruct (1 <? Z.of_nat (length l)) eqn:E.
  - apply Z.ltb_lt in E. lia.
  - intros H0. rewrite (IH H0). reflexivity.
Qed.

(** The groups of every [result] are those of [groups_of]: they do not
    depend on the moments at which the flag is read. *)
Lemma result_groups self w groups total :
  Result groups total ∈ (run self w).1 -> groups = groups_of self w.
Proof.
  assert (Hst : forall st, Forall is_status st -> Result groups total ∉ st).
  { intros st Hst Hin. rewrite Forall_forall in Hst. exact (Hst _ Hin). }
  assert (Hps : forall ps : list Z, Result groups total ∉ Progress <$> ps).
  { intros ps Hin. apply list_elem_of_fmap in Hin as (p & Hp & _). discriminate. }
  unfold groups_of, hash_groups_of.
  destruct (run_has_shape self w)
    as [st Hs Hc | st Hs Hc H0 | st ps hv Hs Hc Hne Eh Hso Hb Hc2
        | st ps hv Hs Hc Hne Eh Hso Hb Hc2]; cbn [fst]; intros Hin.
  - apply elem_of_app in Hin as [Hin|Hin]; [destruct (Hst _ Hs Hin)|].
    apply list_elem_of_singleton in Hin. discriminate.
  - apply elem_of_app in Hin as [Hin|Hin]; [destruct (Hst _ Hs Hin)|].
    destruct (scan_stage_done self w Hc) as [<- _]. rewrite (to_hash_nothing _ H0).
    repeat (apply elem_of_cons in Hin as [Hin|Hin]); try discriminate.
    + injection Hin as -> ->. reflexivity.
    + apply elem_of_nil in Hin. contradiction.
  - apply elem_of_app in Hin as [Hin|Hin]; [destruct (Hst _ Hs Hin)|].
    apply elem_of_app in Hin as [Hin|Hin]; [destruct (Hps _ Hin)|].
    apply list_elem_of_singleton in Hin. discriminate.
  - apply elem_of_app in Hin as [Hin|Hin]; [destruct (Hst _ Hs Hin)|].
    apply elem_of_app in Hin as [Hin|Hin]; [destruct (Hps _ Hin)|].
    destruct (scan_stage_done self w Hc) as [<- _].
    assert (Ehg : hash_groups hv
                  = group_by (omap (digest w) (to_hash (size_groups (scan_stage self w).2)))).
    { unfold hash_stage in Eh.
      match type of Eh with hash_sizes w ?pot ?d ?v0 = _ =>
        destruct (hash_sizes_done w pot d v0 Hne) as (evs & hv' & E & _ & Hd) end.
      rewrite Eh in E. injection E as _ <-. exact (Hd Hc2). }
    repeat (apply elem_of_cons in Hin as [Hin|Hin]); try discriminate.
    + injection Hin as -> ->. rewrite assemble_groups, Ehg. reflexivity.
    + apply elem_of_nil in Hin. contradiction.
Qed.

End DuplicateGroups.

Module DuplicateResult.
Import PyNumFacts PyList DictFacts DuplicateFinderWorker DuplicateFacts DuplicateGroups.

(** A path the first step looked at and kept under [file_size]. *)
Definition kept_with_size (self : worker) (w : world) (x : string) (file_size : Z) : Prop :=
  x ∈ scanned self w /\ path_exists w x = true /\ path_islink w x = false /\
  stat_size w x = Some file_size /\ min_file_size self <= file_size.

Lemma keep_spec self w p file_size x :
  keep self w p = Some (file_size, x) <->
  p = x /\ path_exists w x = true /\ path_islink w x = false /\
  stat_size w x = Some file_size /\ min_file_size self <= file_size.
Proof.
  unfold keep. split.
  - destruct (path_exists w p) eqn:E1; [|discriminate]. cbn [negb].
    destruct (path_islink w p) eqn:E2; [discriminate|].
    destruct (stat_size w p) as [sz|] eqn:E3; [|discriminate].
    destruct (sz <? min_file_size self) eqn:E4; [discriminate|].
    intros [= <- <-]. apply Z.ltb_ge in E4. repeat split; assumption.
  - intros (-> & -> & -> & -> & Hle). cbn [negb].
    apply Z.ltb_ge in Hle. rewrite Hle. reflexivity.
Qed.

Lemma digest_spec w p h x :
  digest w p = Some (h, x) <->
  p = x /\ h <> "" /\ exists data, read_file w x = ReadAll data /\ md5_hexdigest w data = h.
Proof.
  unfold digest. split.
  - destruct (read_file w p) as [data|n] eqn:E; [|discriminate].
    destruct (String.eqb_spec (md5_hexdigest w data) "") as [|Hne]; [discriminate|].
    intros [= <- <-]. split; [reflexivity|]. split; [exact Hne|].
    exists data. split; [exact E|reflexivity].
  - intros (-> & Hne & data & -> & <-).
    destruct (String.eqb_spec (md5_hexdigest w data) ""); [contradiction|reflexivity].
Qed.

Lemma elem_of_kept self w file_size x :
  (file_size, x) ∈ omap (keep self w) (scanned self w) <-> kept_with_size self w x file_size.
Proof.
  rewrite list_elem_of_omap. unfold kept_with_size. split.
  - intros (p & Hp & Hk). apply keep_spec in Hk as (-> & H). split; assumption.
  - intros (Hx & H). exists x. split; [exact Hx|]. apply keep_spec. split; [reflexivity|exact H].
Qed.

Lemma elem_of_to_hash x d :
  x ∈ to_hash d <-> exists k l, (k, l) ∈ d /\ (2 <= length l)%nat /\ x ∈ l.
Proof.
  unfold to_hash. rewrite list_elem_of_In, in_flat_map. split.
  - intros ([k l] & Hin & Hx). cbn [snd] in Hx.
    destruct (1 <? Z.of_nat (length l)) eqn:E; [|destruct Hx]. apply Z.ltb_lt in E.
    exists k, l. split; [apply list_elem_of_In, Hin|]. split; [lia|apply list_elem_of_In, Hx].
  - intros (k & l & Hin & Hlen & Hx). exists (k, l). split; [apply list_elem_of_In, Hin|].
    cbn [snd]. assert (E : (1 <? Z.of_nat (length l)) = true) by (apply Z.ltb_lt; lia).
    rewrite E. apply list_elem_of_In, Hx.
Qed.

Lemma elem_of_groups_of self w g :
  g ∈ groups_of self w <->
  exists l, (hash g, l) ∈ hash_groups_of self w /\ group_of w (hash g) l = Some g.
Proof.
  unfold groups_of. rewrite list_elem_of_omap. split.
  - intros ([h l] & Hin & Hg). cbn [fst snd] in Hg.
    assert (hash g = h) as <-.
    { unfold group_of in Hg. destruct (1 <? _); [|discriminate].
      destruct (getsize w _); [|discriminate]. injection Hg as <-. reflexivity. }
    exists l. split; assumption.
  - intros (l & Hin & Hg). exists (hash g, l). split; assumption.
Qed.

Lemma group_of_files w h l g :
  group_of w h l = Some g -> files g = sort_by_mtime w l /\ (2 <= length l)%nat.
Proof.
  unfold group_of. destruct (1 <? Z.of_nat (length l)) eqn:E; [|discriminate].
  apply Z.ltb_lt in E. destruct (getsize w _); [|discriminate].
  intros [= <-]. split; [reflexivity|lia].
Qed.

(** X8.  Every file of an emitted group was looked at by the first step
    and passed its tests (it exists, is no symbolic link, its size can be
    read and is not below [min_file_size]), is one of two or more paths
    kept under that size, and could be read to its end; the digest of its
    content is the [hash] of the group, and it is not empty. *)
Theorem grouped_files_share_their_digest self w groups total g x :
  Result groups total ∈ (run self w).1 -> g ∈ groups -> x ∈ files g ->
  (exists file_size l,
     kept_with_size self w x file_size /\
     (file_size, l) ∈ size_groups_of self w /\ x ∈ l /\ (2 <= length l)%nat) /\
  (exists data, read_file w x = ReadAll data /\ md5_hexdigest w data = hash g) /\
  hash g <> "".
Proof.
  intros Hres Hg Hx. rewrite (result_groups self w groups total Hres) in Hg.
  apply elem_of_groups_of in Hg as (l & Hl & Hg).
  apply group_of_files in Hg as [Ef _]. rewrite Ef, sort_by_mtime_perm in Hx.
  unfold hash_groups_of in Hl. apply group_by_spec in Hl as [-> _].
  apply elem_of_vals, list_elem_of_omap in Hx as (p & Hp & Hd).
  apply digest_spec in Hd as (-> & Hne & Hdata).
  apply elem_of_to_hash in Hp as (file_size & l & Hl & Hlen & Hx).
  split; [|split; assumption].
  exists file_size, l. split; [|split; [exact Hl|split; assumption]].
  unfold size_groups_of in Hl. apply group_by_spec in Hl as [-> _].
  apply elem_of_vals in Hx. apply elem_of_kept, Hx.
Qed.

Lemma grouped_files_witness :
  (exists data, read_file (example_world None) "/r/s/e" = ReadAll data /\
                md5_hexdigest (example_world None) data = "md5:hello").
Proof.
  destruct (grouped_files_share_their_digest (scan_r 1) (example_world None)
              example_groups 15
              {| hash := "md5:hello"; files := ["/r/b"; "/r/s/a"; "/r/s/e"; "/r/a"];
                 size := 5; wasted_space := 15; count := 4 |} "/r/s/e") as (_ & H & _).
  - vm_compute. do 3 apply list_elem_of_further. apply list_elem_of_here.
  - apply list_elem_of_here.
  - cbn [files]. do 2 apply list_elem_of_further. apply list_elem_of_here.
  - exact H.
Defined.

(** *** No file twice *)

Lemma omap_snd_sublist {K} (f : string -> option (K * string)) l :
  (forall p kx, f p = Some kx -> kx.2 = p) -> (omap f l).*2 `sublist_of` l.
Proof.
  intros Hf. induction l as [|p l IH]; cbn [omap list_omap]; [constructor|].
  destruct (f p) as [kx|] eqn:E; cbn [fmap list_fmap].
  - rewrite (Hf p kx E). apply sublist_skip, IH.
  - apply sublist_cons, IH.
Qed.

Lemma to_hash_sublist d : to_hash d `sublist_of` stored d.
Proof.
  unfold to_hash, stored. induction d as [|[k l] d IH]; [constructor|].
  cbn [flat_map fmap list_fmap snd concat].
  destruct (1 <? _); [apply sublist_app; [reflexivity|exact IH]|].
  apply sublist_inserts_l, IH.
Qed.

Lemma submseteq_NoDup {A} (l k : list A) : l ⊆+ k -> NoDup k -> NoDup l.
Proof.
  intros Hs Hk. apply submseteq_Permutation in Hs as [r Hr]. rewrite Hr in Hk.
  apply NoDup_app in Hk as [Hl _]. exact Hl.
Qed.

Lemma groups_files_submseteq w d :
  concat (files <$> omap (fun e => group_of w e.1 e.2) d) ⊆+ stored d.
Proof.
  unfold stored. induction d as [|[h l] d IH]; [constructor|].
  cbn [omap list_omap fmap list_fmap snd concat fst].
  destruct (group_of w h l) as [g|] eqn:E; cbn [fmap list_fmap concat].
  - apply group_of_files in E as [-> _]. apply submseteq_app; [|exact IH].
    rewrite sort_by_mtime_perm. reflexivity.
  - apply submseteq_inserts_l, IH.
Qed.

Lemma groups_hashes_sublist w d :
  hash <$> omap (fun e => group_of w e.1 e.2) d `sublist_of` d.*1.
Proof.
  induction d as [|[h l] d IH]; [constructor|].
  cbn [omap list_omap fmap list_fmap fst snd].
  destruct (group_of w h l) as [g|] eqn:E; cbn [fmap list_fmap].
  - assert (hash g = h) as ->.
    { unfold group_of in E. destruct (1 <? _); [|discriminate].
      destruct (getsize w _); [|discriminate]. injection E as <-. reflexivity. }
    apply sublist_skip, IH.
  - apply sublist_cons, IH.
Qed.

(** X9.  The groups of a result have distinct hashes and two files or more
    each.  When the first step met no path twice (the roots do not overlap),
    no file is listed twice: not within a group, nor in two groups. *)
Theorem groups_do_not_overlap self w groups total :
  Result groups total ∈ (run self w).1 ->
  NoDup (hash <$> groups) /\
  Forall (fun g => (2 <= length (files g))%nat) groups /\
  (NoDup (scanned self w) -> NoDup (concat (files <$> groups))).
Proof.
  intros Hres. rewrite (result_groups self w groups total Hres). split; [|split].
  - eapply sublist_NoDup; [|apply groups_hashes_sublist].
    apply (group_from_well_formed [] _ well_formed_nil).
  - apply Forall_forall. intros g Hg. apply elem_of_groups_of in Hg as (l & _ & Hg).
    apply group_of_files in Hg as [-> Hlen]. rewrite sort_by_mtime_length. exact Hlen.
  - intros Hnd. eapply submseteq_NoDup; [apply groups_files_submseteq|].
    unfold hash_groups_of, group_by. rewrite group_from_stored.
    cbn [stored fmap list_fmap concat app].
    eapply sublist_NoDup; [|apply omap_snd_sublist].
    2:{ intros p [h x] Hd. apply digest_spec in Hd as [-> _]. reflexivity. }
    eapply sublist_NoDup; [|apply to_hash_sublist].
    unfold size_groups_of, group_by. rewrite group_from_stored.
    cbn [stored fmap list_fmap concat app].
    eapply sublist_NoDup; [exact Hnd|apply omap_snd_sublist].
    intros p [k x] Hk. apply keep_spec in Hk as [-> _]. reflexivity.
Qed.

Lemma groups_do_not_overlap_witness :
  NoDup (concat (files <$> example_groups)).
Proof.
  destruct (groups_do_not_overlap (scan_r 1) (example_world None) example_groups 15)
    as (_ & _ & H).
  - vm_compute. do 3 apply list_elem_of_further. apply list_elem_of_here.
  - apply H. vm_compute. repeat constructor; rewrite ?elem_of_cons, ?elem_of_nil;
      intros Hin; repeat destruct Hin as [Hin|Hin]; try discriminate; exact Hin.
Defined.

(** *** Every pair of duplicates is reported *)

Lemma uncancelled_run_has_result self w :
  cancel_at w = None -> exists groups total, Result groups total ∈ (run self w).1.
Proof.
  intros Hc. destruct (run_has_shape self w)
    as [st Hs Hcan | st Hs Hcan H0 | st ps hv Hs Hcan Hne Eh Hso Hb Hc2
        | st ps hv Hs Hcan Hne Eh Hso Hb Hc2]; cbn [fst].
  - rewrite Hc in Hcan. discriminate.
  - exists [], 0. apply elem_of_app. right. apply list_elem_of_here.
  - rewrite Hc in Hc2. discriminate.
  - eexists _, _. rewrite !elem_of_app. right. right. apply list_elem_of_here.
Qed.

(** The paths that the second step puts under the digest [file_hash], in
    the order in which it meets them. *)
Definition with_digest (self : worker) (w : world) (file_hash : string) : list string :=
  vals file_hash (omap (digest w) (to_hash (size_groups_of self w))).

(** [file_paths[0]] once the last step has sorted the list of [file_hash]:
    the file whose size it reads. *)
Definition first_file (self : worker) (w : world) (file_hash : string) : string :=
  default "" (head (sort_by_mtime w (with_digest self w file_hash))).

(** X10.  Take two different paths that the first step kept under the same
    size, that can be read to their end and whose contents have the same
    (non-empty) digest.  The second step puts both under that digest.  In
    every result, when [os.path.getsize] answers for the first file of the
    sorted list of that digest, one group has that digest, and it lists the
    two paths and starts with that first file; when [os.path.getsize]
    raises for it, no group of the result has that digest.  A run that is
    not cancelled emits a result. *)
Theorem duplicates_are_reported self w x y file_size data_x data_y :
  kept_with_size self w x file_size -> kept_with_size self w y file_size -> x <> y ->
  read_file w x = ReadAll data_x -> read_file w y = ReadAll data_y ->
  md5_hexdigest w data_x = md5_hexdigest w data_y -> md5_hexdigest w data_x <> "" ->
  let file_hash := md5_hexdigest w data_x in
  (cancel_at w = None -> exists groups total, Result groups total ∈ (run self w).1) /\
  x ∈ with_digest self w file_hash /\ y ∈ with_digest self w file_hash /\
  (forall groups total, Result groups total ∈ (run self w).1 ->
     (is_Some (getsize w (first_file self w file_hash)) ->
      exists g, g ∈ groups /\ hash g = file_hash /\ x ∈ files g /\ y ∈ files g /\
                head (files g) = Some (first_file self w file_hash)) /\
     (getsize w (first_file self w file_hash) = None ->
      forall g, g ∈ groups -> hash g <> file_hash)).
Proof.
  intros Hx Hy Hxy Hrx Hry Hmd Hne h. split; [apply uncancelled_run_has_result|].
  assert (Htwo : forall (l : list string), x ∈ l -> y ∈ l -> (2 <= length l)%nat).
  { intros l Hxl Hyl. destruct l as [|a [|b l]]; [| |simpl; lia].
    - apply elem_of_nil in Hxl. contradiction.
    - apply list_elem_of_singleton in Hxl, Hyl. congruence. }
  (* the size group *)
  set (sl := vals file_size (omap (keep self w) (scanned self w))).
  assert (Hxs : x ∈ sl) by (apply elem_of_vals, elem_of_kept, Hx).
  assert (Hys : y ∈ sl) by (apply elem_of_vals, elem_of_kept, Hy).
  assert (Hsl : (file_size, sl) ∈ size_groups_of self w).
  { apply group_by_spec. split; [reflexivity|]. intros E. rewrite E in Hxs.
    apply elem_of_nil in Hxs. contradiction. }
  (* the hash group *)
  unfold first_file. set (hl := with_digest self w h).
  assert (Hin : forall z data, z ∈ sl -> read_file w z = ReadAll data ->
                  md5_hexdigest w data = h -> z ∈ hl).
  { intros z data Hz Hr Hm. apply elem_of_vals, list_elem_of_omap. exists z. split.
    - apply elem_of_to_hash. exists file_size, sl. split; [exact Hsl|].
      split; [apply Htwo; assumption|exact Hz].
    - apply digest_spec. split; [reflexivity|]. split; [exact Hne|].
      exists data. split; assumption. }
  assert (Hxh : x ∈ hl) by (apply (Hin x data_x); [assumption|assumption|reflexivity]).
  assert (Hyh : y ∈ hl) by (apply (Hin y data_y); [assumption|assumption|symmetry; exact Hmd]).
  split; [exact Hxh|]. split; [exact Hyh|].
  assert (Hhl : (h, hl) ∈ hash_groups_of self w).
  { apply group_by_spec. split; [reflexivity|]. intros E. rewrite E in Hxh.
    apply elem_of_nil in Hxh. contradiction. }
  assert (Hlen : (1 <? Z.of_nat (length hl)) = true).
  { apply Z.ltb_lt. specialize (Htwo hl Hxh Hyh). lia. }
  intros groups total Hres. rewrite (result_groups self w groups total Hres). split.
  - intros [sz Hsz].
    set (g := {| hash := h; files := sort_by_mtime w hl; size := sz;
                 wasted_space := sz * (Z.of_nat (length (sort_by_mtime w hl)) - 1);
                 count := Z.of_nat (length (sort_by_mtime w hl)) |}).
    assert (Hg : group_of w h hl = Some g).
    { unfold group_of. rewrite Hlen, Hsz. reflexivity. }
    exists g. split; [|split; [reflexivity|]].
    + apply elem_of_groups_of. exists hl. split; [exact Hhl|exact Hg].
    + cbn [files g].
      assert (Hs : x ∈ sort_by_mtime w hl) by (rewrite sort_by_mtime_perm; exact Hxh).
      split; [exact Hs|]. split; [rewrite sort_by_mtime_perm; exact Hyh|].
      destruct (sort_by_mtime w hl); [apply elem_of_nil in Hs; contradiction|reflexivity].
  - intros Hnone g Hg Eh. apply elem_of_groups_of in Hg as (l & Hl & Hg). rewrite Eh in Hl, Hg.
    apply group_by_spec in Hl as [-> _]. fold (with_digest self w h) in Hg. fold hl in Hg.
    unfold group_of in Hg. rewrite Hlen, Hnone in Hg. discriminate.
Qed.

Lemma duplicates_are_reported_witness :
  (exists g, g ∈ example_groups /\ hash g = "md5:hello" /\
             "/r/a" ∈ files g /\ "/r/s/e" ∈ files g /\ head (files g) = Some "/r/b") /\
  (getsize vanishing_world "/r/a" = None /\
   forall g, g ∈ [] -> hash g <> "md5:hello").
Proof.
  split.
  - destruct (duplicates_are_reported (scan_r 1) (example_world None) "/r/a" "/r/s/e" 5
                "hello" "hello") as (_ & _ & _ & H).
    + split; [vm_compute; apply list_elem_of_here|].
      repeat split; try reflexivity. cbn. lia.
    + split; [vm_compute; do 5 apply list_elem_of_further; apply list_elem_of_here|].
      repeat split; try reflexivity. cbn. lia.
    + discriminate.
    + reflexivity.
    + reflexivity.
    + reflexivity.
    + discriminate.
    + destruct (H example_groups 15) as [Hsome _].
      * vm_compute. do 3 apply list_elem_of_further. apply list_elem_of_here.
      * apply Hsome. eexists. vm_compute. reflexivity.
  - destruct (duplicates_are_reported (scan_r 0) vanishing_world "/r/a" "/r/b" 5
                "hello" "hello") as (_ & _ & _ & H).
    + split; [vm_compute; apply list_elem_of_here|].
      repeat split; try reflexivity. cbn. lia.
    + split; [vm_compute; apply list_elem_of_further, list_elem_of_here|].
      repeat split; try reflexivity. cbn. lia.
    + discriminate.
    + reflexivity.
    + reflexivity.
    + reflexivity.
    + discriminate.
    + split; [reflexivity|]. destruct (H [] 0) as [_ Hnone].
      * vm_compute. do 3 apply list_elem_of_further. apply list_elem_of_here.
      * apply Hnone. vm_compute. reflexivity.
Defined.

(** *** No root to scan *)

Lemma scan_roots_unavailable self w l v :
  cancel_at w = None ->
  Forall (fun root_path => path_exists w root_path && path_isdir w root_path = false) l ->
  exists v', scan_roots self w l v = ([], v') /\
             size_groups v' = size_groups v /\ total_files v' = total_files v.
Proof.
  intros Hc Hl. revert v. induction Hl as [|root_path l Hr Hl IH]; intros v.
  - exists v. repeat split.
  - cbn [scan_roots]. rewrite Hc. cbn [Cancel.is_cancelled].
    destruct (IH (s_read_flag v)) as (v' & E & Hs & Ht).
    exists v'. split; [|split; assumption].
    apply andb_false_iff in Hr as [->| ->]; cbn [negb]; [exact E|].
    destruct (negb (path_exists w root_path)); exact E.
Qed.

(** X11.  When no root path is an existing directory (or there is no root
    path) and the run is not cancelled, nothing is scanned: the run reports
    0 files, an empty result, 100 percent, and ends. *)
Theorem no_directory_to_scan self w :
  cancel_at w = None ->
  Forall (fun root_path => path_exists w root_path && path_isdir w root_path = false)
         (root_paths self) ->
  (run self w).1
    = [Status "Scanning files..."; Status "Found 0 files, checking for duplicates...";
       Result [] 0; Progress 100; Finished].
Proof.
  intros Hc Hl. unfold run, scan_stage.
  destruct (scan_roots_unavailable self w (root_paths self)
              {| size_groups := []; total_files := 0; s_reads := 0 |} Hc Hl)
    as (sv & -> & Hs & Ht).
  rewrite Hc. cbn [Cancel.is_cancelled size_groups total_files] in *.
  rewrite Hs, Ht. reflexivity.
Qed.

Lemma no_directory_to_scan_witness :
  (run {| root_paths := ["/nope"; "/r/a"]; min_file_size := 0 |} (example_world None)).1
    = [Status "Scanning files..."; Status "Found 0 files, checking for duplicates...";
       Result [] 0; Progress 100; Finished].
Proof.
  apply (no_directory_to_scan {| root_paths := ["/nope"; "/r/a"]; min_file_size := 0 |}
           (example_world None)); [reflexivity|].
  repeat constructor.
Defined.

End DuplicateResult.

(** ** The dialog of the duplicate finder *)

Module DialogFacts.
Import DuplicateFinderWorker DuplicateFilesDialog.

(** *** What can be deleted *)

Definition duplicate_paths (t : list tree_item) : list string :=
  text0 <$> List.filter is_duplicate t.

Lemma files_to_delete_sublist self : files_to_delete self `sublist_of` duplicate_paths (tree self).
Proof.
  unfold files_to_delete, duplicate_paths. induction (tree self) as [|it t IH]; [constructor|].
  cbn [List.filter]. destruct (is_duplicate it); [|rewrite andb_false_r; exact IH].
  rewrite andb_true_r. destruct (checked it); cbn [fmap list_fmap].
  - apply sublist_skip, IH.
  - apply sublist_cons, IH.
Qed.

Lemma duplicate_paths_texts t t' :
  texts <$> t = texts <$> t' -> duplicate_paths t = duplicate_paths t'.
Proof.
  unfold duplicate_paths. revert t'. induction t as [|it t IH]; intros [|it' t'] E;
    try discriminate; [reflexivity|].
  cbn [fmap list_fmap] in E. apply (inj2 cons) in E as [Eit E].
  pose proof (f_equal fst Eit) as E0. pose proof (f_equal snd Eit) as E3.
  cbn [texts fst snd] in E0, E3. cbn [List.filter]. specialize (IH t' E).
  assert (Ed : is_duplicate it = is_duplicate it')
    by (unfold is_duplicate; rewrite E3; reflexivity).
  rewrite Ed. destruct (is_duplicate it'); cbn [fmap list_fmap]; [rewrite E0; f_equal|]; exact IH.
Qed.

Lemma duplicate_paths_app t t' :
  duplicate_paths (t ++ t') = duplicate_paths t ++ duplicate_paths t'.
Proof. unfold duplicate_paths. rewrite List.filter_app, fmap_app. reflexivity. Qed.

Lemma duplicate_paths_later i l : duplicate_paths (file_items (S i) l) = l.
Proof.
  revert i. induction l as [|x l IH]; intros i; [reflexivity|].
  cbn [file_items Nat.eqb]. unfold duplicate_paths in *. cbn. rewrite IH. reflexivity.
Qed.

Lemma duplicate_paths_group g : duplicate_paths (group_items g) = tail (files g).
Proof.
  unfold group_items. destruct (files g) as [|x l]; [reflexivity|].
  cbn [file_items Nat.eqb tail].
  change (duplicate_paths (file_items 1 l) = l). apply duplicate_paths_later.
Qed.

Lemma duplicate_paths_groups groups :
  duplicate_paths (flat_map group_items groups) = listed_as_duplicate groups.
Proof.
  unfold listed_as_duplicate. induction groups as [|g groups IH]; [reflexivity|].
  cbn [flat_map]. rewrite duplicate_paths_app, duplicate_paths_group, IH. reflexivity.
Qed.

Lemma files_to_delete_selected self :
  files_to_delete (select_duplicates self) = duplicate_paths (tree self).
Proof.
  unfold files_to_delete, duplicate_paths, select_duplicates. cbn [tree].
  induction (tree self) as [|it t IH]; [reflexivity|].
  cbn [fmap list_fmap List.filter]. destruct (is_duplicate it) eqn:E.
  - unfold is_duplicate in *. cbn [checked text3 andb]. rewrite E. cbn [fmap list_fmap text0].
    f_equal. exact IH.
  - rewrite E, andb_false_r. exact IH.
Qed.

Lemma total_duplicates_length groups :
  Forall (fun g => count g = Z.of_nat (length (files g)) /\ files g <> []) groups ->
  total_duplicates groups = Z.of_nat (length (listed_as_duplicate groups)).
Proof.
  unfold total_duplicates, listed_as_duplicate.
  induction 1 as [|g groups [Hc Hne] _ IH]; [reflexivity|].
  cbn [fmap list_fmap foldr flat_map]. rewrite length_app, IH, Hc.
  destruct (files g); [contradiction|]. cbn [tail length]. lia.
Qed.

Lemma listed_as_duplicate_files groups x :
  x ∈ listed_as_duplicate groups -> x ∈ concat (files <$> groups).
Proof.
  unfold listed_as_duplicate. induction groups as [|g groups IH]; [intros H; exact H|].
  cbn [flat_map fmap list_fmap concat]. rewrite !elem_of_app. intros [H|H].
  - left. destruct (files g) as [|y l]; [exact H|]. apply list_elem_of_further, H.
  - right. apply IH, H.
Qed.

(** When no file is listed twice, the first file of a group is not among
    the files listed as duplicates. *)
Lemma first_file_not_listed {B} (f : string -> B) groups g x :
  NoDup (f <$> concat (files <$> groups)) ->
  g ∈ groups -> head (files g) = Some x ->
  f x ∉ f <$> listed_as_duplicate groups.
Proof.
  unfold listed_as_duplicate. induction groups as [|g0 groups IH]; intros Hnd Hg Hx.
  { apply elem_of_nil in Hg. contradiction. }
  cbn [fmap list_fmap concat flat_map] in *. rewrite fmap_app in Hnd |- *.
  apply NoDup_app in Hnd as (Hnd0 & Hdisj & Hnd1).
  assert (Hsub : forall y, y ∈ f <$> flat_map (fun g => tail (files g)) groups ->
                           y ∈ f <$> concat (files <$> groups)).
  { intros y (z & -> & Hz)%list_elem_of_fmap. apply list_elem_of_fmap. exists z.
    split; [reflexivity|]. apply listed_as_duplicate_files, Hz. }
  rewrite elem_of_app. apply elem_of_cons in Hg as [->|Hg].
  - destruct (files g0) as [|y l]; [discriminate|]. injection Hx as ->.
    cbn [tail fmap list_fmap] in *. apply NoDup_cons in Hnd0 as [Hx _].
    intros [H|H]; [exact (Hx H)|].
    apply (Hdisj (f x)); [apply list_elem_of_here|apply Hsub, H].
  - assert (Hin : f x ∈ f <$> concat (files <$> groups)).
    { apply list_elem_of_fmap. exists x. split; [reflexivity|].
      apply list_elem_of_In, in_concat. exists (files g). split.
      - apply list_elem_of_In, list_elem_of_fmap. exists g. split; [reflexivity|exact Hg].
      - destruct (files g) as [|y l]; [discriminate|]. injection Hx as ->.
        left. reflexivity. }
    intros [H|H]; [|exact (IH Hnd1 Hg Hx H)].
    apply (Hdisj (f x)); [|exact Hin].
    apply list_elem_of_fmap in H as (z & Ez & Hz). apply list_elem_of_fmap. exists z.
    split; [exact Ez|]. destruct (files g0) as [|y l]; [exact Hz|].
    apply list_elem_of_further, Hz.
Qed.

Lemma files_to_delete_listed self groups total self' :
  groups <> [] ->
  same_texts (show_results self groups total) self' ->
  files_to_delete self' `sublist_of` listed_as_duplicate groups.
Proof.
  intros Hne Hsame. unfold same_texts in Hsame.
  rewrite <- (duplicate_paths_groups groups).
  replace (duplicate_paths (flat_map group_items groups)) with (duplicate_paths (tree self')).
  - apply files_to_delete_sublist.
  - symmetry. rewrite <- (duplicate_paths_texts _ _ Hsame). destruct groups; [contradiction|].
    reflexivity.
Qed.

(** X12.  After a result with groups is shown, whatever boxes are then
    checked, the files that [delete_selected_files] collects are among the
    files listed as duplicates (those that are not the first of their
    group), in the order of the tree.  After [select_duplicates] they are
    all of these, and when each group has [count = len(files) > 0] their
    number is the number of duplicate files of the summary.  When no file
    is listed twice in the result, the first file of a group is never
    collected; a first file that is also listed as a duplicate is collected
    after [select_duplicates]. *)
Theorem only_listed_duplicates_are_collected self groups total self' :
  groups <> [] ->
  same_texts (show_results self groups total) self' ->
  files_to_delete self' `sublist_of` listed_as_duplicate groups /\
  files_to_delete (select_duplicates self') = listed_as_duplicate groups /\
  (Forall (fun g => count g = Z.of_nat (length (files g)) /\ files g <> []) groups ->
   summary_label (show_results self groups total)
     = Found (Z.of_nat (length groups))
             (Z.of_nat (length (files_to_delete (select_duplicates self')))) total) /\
  (NoDup (concat (files <$> groups)) ->
   forall g x, g ∈ groups -> head (files g) = Some x -> x ∉ files_to_delete self') /\
  (forall g x, g ∈ groups -> head (files g) = Some x ->
     x ∈ listed_as_duplicate groups -> x ∈ files_to_delete (select_duplicates self')).
Proof.
  intros Hne Hsame.
  pose proof (files_to_delete_listed self groups total self' Hne Hsame) as Hsub.
  unfold same_texts in Hsame.
  assert (E : duplicate_paths (tree self') = listed_as_duplicate groups).
  { rewrite <- (duplicate_paths_texts _ _ Hsame). destruct groups; [contradiction|].
    cbn [show_results tree]. apply duplicate_paths_groups. }
  split; [exact Hsub|]. rewrite files_to_delete_selected, E. split; [reflexivity|].
  split; [|split].
  - intros Hcount. destruct groups; [contradiction|]. cbn [show_results summary_label].
    rewrite (total_duplicates_length _ Hcount). reflexivity.
  - intros Hnd g x Hg Hx Hin.
    apply (first_file_not_listed id groups g x); [rewrite list_fmap_id; exact Hnd| | |];
      try assumption.
    rewrite list_fmap_id. eapply elem_of_sublist; eassumption.
  - intros g x _ _ Hin. exact Hin.
Qed.

Definition blank : dialog :=
  {| duplicate_groups := []; summary_label := Blank; tree := []; results_visible := false |}.

Definition two_groups : list group :=
  [{| hash := "h1"; files := ["/r/b"; "/r/s/a"; "/r/a"]; size := 5; wasted_space := 10;
      count := 3 |};
   {| hash := "h2"; files := ["/r/c"; "/r/d"]; size := 7; wasted_space := 7; count := 2 |}].

Lemma only_listed_duplicates_witness :
  files_to_delete (select_duplicates (show_results blank two_groups 17))
    = ["/r/s/a"; "/r/a"; "/r/d"] /\
  summary_label (show_results blank two_groups 17) = Found 2 3 17 /\
  "/r/b" ∉ files_to_delete (select_duplicates (show_results blank two_groups 17)).
Proof.
  destruct (only_listed_duplicates_are_collected blank two_groups 17
              (select_duplicates (show_results blank two_groups 17))) as (_ & _ & _ & H4 & _);
    [discriminate|reflexivity|].
  destruct (only_listed_duplicates_are_collected blank two_groups 17
              (show_results blank two_groups 17)) as (_ & H2 & H3 & _);
    [discriminate|reflexivity|].
  split; [exact H2|]. split.
  - rewrite H3; [reflexivity|]. repeat constructor; discriminate.
  - apply (H4 ltac:(apply (bool_decide_unpack _); vm_compute; exact I) _ "/r/b"
              (list_elem_of_here _ _) eq_refl).
Defined.

(** A group in which one path is listed twice, as the scan of two roots
    that overlap gives it. *)
Definition listed_twice : list group :=
  [{| hash := "h"; files := ["/m/x"; "/m/x"]; size := 5; wasted_space := 5; count := 2 |}].

(** The condition on the first file is needed: the path [/m/x] is marked
    "Keep (Original)" and "Duplicate", and is collected. *)
Example a_file_listed_twice_is_collected :
  files_to_delete (select_duplicates (show_results blank listed_twice 5)) = ["/m/x"].
Proof. reflexivity. Qed.

(** *** What is deleted *)





(** With the path listed twice, the only copy of the file is removed. *)
Example a_file_listed_twice_is_deleted :
  delete_selected_files Os.willing (select_duplicates (show_results blank listed_twice 5))
    true (list_to_map [("/m", FS.Dir); ("/m/x", FS.File "hello")])
  = (Deleted 1 [], list_to_map [("/m", FS.Dir)]).
Proof. vm_compute. reflexivity. Qed.

End DialogFacts.

(** ** The drives *)

Module DrivesFacts.
Import Drives.

#[local] Arguments Ascii.eqb : simpl never.

Lemma startswith_app_self (p t : string) : Str.startswith (p +:+ t) p = true.
Proof.
  induction p as [|c p IH]; [destruct t; reflexivity|].
  change (String c p +:+ t) with (String c (p +:+ t)). cbn [Str.startswith].
  rewrite Ascii.eqb_refl. exact IH.
Qed.

Lemma startswith_self (p : string) : Str.startswith p p = true.
Proof.
  induction p as [|c p IH]; [reflexivity|]. cbn [Str.startswith].
  rewrite Ascii.eqb_refl. exact IH.
Qed.

(** [bitmask & (1 << i)] is true when bit [i] of the mask is set. *)
Lemma bit_test (bitmask : Z) (i : nat) :
  negb (Z.land bitmask (Z.shiftl 1 (Z.of_nat i)) =? 0) = Z.testbit bitmask (Z.of_nat i).
Proof.
  rewrite Z.shiftl_1_l. destruct (Z.testbit bitmask (Z.of_nat i)) eqn:E.
  - apply negb_true_iff, Z.eqb_neq. intros H0.
    assert (Hb : Z.testbit (Z.land bitmask (2 ^ Z.of_nat i)) (Z.of_nat i) = true).
    { rewrite Z.land_spec, E, Z.pow2_bits_true by lia. reflexivity. }
    rewrite H0, Z.bits_0 in Hb. discriminate.
  - apply negb_false_iff, Z.eqb_eq. apply Z.bits_inj'. intros n Hn.
    rewrite Z.land_spec, Z.bits_0, Z.pow2_bits_eqb by lia.
    destruct (Z.eqb_spec (Z.of_nat i) n) as [<-|]; [rewrite E; reflexivity|].
    apply andb_false_r.
Qed.

Definition fixed_or_removable (drive_type : Z) : Prop := 2 <= drive_type <= 6.

Lemma nt_drive_spec w i drive drive_label :
  (drive, drive_label) ∈ nt_drive w i ->
  drive = drive_of i /\ Z.testbit (GetLogicalDrives w) (Z.of_nat i) = true /\
  fixed_or_removable (GetDriveTypeW w drive) /\ Str.startswith drive_label drive = true.
Proof.
  unfold nt_drive. rewrite bit_test.
  destruct (Z.testbit _ _); [|intros H; apply elem_of_nil in H; contradiction].
  destruct (existsb _ _) eqn:Ety; [|intros H; apply elem_of_nil in H; contradiction].
  destruct (GetVolumeInformationW w (drive_of i)) as [result value].
  intros H. apply list_elem_of_singleton in H. injection H as -> ->.
  split; [reflexivity|]. split; [reflexivity|]. split.
  - apply existsb_exists in Ety as (t & Ht & Et). apply Z.eqb_eq in Et. rewrite Et.
    unfold fixed_or_removable. cbn in Ht. lia.
  - repeat match goal with |- context [if ?b then _ else _] => destruct b end;
      rewrite ?startswith_self, ?startswith_app_self; reflexivity.
Qed.

Lemma nt_drive_some w i :
  Z.testbit (GetLogicalDrives w) (Z.of_nat i) = true ->
  fixed_or_removable (GetDriveTypeW w (drive_of i)) ->
  exists drive_label, nt_drive w i = [(drive_of i, drive_label)].
Proof.
  intros Hb Ht. unfold nt_drive. rewrite bit_test, Hb.
  assert (E : existsb (Z.eqb (GetDriveTypeW w (drive_of i))) [2; 3; 4; 5; 6] = true).
  { apply existsb_exists. exists (GetDriveTypeW w (drive_of i)). split; [|apply Z.eqb_refl].
    unfold fixed_or_removable in Ht. cbn.
    assert (GetDriveTypeW w (drive_of i) = 2 \/ GetDriveTypeW w (drive_of i) = 3 \/
            GetDriveTypeW w (drive_of i) = 4 \/ GetDriveTypeW w (drive_of i) = 5 \/
            GetDriveTypeW w (drive_of i) = 6) by lia.
    intuition congruence. }
  rewrite E. destruct (GetVolumeInformationW w (drive_of i)) as [result value].
  eexists. reflexivity.
Qed.

Lemma nt_drives_sublist w l :
  (flat_map (nt_drive w) l).*1 `sublist_of` drive_of <$> l.
Proof.
  induction l as [|i l IH]; [constructor|]. cbn [flat_map fmap list_fmap].
  rewrite fmap_app. apply (sublist_app _ [drive_of i] _ (drive_of <$> l)); [|exact IH].
  unfold nt_drive. destruct (negb _); [|apply sublist_nil_l].
  destruct (existsb _ _); [|apply sublist_nil_l].
  destruct (GetVolumeInformationW w (drive_of i)). reflexivity.
Qed.

(** A mount point listed in one of the directories [bases]. *)
Definition mounted_in (w : posix) (bases : list string) (drive : string) : Prop :=
  exists base names name,
    base ∈ bases /\ isdir w base = true /\ listdir w base = Some names /\
    name ∈ names /\ drive = Path.join base name /\ ismount w drive = true.

Lemma elem_of_mounts w base names drive drive_label :
  (drive, drive_label) ∈ mounts w base names <->
  exists name, name ∈ names /\ drive = Path.join base name /\ ismount w drive = true /\
               drive_label = drive +:+ " - Removable Drive".
Proof.
  unfold mounts. rewrite list_elem_of_In, in_flat_map. split.
  - intros (name & Hn & H). destruct (ismount w (Path.join base name)) eqn:Em; [|destruct H].
    destruct H as [[= <- <-]|[]]. exists name.
    split; [apply list_elem_of_In, Hn|]. repeat split. exact Em.
  - intros (name & Hn & -> & Em & ->). exists name. split; [apply list_elem_of_In, Hn|].
    rewrite Em. left. reflexivity.
Qed.

Lemma posix_bases_spec w bases drives l :
  posix_bases w bases drives = Some l ->
  drives `prefix_of` l /\
  forall drive drive_label, (drive, drive_label) ∈ l <->
    (drive, drive_label) ∈ drives \/
    (mounted_in w bases drive /\ drive_label = drive +:+ " - Removable Drive").
Proof.
  revert drives. induction bases as [|base bases IH]; intros drives; cbn [posix_bases].
  - intros [= <-]. split; [reflexivity|]. intros drive drive_label. split; [auto|].
    intros [H|[(b & ns & n & Hb & _) _]]; [exact H|]. apply elem_of_nil in Hb. contradiction.
  - destruct (isdir w base) eqn:Ed.
    + destruct (listdir w base) as [names|] eqn:El; [|discriminate]. intros E.
      destruct (IH _ E) as [Hpre Hall]. split.
      * etransitivity; [|exact Hpre]. apply prefix_app_r. reflexivity.
      * intros drive drive_label. rewrite Hall, elem_of_app, elem_of_mounts. split.
        -- intros [[H|(n & Hn & Hd & Hm & Hl)]|[(b & ns & n & Hb & H) Hl]].
           ++ left. exact H.
           ++ right. split; [|exact Hl]. exists base, names, n.
              split; [apply list_elem_of_here|]. repeat split; assumption.
           ++ right. split; [|exact Hl]. exists b, ns, n.
              split; [apply list_elem_of_further, Hb|exact H].
        -- intros [H|[(b & ns & n & Hb & Hbd & Hbl & Hn & Hd & Hm) Hl]]; [left; left; exact H|].
           apply elem_of_cons in Hb as [->|Hb].
           ++ left. right. rewrite El in Hbl. injection Hbl as <-. exists n.
              repeat split; assumption.
           ++ right. split; [|exact Hl]. exists b, ns, n. repeat split; assumption.
    + intros E. destruct (IH _ E) as [Hpre Hall]. split; [exact Hpre|].
      intros drive drive_label. rewrite Hall. split.
      * intros [H|[(b & ns & n & Hb & H) Hl]]; [left; exact H|right].
        split; [|exact Hl]. exists b, ns, n. split; [apply list_elem_of_further, Hb|exact H].
      * intros [H|[(b & ns & n & Hb & Hbd & H) Hl]]; [left; exact H|right].
        apply elem_of_cons in Hb as [->|Hb]; [congruence|].
        split; [|exact Hl]. exists b, ns, n. split; [exact Hb|]. split; [exact Hbd|exact H].
Qed.

(** X14.  Every label of [list_drives] starts with the path of its drive.
    On Windows the drives are those of the letters [A] to [Z] whose bit is
    set in the mask and whose type is one of 2 to 6, each once and in the
    order of the letters.  Elsewhere the list starts with [/], and the
    other drives are exactly the mount points [os.path.join(base, name)]
    for a name that [os.listdir] gives in one of the directories
    [/Volumes], [/media] and [/mnt], each labelled as a removable drive. *)
Theorem drives_and_their_labels o drives :
  list_drives o = Some drives ->
  (forall drive drive_label, (drive, drive_label) ∈ drives ->
     Str.startswith drive_label drive = true) /\
  (forall w, o = Nt w ->
     drives.*1 `sublist_of` drive_of <$> seq 0 26 /\ NoDup drives.*1 /\
     forall i : nat, (i < 26)%nat ->
       (exists drive_label, (drive_of i, drive_label) ∈ drives) <->
       Z.testbit (GetLogicalDrives w) (Z.of_nat i) = true /\
       fixed_or_removable (GetDriveTypeW w (drive_of i))) /\
  (forall w, o = Posix w ->
     head drives = Some ("/", "/") /\
     forall drive drive_label, (drive, drive_label) ∈ drives <->
       (drive, drive_label) = ("/", "/") \/
       (mounted_in w ["/Volumes"; "/media"; "/mnt"] drive /\
        drive_label = drive +:+ " - Removable Drive")).
Proof.
  assert (Hletters : NoDup (drive_of <$> seq 0 26)).
  { apply (bool_decide_unpack _). vm_compute. exact I. }
  assert (Hinj : forall i j : nat, (i < 26)%nat -> (j < 26)%nat ->
                   drive_of i = drive_of j -> i = j).
  { intros i j Hi Hj E.
    apply (NoDup_lookup _ i j (drive_of i) Hletters);
      rewrite list_lookup_fmap, lookup_seq_lt by lia; cbn; congruence. }
  destruct o as [w|w]; unfold list_drives.
  - remember (seq 0 26) as range26 eqn:Er. intros E.
    assert (drives = flat_map (nt_drive w) range26) as -> by congruence. clear E.
    split; [|split; [|intros ? [=]]].
    + intros drive drive_label Hin. apply list_elem_of_In, in_flat_map in Hin as (i & _ & Hin).
      apply list_elem_of_In, nt_drive_spec in Hin as (_ & _ & _ & H). exact H.
    + intros w' [= <-]. split; [apply nt_drives_sublist|].
      split; [eapply sublist_NoDup; [exact Hletters|apply nt_drives_sublist]|].
      intros i Hi. split.
      * intros (drive_label & Hin).
        apply list_elem_of_In, in_flat_map in Hin as (j & Hj & Hin).
        rewrite Er in Hj. apply in_seq in Hj.
        apply list_elem_of_In, nt_drive_spec in Hin as (E & Hb & Ht & _).
        apply Hinj in E; [|lia|lia]. subst j. split; assumption.
      * intros [Hb Ht]. destruct (nt_drive_some w i Hb Ht) as [drive_label E].
        exists drive_label. apply list_elem_of_In, in_flat_map. exists i.
        split; [rewrite Er; apply in_seq; lia|]. rewrite E. left. reflexivity.
  - intros E. destruct (posix_bases_spec w _ _ _ E) as [[r ->] Hall].
    split; [|split; [intros ? [=]|]].
    + intros drive drive_label Hin.
      apply Hall in Hin as [H|[_ ->]].
      * apply list_elem_of_singleton in H. injection H as -> ->. reflexivity.
      * apply startswith_app_self.
    + intros w' [= <-]. split; [reflexivity|].
      intros drive drive_label. rewrite Hall, list_elem_of_singleton. reflexivity.
Qed.

Definition two_drives : nt :=
  {| GetLogicalDrives := 12;
     GetDriveTypeW := fun drive => if String.eqb drive (drive_of 2) then 3 else 2;
     GetVolumeInformationW :=
       fun drive => if String.eqb drive (drive_of 2) then (1, "System") else (0, "") |}.

(** [/media] holds [usb], a mount point, and [notes], which is none;
    [/Volumes] and [/mnt] do not exist. *)
Definition one_stick : posix :=
  {| isdir := fun p => String.eqb p "/media";
     listdir := fun p => Some ["usb"; "notes"];
     ismount := fun p => String.eqb p "/media/usb" |}.

Lemma drives_witness :
  list_drives (Nt two_drives)
    = Some [(drive_of 2, drive_of 2 +:+ " - System");
            (drive_of 3, drive_of 3 +:+ " - Removable Drive")] /\
  Str.startswith (drive_of 2 +:+ " - System") (drive_of 2) = true /\
  list_drives (Posix one_stick)
    = Some [("/", "/"); ("/media/usb", "/media/usb - Removable Drive")] /\
  mounted_in one_stick ["/Volumes"; "/media"; "/mnt"] "/media/usb".
Proof.
  split; [vm_compute; reflexivity|].
  destruct (drives_and_their_labels (Nt two_drives)
              [(drive_of 2, drive_of 2 +:+ " - System");
               (drive_of 3, drive_of 3 +:+ " - Removable Drive")]) as [H _].
  { vm_compute. reflexivity. }
  destruct (drives_and_their_labels (Posix one_stick)
              [("/", "/"); ("/media/usb", "/media/usb - Removable Drive")]) as (_ & _ & H').
  { vm_compute. reflexivity. }
  split; [apply (H (drive_of 2) (drive_of 2 +:+ " - System")); apply list_elem_of_here|].
  split; [vm_compute; reflexivity|].
  destruct (H' one_stick eq_refl) as [_ Hall].
  destruct (proj1 (Hall "/media/usb" "/media/usb - Removable Drive")) as [E|[Hm _]].
  - apply list_elem_of_further, list_elem_of_here.
  - discriminate.
  - exact Hm.
Defined.

End DrivesFacts.

(** ** Deleting the selection of a panel *)

Module DriveTreeFacts.
Import DriveTree.

(** [q] is not [p] and does not lie in the tree under [p]. *)
Definition outside (p q : string) : Prop :=
  FS.below (Path.normpath p) (Path.normpath q) = None.

(** The operating system refuses no call. *)
Definition nothing_refused (r : Os.refusals) : Prop :=
  forall i p, Os.remove_refused r i p = None /\ Os.rmtree_refused r i p = None.

Lemma below_self root : FS.below root root = Some "".
Proof. unfold FS.below. rewrite String.eqb_refl. reflexivity. Qed.

Lemma lookup_remove_subtree (w : FS.fs) src k :
  FS.remove_subtree w src !! k
  = match FS.below src k with None => w !! k | Some _ => None end.
Proof.
  unfold FS.remove_subtree. apply option_eq. intros n.
  rewrite map_lookup_filter_Some. cbn [fst].
  destruct (FS.below src k); split; try tauto; try discriminate.
  intros [_ H]. discriminate.
Qed.

Lemma remove_subtree_subseteq (w : FS.fs) src : FS.remove_subtree w src ⊆ w.
Proof. apply map_filter_subseteq. Qed.

(** One turn only removes entries, and only entries of the tree under the
    path; without an error the path is gone, and an error on a path that
    exists is a refusal. *)
Lemma delete_path_spec r i w p :
  (delete_path r i w p).2 ⊆ w /\
  (forall k, FS.below (Path.normpath p) k = None ->
     (delete_path r i w p).2 !! k = w !! k) /\
  ((delete_path r i w p).1 = None -> FS.lookup (delete_path r i w p).2 p = None) /\
  (nothing_refused r -> is_Some (FS.lookup w p) -> (delete_path r i w p).1 = None).
Proof.
  unfold delete_path, FS.isdir, Os.remove, Os.rmtree, nothing_refused.
  destruct (FS.lookup w p) as [[content|]|] eqn:E; unfold FS.lookup in *.
  - destruct (Os.remove_refused r i p) as [e|] eqn:Er; cbn [fst snd].
    + split; [reflexivity|]. split; [reflexivity|]. split; [discriminate|].
      intros Hr _. destruct (Hr i p) as [Hr1 _]. congruence.
    + split; [apply delete_subseteq|]. split; [|split; [|reflexivity]].
      * intros k Hk. apply lookup_delete_ne. intros <-. rewrite below_self in Hk. discriminate.
      * intros _. apply lookup_delete_eq.
  - destruct (Os.rmtree_refused r i p) as [[left_behind e]|] eqn:Er; cbn [fst snd].
    + split; [apply map_filter_subseteq|]. split; [|split; [discriminate|]].
      * intros k Hk. apply option_eq. intros n. rewrite map_lookup_filter_Some. cbn [fst].
        tauto.
      * intros Hr _. destruct (Hr i p) as [_ Hr2]. congruence.
    + split; [apply remove_subtree_subseteq|]. split; [|split; [|reflexivity]].
      * intros k Hk. rewrite lookup_remove_subtree, Hk. reflexivity.
      * intros _. rewrite lookup_remove_subtree, below_self. reflexivity.
  - destruct (Os.remove_refused r i p) as [e|]; cbn [fst snd].
    + split; [reflexivity|]. split; [reflexivity|]. split; [discriminate|].
      intros _ [n Hn]. discriminate.
    + split; [reflexivity|]. split; [reflexivity|]. split; [discriminate|].
      intros _ [n Hn]. discriminate.
Qed.

Lemma delete_each_spec r i paths w errors :
  exists errs w',
    delete_each r i paths w errors = (errors ++ errs, w') /\
    w' ⊆ w /\
    (forall p, p ∈ paths ->
       FS.lookup w' p = None \/ exists e, p +:+ ": " +:+ e ∈ errs) /\
    (forall k, Forall (fun p => FS.below (Path.normpath p) k = None) paths ->
       w' !! k = w !! k) /\
    (nothing_refused r ->
     Forall (fun p => is_Some (FS.lookup w p)) paths -> ForallOrdPairs outside paths ->
     errs = []).
Proof.
  revert i w errors. induction paths as [|p paths IH]; intros i w errors.
  - exists [], w. cbn [delete_each]. rewrite app_nil_r. split; [reflexivity|].
    split; [reflexivity|]. split; [intros p Hp; apply elem_of_nil in Hp; contradiction|].
    split; [reflexivity|]. reflexivity.
  - cbn [delete_each].
    destruct (delete_path_spec r i w p) as (Hsub1 & Hout1 & Hgone1 & Hok1).
    destruct (delete_path r i w p) as [[e|] w1]; cbn [fst snd] in *.
    + destruct (IH (S i) w1 (errors ++ [p +:+ ": " +:+ e]))
        as (errs & w' & -> & Hsub & Hgone & Hout & _).
      eexists (_ :: errs), w'. rewrite <- app_assoc. split; [reflexivity|].
      split; [etransitivity; eassumption|]. split; [|split].
      * intros q [->|Hq]%elem_of_cons.
        -- right. exists e. apply list_elem_of_here.
        -- destruct (Hgone q Hq) as [H|[e' H]]; [left; exact H|right].
           exists e'. apply list_elem_of_further, H.
      * intros k [Hk1 Hk]%Forall_cons. rewrite (Hout k Hk). apply Hout1, Hk1.
      * intros Hr [Hex _]%Forall_cons _. specialize (Hok1 Hr Hex). discriminate.
    + destruct (IH (S i) w1 errors) as (errs & w' & -> & Hsub & Hgone & Hout & Hnone).
      exists errs, w'. split; [reflexivity|].
      split; [etransitivity; eassumption|]. split; [|split].
      * intros q [->|Hq]%elem_of_cons; [|apply Hgone, Hq]. left.
        specialize (Hgone1 eq_refl). unfold FS.lookup in *.
        eapply lookup_weaken_None; eassumption.
      * intros k [Hk1 Hk]%Forall_cons. rewrite (Hout k Hk). apply Hout1, Hk1.
      * intros Hr [_ Hex]%Forall_cons Hord. inversion Hord as [|? ? Hfirst Hrest]; subst.
        apply (Hnone Hr); [|exact Hrest].
        rewrite Forall_forall in Hex, Hfirst |- *. intros q Hq.
        unfold FS.lookup. rewrite (Hout1 _ (Hfirst q Hq)). apply Hex, Hq.
Qed.

(** X15.  Whatever the operating system refuses, [delete_selected] only
    removes entries, and none when the question is not answered with yes.
    After a confirmed deletion each selected path either exists no more or
    has its error in the list that is shown, and an entry that is not a
    selected path and does not lie under one is left as it was.  When
    nothing is refused, every selected path exists and none lies under (or
    is) an earlier one, no error is shown. *)
Theorem delete_selected_removes_the_selection r paths yes w :
  (delete_selected r paths yes w).2 ⊆ w /\
  (yes = false -> (delete_selected r paths yes w).2 = w) /\
  (forall errors, (delete_selected r paths yes w).1 = Some errors ->
     forall p, p ∈ paths ->
       FS.exists_ (delete_selected r paths yes w).2 p = false \/
       exists e, p +:+ ": " +:+ e ∈ errors) /\
  (forall k, Forall (fun p => FS.below (Path.normpath p) k = None) paths ->
     (delete_selected r paths yes w).2 !! k = w !! k) /\
  (yes = true -> paths <> [] -> nothing_refused r ->
   Forall (fun p => FS.exists_ w p = true) paths -> ForallOrdPairs outside paths ->
   (delete_selected r paths yes w).1 = Some []).
Proof.
  unfold delete_selected. destruct paths as [|p0 paths0] eqn:Ep.
  { cbn [fst snd]. split; [reflexivity|]. split; [reflexivity|].
    split; [discriminate|]. split; [reflexivity|]. intros _ H. contradiction. }
  rewrite <- Ep. clear Ep. destruct yes; cbn [negb].
  2:{ cbn [fst snd]. split; [reflexivity|]. split; [reflexivity|].
      split; [discriminate|]. split; [reflexivity|discriminate]. }
  destruct (delete_each_spec r 0 paths w []) as (errs & w' & -> & Hsub & Hgone & Hout & Hnone).
  cbn [fst snd app]. split; [exact Hsub|]. split; [discriminate|]. split; [|split].
  - intros errors [= <-] p Hp. destruct (Hgone p Hp) as [H|H]; [left|right; exact H].
    unfold FS.exists_. rewrite H. reflexivity.
  - exact Hout.
  - intros _ _ Hr Hex Hord. rewrite (Hnone Hr); [reflexivity| |exact Hord].
    eapply Forall_impl; [exact Hex|]. intros p Hp. unfold FS.exists_ in Hp.
    destruct (FS.lookup w p); [eexists; reflexivity|discriminate].
Qed.

(** The file [/d/a.txt] is in use and cannot be removed. *)
Definition in_use : Os.refusals :=
  {| Os.remove_refused := fun _ p =>
       if String.eqb p "/d/a.txt" then Some "[Errno 13] Permission denied: '/d/a.txt'"
       else None;
     Os.rmtree_refused := fun _ _ => None |}.

Lemma delete_selected_witness :
  (delete_selected Os.willing ["/d/a.txt"; "/src"] true FileOperationFacts.example_fs).1
    = Some [] /\
  (FS.exists_ (delete_selected in_use ["/d/a.txt"; "/src"] true
                 FileOperationFacts.example_fs).2 "/d/a.txt" = false \/
   exists e,
     "/d/a.txt" +:+ ": " +:+ e
       ∈ ["/d/a.txt: [Errno 13] Permission denied: '/d/a.txt'"]).
Proof.
  destruct (delete_selected_removes_the_selection Os.willing ["/d/a.txt"; "/src"] true
              FileOperationFacts.example_fs) as (_ & _ & _ & _ & Hnone).
  destruct (delete_selected_removes_the_selection in_use ["/d/a.txt"; "/src"] true
              FileOperationFacts.example_fs) as (_ & _ & Hgone & _).
  split.
  - apply Hnone; [reflexivity|discriminate| |repeat constructor|].
    + intros i p. split; reflexivity.
    + repeat constructor; vm_compute; reflexivity.
  - apply Hgone; [vm_compute; reflexivity|apply list_elem_of_here].
Defined.

End DriveTreeFacts.

(** ** The message after a file operation *)

Module FileViewerFacts.
Import FileOperationWorker FileOperationFacts FileOperationMore FileViewer.

(** X16.  After a batch that is not cancelled, with sources and a
    destination that is a directory, the box that shows the result has the
    icon [Information] (and the title "... Complete") exactly when every
    item succeeded, [Critical] ("... Failed") exactly when none did, and
    [Warning] ("... Results") otherwise. *)
Theorem result_box_tells_how_many_succeeded self w success errs op :
  FS.isdir w (destination_dir self) = true -> source_paths self <> [] ->
  Result success errs op ∈ (run self w None).1 ->
  let n := Z.of_nat (length (source_paths self)) in
  let box := handle_file_operation_result success errs op in
  (box_icon box = Information <-> success = n) /\
  (box_icon box = Critical <-> success = 0) /\
  (box_icon box = Warning <-> 0 < success < n) /\
  window_title box
    = Str.title op +:+ match box_icon box with
                       | Information => " Complete"
                       | Critical => " Failed"
                       | Warning => " Results"
                       end.
Proof.
  intros Hd Hne Hin n box.
  destruct (run_events_shape self w None Hd) as (ps & s & es & E & Hlen & Ht & Hs & _).
  rewrite E in Hin. unfold handled in Hlen.
  assert (Hn : 0 < n) by (unfold n; destruct (source_paths self); [contradiction|cbn; lia]).
  assert (success = s /\ errs = es) as [-> ->].
  { apply elem_of_app in Hin as [Hin|Hin].
    - apply list_elem_of_fmap in Hin as (p & Hp & _). discriminate.
    - apply elem_of_cons in Hin as [[= -> -> _]|Hin]; [split; reflexivity|].
      apply list_elem_of_singleton in Hin. discriminate. }
  fold n in Hlen. assert (Hsum : s + Z.of_nat (length es) = n) by lia.
  subst box. unfold handle_file_operation_result. destruct es as [|e es].
  - cbn [box_icon window_title length] in *.
    split; [split; [intros _; lia|reflexivity]|].
    split; [split; [discriminate|lia]|]. split; [split; [discriminate|lia]|reflexivity].
  - cbn [length] in Hsum. destruct (Z.eqb_spec s 0) as [->|Hs0]; cbn [box_icon window_title].
    + split; [split; [discriminate|lia]|].
      split; [split; reflexivity|]. split; [split; [discriminate|lia]|reflexivity].
    + split; [split; [discriminate|lia]|].
      split; [split; [discriminate|contradiction]|].
      split; [split; [intros _; lia|reflexivity]|reflexivity].
Qed.

Lemma result_box_witness :
  box_icon (handle_file_operation_result 1
              ["gone: Source no longer exists"; "src: Cannot copy to itself or subdirectory"]
              "copy") = Warning.
Proof.
  destruct (result_box_tells_how_many_succeeded copy_three example_fs 1
              ["gone: Source no longer exists"; "src: Cannot copy to itself or subdirectory"]
              "copy") as (_ & _ & H & _).
  - reflexivity.
  - discriminate.
  - vm_compute. do 3 apply list_elem_of_further. apply list_elem_of_here.
  - apply H. cbn. lia.
Defined.

End FileViewerFacts.

(** ** One file, copied or moved *)

Module FileOperationOneFile.
Import PyNumFacts StrFacts PathFacts ConflictFacts FileOperationWorker FileOperationFacts.
Import DriveTreeFacts FileOperationFiles.








End FileOperationOneFile.
